(** * Markdown syntax tree to AST conversion (Zettlr, [markdown-to-ast])

    A shallow embedding of the converter [parseNode] with its helpers
    [genericTextNode], [parseAttributeNode] and [parseChildren], and the
    properties of the conversion that the specification states.

    Modelling conventions.
    - Offsets ([from], [to]) are JavaScript numbers holding integers: [Z].
    - A JavaScript string is a sequence of code units; the code units below
      256 are represented by [ascii], so a source text is a [string].
    - [Record<string, string>] is a finite map [gmap string string].
    - A Lezer [SyntaxNode] is a finite tree; [firstChild]/[nextSibling] walk
      the list [children], [getChild]/[getChildren] search it by name.
    - [throw] and the [TypeError] of reading a property of [undefined] are
      the [Thrown] outcome of the [Outcome] monad. *)

From Stdlib Require Import ZArith String Ascii List Lia Bool.
From stdpp Require Import base option gmap strings list.

#[local] Set Warnings "-register-all".
#[local] Open Scope Z_scope.

(** ** JavaScript string primitives used by the converter *)

Module JS.

(** [String.prototype.substring(start, end)]: both indices are clamped to
    [0, length] and swapped when [start > end]. *)
Definition clamp (len i : Z) : Z := Z.min (Z.max i 0) len.

Definition substring (s : string) (start end_ : Z) : string :=
  let len := Z.of_nat (String.length s) in
  let a := clamp len start in
  let b := clamp len end_ in
  let lo := Z.min a b in
  let hi := Z.max a b in
  String.substring (Z.to_nat lo) (Z.to_nat (hi - lo)) s.

(** [s.substring(start)]: up to the end of the string. *)
Definition substringFrom (s : string) (start : Z) : string :=
  substring s start (Z.of_nat (String.length s)).

(** The code units below 256 that [trim] strips and that [\s] matches:
    TAB, LF, VT, FF, CR, SPACE and NO-BREAK SPACE. *)
Definition isWhiteSpace (c : ascii) : bool :=
  existsb (Ascii.eqb c)
    ["009"; "010"; "011"; "012"; "013"; " "; "160"]%char.

Fixpoint trimStart (s : string) : string :=
  match s with
  | EmptyString => EmptyString
  | String c r => if isWhiteSpace c then trimStart r else s
  end.

Fixpoint trimEnd (s : string) : string :=
  match s with
  | EmptyString => EmptyString
  | String c r =>
      match trimEnd r with
      | EmptyString => if isWhiteSpace c then EmptyString else String c EmptyString
      | r' => String c r'
      end
  end.

Definition trim (s : string) : string := trimEnd (trimStart s).

Definition startsWith (s search : string) : bool := String.prefix search s.

Fixpoint endsWith (s search : string) : bool :=
  String.eqb s search ||
  match s with
  | EmptyString => false
  | String _ r => endsWith r search
  end.

Fixpoint includes (s search : string) : bool :=
  String.prefix search s ||
  match s with
  | EmptyString => false
  | String _ r => includes r search
  end.

(** [s.split(sep)] for a separator of one code unit. *)
Fixpoint split (sep : ascii) (s : string) : list string :=
  match s with
  | EmptyString => [EmptyString]
  | String c r =>
      if Ascii.eqb c sep then EmptyString :: split sep r
      else match split sep r with
           | p :: ps => String c p :: ps
           | [] => [String c EmptyString]
           end
  end.

(** [s.split(/\s+/)]: the pieces between maximal runs of white space.
    [inRun] tells that the previous code unit was white space. *)
Fixpoint splitWhiteSpace_from (inRun : bool) (s : string) : list string :=
  match s with
  | EmptyString => [EmptyString]
  | String c r =>
      if isWhiteSpace c then
        if inRun then splitWhiteSpace_from true r
        else EmptyString :: splitWhiteSpace_from true r
      else match splitWhiteSpace_from false r with
           | p :: ps => String c p :: ps
           | [] => [String c EmptyString]
           end
  end.

Definition splitWhiteSpace (s : string) : list string :=
  match s with
  | EmptyString => [EmptyString]
  | String c r =>
      if isWhiteSpace c then EmptyString :: splitWhiteSpace_from true r
      else splitWhiteSpace_from false s
  end.

(** [Array.prototype.includes] on an array of strings. *)
Definition Array_includes (a : list string) (x : string) : bool :=
  existsb (String.eqb x) a.

End JS.

Arguments JS.Array_includes : simpl never.
Arguments JS.substring : simpl never.
Arguments JS.trim : simpl never.

(** ** The concrete syntax tree (Lezer's [SyntaxNode]) *)

Inductive SyntaxNode : Type :=
  mkNode { name : string; from : Z; to : Z; children : list SyntaxNode }.

(** [node.getChild(type)]: the first direct child of that name, or [null]. *)
Definition getChild (node : SyntaxNode) (type : string) : option SyntaxNode :=
  List.find (fun c => String.eqb (name c) type) (children node).

(** [node.getChildren(type)]: all direct children of that name, in order. *)
Definition getChildren (node : SyntaxNode) (type : string) : list SyntaxNode :=
  List.filter (fun c => String.eqb (name c) type) (children node).

(** The number of nodes on the longest path from a node down to a leaf. *)
Fixpoint height (node : SyntaxNode) : nat :=
  match node with
  | mkNode _ _ _ cs =>
      S ((fix heights (l : list SyntaxNode) : nat :=
            match l with
            | [] => O
            | c :: r => Nat.max (height c) (heights r)
            end) cs)
  end.

(** ** Outcomes: a returned value, a thrown exception, or fuel exhausted *)

Inductive Exception : Type :=
| Error (message : string)
| TypeError (message : string).

Inductive Outcome (A : Type) : Type :=
| Returned (a : A)
| Thrown (e : Exception)
| OutOfFuel.
Arguments Returned {A} a.
Arguments Thrown {A} e.
Arguments OutOfFuel {A}.

#[global] Instance Outcome_ret : MRet Outcome := fun A a => Returned a.
#[global] Instance Outcome_bind : MBind Outcome := fun A B f m =>
  match m with
  | Returned a => f a
  | Thrown e => Thrown e
  | OutOfFuel => OutOfFuel
  end.
#[global] Instance Outcome_fmap : FMap Outcome := fun A B f m =>
  match m with
  | Returned a => Returned (f a)
  | Thrown e => Thrown e
  | OutOfFuel => OutOfFuel
  end.

(** A [for ... of] loop that builds an array with [push], one element per
    iteration, and stops at the first exception. *)
Fixpoint forOf {A B : Type} (f : A → Outcome B) (l : list A) : Outcome (list B) :=
  match l with
  | [] => mret []
  | x :: r => y ← f x; ys ← forOf f r; mret (y :: ys)
  end.

(** ** The abstract syntax tree *)

(** [MDNode]: what every AST node provides. [md_attributes] is the
    optional property [attributes]. *)
Record MDNode : Type := {
  md_name : string;
  md_from : Z;
  md_to : Z;
  md_attributes : option (gmap string string)
}.

Definition mdNode (name : string) (from to : Z) : MDNode :=
  {| md_name := name; md_from := from; md_to := to; md_attributes := None |}.

(** [type: 'Text'] *)
Record TextNode : Type := { text_md : MDNode; value : string }.

(** [type: 'Footnote'] *)
Record Footnote : Type := {
  footnote_md : MDNode;
  inline : bool;
  footnote_label : string
}.

Inductive LinkOrImageType : Type := Link | Image.

(** [type: 'Link'|'Image']; the optional [title] is never populated. *)
Record LinkOrImage : Type := {
  link_type : LinkOrImageType;
  link_md : MDNode;
  url : TextNode;
  alt : TextNode;
  title : option TextNode
}.

(** [type: 'Heading'] *)
Record Heading : Type := {
  heading_md : MDNode;
  heading_value : TextNode;
  level : Z
}.

(** [FencedCode] and [YAMLFrontmatter] have the same fields. *)
Record CodeBlock : Type := {
  code_md : MDNode;
  info : string;
  source : string
}.

(** [type: 'InlineCode'] *)
Record InlineCode : Type := { inline_md : MDNode; inline_source : string }.

(** [type: 'ZettelkastenLink'] and [type: 'ZettelkastenTag'] *)
Record ZettelkastenLink : Type := { zknlink_md : MDNode; zknlink_value : TextNode }.
Record ZettelkastenTag : Type := { zkntag_md : MDNode; zkntag_value : TextNode }.

Record Marker : Type := {
  symbol : option string;
  marker_from : Z;
  marker_to : Z
}.

Inductive EmphasisKind : Type := italic | bold.

(** The variants that hold child nodes, over the type [A] of AST nodes. *)
Record FootnoteRefOf (A : Type) : Type := {
  footnoteref_md : MDNode;
  footnoteref_label : string;
  footnoteref_children : list A
}.

Record HighlightOf (A : Type) : Type := {
  highlight_md : MDNode;
  highlight_children : list A
}.

Record ListItemOf (A : Type) : Type := {
  item_md : MDNode;
  checked : option bool;
  marker : Marker;
  item_children : list A
}.

Record ListOf (A : Type) : Type := {
  list_md : MDNode;
  ordered : bool;
  items : list (ListItemOf A)
}.

Record EmphasisOf (A : Type) : Type := {
  emphasis_md : MDNode;
  which : EmphasisKind;
  emphasis_children : list A
}.

Record TableCellOf (A : Type) : Type := {
  cell_md : MDNode;
  cell_children : list A
}.

Record TableRowOf (A : Type) : Type := {
  row_md : MDNode;
  isHeaderOrFooter : bool;
  cells : list (TableCellOf A)
}.

Record TableOf (A : Type) : Type := {
  table_md : MDNode;
  rows : list (TableRowOf A)
}.

Record GenericNodeOf (A : Type) : Type := {
  generic_md : MDNode;
  generic_children : list A
}.

Arguments footnoteref_md {A}. Arguments footnoteref_label {A}.
Arguments footnoteref_children {A}.
Arguments highlight_md {A}. Arguments highlight_children {A}.
Arguments item_md {A}. Arguments checked {A}. Arguments marker {A}.
Arguments item_children {A}.
Arguments list_md {A}. Arguments ordered {A}. Arguments items {A}.
Arguments emphasis_md {A}. Arguments which {A}. Arguments emphasis_children {A}.
Arguments cell_md {A}. Arguments cell_children {A}.
Arguments row_md {A}. Arguments isHeaderOrFooter {A}. Arguments cells {A}.
Arguments table_md {A}. Arguments rows {A}.
Arguments generic_md {A}. Arguments generic_children {A}.

Section Converter.

(** The citation extractor ([@common/util/extract-citations]) is an
    external collaborator: its result type and the function itself are
    parameters of the development. *)
Context {CitePosition : Type}.
Variable extractCitations : string → list CitePosition.

(** [type: 'Citation']; [parsedCitation] is [undefined] when the extractor
    finds nothing. *)
Record Citation : Type := {
  citation_md : MDNode;
  citation_value : TextNode;
  parsedCitation : option CitePosition
}.

(** [ASTNode]: the tagged union; the constructor is the [type] tag. *)
Inductive ASTNode : Type :=
| NFootnote (n : Footnote)
| NFootnoteRef (n : FootnoteRefOf ASTNode)
| NLinkOrImage (n : LinkOrImage)
| NText (n : TextNode)
| NHeading (n : Heading)
| NCitation (n : Citation)
| NHighlight (n : HighlightOf ASTNode)
| NList (n : ListOf ASTNode)
| NListItem (n : ListItemOf ASTNode)
| NGeneric (n : GenericNodeOf ASTNode)
| NFencedCode (n : CodeBlock)
| NInlineCode (n : InlineCode)
| NYAMLFrontmatter (n : CodeBlock)
| NEmphasis (n : EmphasisOf ASTNode)
| NTable (n : TableOf ASTNode)
| NTableCell (n : TableCellOf ASTNode)
| NTableRow (n : TableRowOf ASTNode)
| NZettelkastenLink (n : ZettelkastenLink)
| NZettelkastenTag (n : ZettelkastenTag).

Abbreviation FootnoteRef := (FootnoteRefOf ASTNode).
Abbreviation Highlight := (HighlightOf ASTNode).
Abbreviation ListItem := (ListItemOf ASTNode).
Abbreviation List := (ListOf ASTNode).
Abbreviation Emphasis := (EmphasisOf ASTNode).
Abbreviation TableCell := (TableCellOf ASTNode).
Abbreviation TableRow := (TableRowOf ASTNode).
Abbreviation Table := (TableOf ASTNode).
Abbreviation GenericNode := (GenericNodeOf ASTNode).

(** The [MDNode] part of a node. *)
Definition base (n : ASTNode) : MDNode :=
  match n with
  | NFootnote n => footnote_md n
  | NFootnoteRef n => footnoteref_md n
  | NLinkOrImage n => link_md n
  | NText n => text_md n
  | NHeading n => heading_md n
  | NCitation n => citation_md n
  | NHighlight n => highlight_md n
  | NList n => list_md n
  | NListItem n => item_md n
  | NGeneric n => generic_md n
  | NFencedCode n => code_md n
  | NInlineCode n => inline_md n
  | NYAMLFrontmatter n => code_md n
  | NEmphasis n => emphasis_md n
  | NTable n => table_md n
  | NTableCell n => cell_md n
  | NTableRow n => row_md n
  | NZettelkastenLink n => zknlink_md n
  | NZettelkastenTag n => zkntag_md n
  end.

(** The bound [T extends { children: ASTNode[] } & MDNode] of
    [parseChildren]: reading and assigning [children] and [attributes]. *)
Class HasChildren (T : Type) : Type := {
  md_of : T → MDNode;
  children_of : T → list ASTNode;
  set_children : T → list ASTNode → T;
  set_attributes : T → gmap string string → T
}.

Definition with_attributes (m : MDNode) (a : gmap string string) : MDNode :=
  {| md_name := md_name m; md_from := md_from m; md_to := md_to m;
     md_attributes := Some a |}.

#[global] Instance FootnoteRef_children : HasChildren FootnoteRef := {|
  md_of := footnoteref_md;
  children_of := footnoteref_children;
  set_children n cs :=
    {| footnoteref_md := footnoteref_md n; footnoteref_label := footnoteref_label n;
       footnoteref_children := cs |};
  set_attributes n a :=
    {| footnoteref_md := with_attributes (footnoteref_md n) a;
       footnoteref_label := footnoteref_label n;
       footnoteref_children := footnoteref_children n |}
|}.

#[global] Instance Highlight_children : HasChildren Highlight := {|
  md_of := highlight_md;
  children_of := highlight_children;
  set_children n cs := {| highlight_md := highlight_md n; highlight_children := cs |};
  set_attributes n a :=
    {| highlight_md := with_attributes (highlight_md n) a;
       highlight_children := highlight_children n |}
|}.

#[global] Instance ListItem_children : HasChildren ListItem := {|
  md_of := item_md;
  children_of := item_children;
  set_children n cs :=
    {| item_md := item_md n; checked := checked n; marker := marker n;
       item_children := cs |};
  set_attributes n a :=
    {| item_md := with_attributes (item_md n) a; checked := checked n;
       marker := marker n; item_children := item_children n |}
|}.

#[global] Instance Emphasis_children : HasChildren Emphasis := {|
  md_of := emphasis_md;
  children_of := emphasis_children;
  set_children n cs :=
    {| emphasis_md := emphasis_md n; which := which n; emphasis_children := cs |};
  set_attributes n a :=
    {| emphasis_md := with_attributes (emphasis_md n) a; which := which n;
       emphasis_children := emphasis_children n |}
|}.

#[global] Instance TableCell_children : HasChildren TableCell := {|
  md_of := cell_md;
  children_of := cell_children;
  set_children n cs := {| cell_md := cell_md n; cell_children := cs |};
  set_attributes n a :=
    {| cell_md := with_attributes (cell_md n) a; cell_children := cell_children n |}
|}.

#[global] Instance GenericNode_children : HasChildren GenericNode := {|
  md_of := generic_md;
  children_of := generic_children;
  set_children n cs := {| generic_md := generic_md n; generic_children := cs |};
  set_attributes n a :=
    {| generic_md := with_attributes (generic_md n) a;
       generic_children := generic_children n |}
|}.

(** [astNode.children.push(child)] *)
Definition push_child {T : Type} `{HasChildren T} (astNode : T) (child : ASTNode) : T :=
  set_children astNode (children_of astNode ++ [child]).


(** What assigning [children] and [attributes] does to a node. *)
Class HasChildrenLaws (T : Type) `{HasChildren T} : Prop := {
  children_of_set_children (a : T) cs : children_of (set_children a cs) = cs;
  children_of_set_attributes (a : T) m :
    children_of (set_attributes a m) = children_of a;
  md_of_set_children (a : T) cs : md_of (set_children a cs) = md_of a;
  md_of_set_attributes (a : T) m :
    md_of (set_attributes a m) = with_attributes (md_of a) m
}.

(** ** The converter *)

(** Names of the nodes that have no content of their own: formatting marks
    and container nodes. *)
Definition EMPTY_NODES : list string := [
  "HeaderMark";
  "CodeMark";
  "EmphasisMark";
  "QuoteMark";
  "ListMark";
  "YAMLFrontmatterStart";
  "YAMLFrontmatterEnd";
  "Document";
  "List";
  "ListItem";
  "PandocAttribute"
].

Definition genericTextNode (from to : Z) (value : string) : TextNode :=
  {| text_md := mdNode "text" from to; value := value |}.

(** [key in object] *)
Definition hasProperty (key : string) (object : gmap string string) : bool :=
  match object !! key with Some _ => true | None => false end.

(** [object[key] = value] on a plain object. Every key becomes a property
    of the object but [__proto__]: that one is an accessor of
    [Object.prototype], whose setter changes the prototype for an object or
    [null] and does nothing for a string, so the object keeps the properties
    it has. *)
Definition setProperty (key value : string) (object : gmap string string)
  : gmap string string :=
  if String.eqb key "__proto__" then object else <[key := value]> object.

(** The body of the loop of [parseAttributeNode]: one raw attribute. *)
Definition parseAttribute (oldAttributes : gmap string string) (attribute : string)
  : gmap string string :=
  if JS.startsWith attribute "." then
    match oldAttributes !! "class" with
    | Some class => <["class" := class +:+ " " +:+ JS.substringFrom attribute 1]> oldAttributes
    | None => <["class" := JS.substringFrom attribute 1]> oldAttributes
    end
  else if JS.startsWith attribute "#" && negb (hasProperty "id" oldAttributes) then
    <["id" := JS.substringFrom attribute 1]> oldAttributes
  else if JS.includes attribute "=" then
    match JS.split "=" attribute with
    | [key; val] => setProperty key val oldAttributes
    | _ => oldAttributes
    end
  else oldAttributes.

(** [parseAttributeNode]; the parameter [oldAttributes] defaults to the
    empty object when the caller passes [undefined]. *)
Definition parseAttributeNode (oldAttributes : option (gmap string string))
    (node : SyntaxNode) (markdown : string) : gmap string string :=
  let oldAttributes := default ∅ oldAttributes in
  if negb (String.eqb (name node) "PandocAttribute") then oldAttributes
  else
    let rawString := JS.substring markdown (from node + 1) (to node - 1) in
    let rawAttributes := JS.splitWhiteSpace rawString in
    fold_left parseAttribute rawAttributes oldAttributes.

Section Children.

Context {T : Type} `{HasChildren T}.

(** The converter itself, for the calls on the sub-nodes. *)
Variable parseNode : SyntaxNode → string → Outcome ASTNode.

(** The [while] loop of [parseChildren]: [siblings] is [currentChild]
    with the siblings after it; the result carries [currentIndex]. *)
Fixpoint parseChildren_loop (node : SyntaxNode) (markdown : string)
    (siblings : list SyntaxNode) (astNode : T) (currentIndex : Z)
  : Outcome (T * Z) :=
  match siblings with
  | [] => mret (astNode, currentIndex)
  | currentChild :: nextSiblings =>
      let astNode :=
        if (currentIndex <? from currentChild)
           && negb (JS.Array_includes EMPTY_NODES (name node)) then
          let gap := JS.substring markdown currentIndex (from currentChild) in
          let textNode := genericTextNode currentIndex (from currentChild) gap in
          push_child astNode (NText textNode)
        else astNode in
      astNode ←
        (if String.eqb (name currentChild) "PandocAttribute" then
           mret (set_attributes astNode
                   (parseAttributeNode (md_attributes (md_of astNode)) currentChild markdown))
         else
           child ← parseNode currentChild markdown;
           mret (push_child astNode child));
      parseChildren_loop node markdown nextSiblings astNode (to currentChild)
  end.

Definition parseChildren (astNode : T) (node : SyntaxNode) (markdown : string)
  : Outcome T :=
  match children node with
  | [] =>
      if negb (JS.Array_includes EMPTY_NODES (name node)) then
        let textNode :=
          genericTextNode (from node) (to node)
            (JS.substring markdown (from node) (to node)) in
        mret (set_children astNode [NText textNode])
      else mret astNode
  | firstChild :: _ =>
      let astNode := set_children astNode [] in
      '(astNode, currentIndex) ←
        parseChildren_loop node markdown (children node) astNode (from node);
      if (currentIndex <? to node)
         && negb (JS.Array_includes EMPTY_NODES (name node)) then
        let textNode :=
          genericTextNode currentIndex (to node)
            (JS.substring markdown currentIndex (to node)) in
        mret (push_child astNode (NText textNode))
      else mret astNode
  end.

End Children.

(** [astNode.alt = alt] *)
Definition set_alt (astNode : LinkOrImage) (alt : TextNode) : LinkOrImage :=
  {| link_type := link_type astNode; link_md := link_md astNode;
     url := url astNode; alt := alt; title := title astNode |}.

(** The [case] labels of the [switch] of [parseNode]. *)
Inductive Case : Type :=
| CaseLinkOrImage | CaseURL | CaseATXHeading | CaseSetextHeading
| CaseCitation | CaseFootnote | CaseFootnoteRef | CaseHighlight | CaseList
| CaseCode | CaseInlineCode | CaseEmphasis | CaseTable | CaseZknLink
| CaseZknTag | CaseDefault.

Definition switch (name : string) : Case :=
  let case := String.eqb name in
  if case "Image" || case "Link" then CaseLinkOrImage
  else if case "URL" then CaseURL
  else if case "ATXHeading1" || case "ATXHeading2" || case "ATXHeading3"
          || case "ATXHeading4" || case "ATXHeading5" || case "ATXHeading6"
       then CaseATXHeading
  else if case "SetextHeading1" || case "SetextHeading2" then CaseSetextHeading
  else if case "Citation" then CaseCitation
  else if case "Footnote" then CaseFootnote
  else if case "FootnoteRef" then CaseFootnoteRef
  else if case "Highlight" then CaseHighlight
  else if case "OrderedList" || case "BulletList" then CaseList
  else if case "FencedCode" || case "CodeBlock" then CaseCode
  else if case "InlineCode" then CaseInlineCode
  else if case "Emphasis" || case "StrongEmphasis" then CaseEmphasis
  else if case "Table" then CaseTable
  else if case "ZknLink" then CaseZknLink
  else if case "ZknTag" then CaseZknTag
  else CaseDefault.

(** The verbatim source text of a sub-node. *)
Definition textOf (markdown : string) (node : SyntaxNode) : string :=
  JS.substring markdown (from node) (to node).

(** The body of [parseNode]; [parseNode] itself is the converter for the
    recursive calls, which all go through [parseChildren]. *)
Definition parseNode_body (parseNode : SyntaxNode → string → Outcome ASTNode)
    (node : SyntaxNode) (markdown : string) : Outcome ASTNode :=
  match switch (name node) with
  | CaseLinkOrImage =>
      let alt := getChild node "LinkLabel" in
      let url := getChild node "URL" in
      match url with
      | None =>
          mret (NGeneric {|
            generic_md := mdNode (name node) (from node) (to node);
            generic_children :=
              [NText (genericTextNode (from node) (to node)
                        (JS.substring markdown (from node) (to node)))]
          |})
      | Some url =>
          let astNode : LinkOrImage := {|
            link_type := if String.eqb (name node) "Image" then Image else Link;
            link_md := mdNode (name node) (from node) (to node);
            url := genericTextNode (from url) (to url)
                     (JS.substring markdown (from url) (to url));
            alt := genericTextNode (from url) (to url)
                     (JS.substring markdown (from url) (to url));
            title := None
          |} in
          let marks := getChildren node "LinkMark" in
          match alt, marks with
          | None, mark0 :: mark1 :: _ =>
              mret (NLinkOrImage (set_alt astNode
                (genericTextNode (to mark0) (from mark1)
                   (JS.substring markdown (to mark0) (from mark1)))))
          | _, _ => mret (NLinkOrImage astNode)
          end
      end
  | CaseURL =>
      mret (NLinkOrImage {|
        link_type := Link;
        link_md := mdNode (name node) (from node) (to node);
        url := genericTextNode (from node) (to node)
                 (JS.substring markdown (from node) (to node));
        alt := genericTextNode (from node) (to node)
                 (JS.substring markdown (from node) (to node));
        title := None
      |})
  | CaseATXHeading =>
      let mark := getChild node "HeaderMark" in
      let level := match mark with Some mark => to mark - from mark | None => 0 end in
      let start := match mark with Some mark => to mark | None => from node end in
      mret (NHeading {|
        heading_md := mdNode (name node) (from node) (to node);
        heading_value :=
          genericTextNode start (to node)
            (JS.trim (JS.substring markdown start (to node)));
        level := level
      |})
  | CaseSetextHeading =>
      let mark := getChild node "HeaderMark" in
      let level :=
        match mark with
        | Some mark =>
            if JS.includes (JS.substring markdown (from mark) (to mark)) "-"
            then 2 else 1
        | None => 1
        end in
      mret (NHeading {|
        heading_md := mdNode (name node) (from node) (to node);
        heading_value :=
          genericTextNode
            (match mark with Some mark => to mark | None => from node end)
            (to node)
            (JS.trim (JS.substring markdown (from node)
                        (match mark with Some mark => from mark | None => to node end)));
        level := level
      |})
  | CaseCitation =>
      mret (NCitation {|
        citation_md := mdNode "Citation" (from node) (to node);
        citation_value :=
          genericTextNode (from node) (to node)
            (JS.substring markdown (from node) (to node));
        parsedCitation :=
          head (extractCitations (JS.substring markdown (from node) (to node)))
      |})
  | CaseFootnote =>
      let contents := JS.substring markdown (from node + 2) (to node - 1) in
      mret (NFootnote {|
        footnote_md := mdNode "Footnote" (from node) (to node);
        inline := JS.endsWith contents "^";
        footnote_label :=
          if JS.endsWith contents "^"
          then JS.substring contents 0 (Z.of_nat (String.length contents) - 1)
          else contents
      |})
  | CaseFootnoteRef =>
      let label := getChild node "FootnoteRefLabel" in
      let body := getChild node "FootnoteRefBody" in
      let astNode : FootnoteRef := {|
        footnoteref_md := mdNode "FootnoteRef" (from node) (to node);
        footnoteref_label :=
          match label with
          | Some label => JS.substring markdown (from label + 2) (to label - 2)
          | None => ""
          end;
        footnoteref_children := []
      |} in
      match body with
      | Some body => NFootnoteRef <$> parseChildren parseNode astNode body markdown
      | None => mret (NFootnoteRef astNode)
      end
  | CaseHighlight =>
      let content := getChild node "HighlightContent" in
      let astNode : Highlight := {|
        highlight_md := mdNode "Highlight" (from node) (to node);
        highlight_children := []
      |} in
      NHighlight <$> parseChildren parseNode astNode (default node content) markdown
  | CaseList =>
      let ordered := String.eqb (name node) "OrderedList" in
      items ← forOf (fun item =>
        let listMark := getChild item "ListMark" in
        let marker :=
          match listMark with
          | Some listMark => {|
              symbol :=
                if negb ordered && (to listMark - from listMark =? 1)
                then Some (JS.substring markdown (from listMark) (to listMark))
                else None;
              marker_from := from listMark;
              marker_to := to listMark
            |}
          | None => {| symbol := None; marker_from := from item; marker_to := from item |}
          end in
        let task := getChild item "Task" in
        let taskMarker :=
          match task with
          | Some task => getChild task "TaskMarker"
          | None => None
          end in
        let checked :=
          match taskMarker with
          | Some taskMarker =>
              let text := JS.substring markdown (from taskMarker) (to taskMarker) in
              Some (String.eqb text "[x]")
          | None => None
          end in
        let listItem : ListItem := {|
          item_md := mdNode "ListItem" (from item) (to item);
          checked := checked;
          marker := marker;
          item_children := []
        |} in
        parseChildren parseNode listItem item markdown) (getChildren node "ListItem");
      mret (NList {|
        list_md := mdNode (name node) (from node) (to node);
        ordered := ordered;
        items := items
      |})
  | CaseCode =>
      let info := getChild node "CodeInfo" in
      let mark := getChild node "CodeMark" in
      let info :=
        match mark with
        | Some mark =>
            let codeMark := JS.substring markdown (from mark) (to mark) in
            if String.eqb codeMark "$$" then Some mark else info
        | None => info
        end in
      let source := getChild node "CodeText" in
      let isFrontmatter :=
        match getChild node "YAMLFrontmatterStart" with
        | Some _ => true
        | None => false
        end in
      let astNode : CodeBlock := {|
        code_md :=
          mdNode (if isFrontmatter then "YAMLFrontmatter" else "FencedCode")
            (from node) (to node);
        info :=
          match info with
          | Some info => JS.substring markdown (from info) (to info)
          | None => ""
          end;
        source :=
          match source with
          | Some source => JS.substring markdown (from source) (to source)
          | None => ""
          end
      |} in
      mret (if isFrontmatter then NYAMLFrontmatter astNode else NFencedCode astNode)
  | CaseInlineCode =>
      match getChildren node "CodeMark" with
      | start :: end_ :: _ =>
          mret (NInlineCode {|
            inline_md := mdNode "InlineCode" (from node) (to node);
            inline_source := JS.substring markdown (to start) (from end_)
          |})
      | [] =>
          Thrown (TypeError "Cannot read properties of undefined (reading 'to')")
      | [_] =>
          Thrown (TypeError "Cannot read properties of undefined (reading 'from')")
      end
  | CaseEmphasis =>
      let astNode : Emphasis := {|
        emphasis_md := mdNode "Emphasis" (from node) (to node);
        which := if String.eqb (name node) "Emphasis" then italic else bold;
        emphasis_children := []
      |} in
      NEmphasis <$> parseChildren parseNode astNode node markdown
  | CaseTable =>
      let header := getChildren node "TableHeader" in
      let rows := getChildren node "TableRow" in
      rows ← forOf (fun row =>
        cells ← forOf (fun cell =>
          let cellNode : TableCell := {|
            cell_md := mdNode "TableCell" (from cell) (to cell);
            cell_children := []
          |} in
          parseChildren parseNode cellNode cell markdown) (getChildren row "TableCell");
        mret {|
          row_md := mdNode (name row) (from row) (to row);
          isHeaderOrFooter := String.eqb (name row) "TableHeader";
          cells := cells
        |}) (header ++ rows);
      mret (NTable {|
        table_md := mdNode "Table" (from node) (to node);
        rows := rows
      |})
  | CaseZknLink =>
      let content := getChild node "ZknLinkContent" in
      match content with
      | None =>
          Thrown (Error "Could not parse node ZknLink: No ZknLinkContent node found within children!")
      | Some content =>
          mret (NZettelkastenLink {|
            zknlink_md := mdNode "ZknLink" (from node) (to node);
            zknlink_value :=
              genericTextNode (from content) (to content)
                (JS.substring markdown (from content) (to content))
          |})
      end
  | CaseZknTag =>
      mret (NZettelkastenTag {|
        zkntag_md := mdNode "ZknTag" (from node) (to node);
        zkntag_value :=
          genericTextNode (from node) (to node)
            (JS.substring markdown (from node) (to node))
      |})
  | CaseDefault =>
      let astNode : GenericNode := {|
        generic_md := mdNode (name node) (from node) (to node);
        generic_children := []
      |} in
      NGeneric <$> parseChildren parseNode astNode node markdown
  end.

(** [parseNode] with a bound on the depth of the recursion. *)
Fixpoint parseNode_fuel (fuel : nat) (node : SyntaxNode) (markdown : string)
  : Outcome ASTNode :=
  match fuel with
  | O => OutOfFuel
  | S fuel => parseNode_body (parseNode_fuel fuel) node markdown
  end.

(** Parses a single Lezer style [SyntaxNode] to an [ASTNode]: the recursion
    descends one level of the tree per call, so the height of the node is
    fuel enough (see [parseNode_unfold] and [parseNode_terminates]). *)
Definition parseNode (node : SyntaxNode) (markdown : string) : Outcome ASTNode :=
  parseNode_fuel (height node) node markdown.

(** ** Example documents *)

(** A citation extractor that finds nothing. *)
Definition noCitations (code : string) : list unit := [].

(** A node without sub-nodes. *)
Definition leaf (name : string) (from to : Z) : SyntaxNode := mkNode name from to [].

(** A line feed. *)
Definition LF : string := String "010" EmptyString.

(** The heading [# a]. *)
Definition heading1 : SyntaxNode :=
  mkNode "ATXHeading1" 0 3 [leaf "HeaderMark" 0 1].

(** The same malformed link inside the line [see [a] here]. *)
Definition linkInText : SyntaxNode :=
  mkNode "Link" 4 7 [leaf "LinkMark" 4 5; leaf "LinkMark" 6 7].

(** The malformed link [[a]]: two marks and no URL. *)
Definition linkWithoutUrl : SyntaxNode :=
  mkNode "Link" 0 3 [leaf "LinkMark" 0 1; leaf "LinkMark" 2 3].

(** The names of the ATX and of the Setext heading nodes. *)
Definition atxHeadings : list string :=
  ["ATXHeading1"; "ATXHeading2"; "ATXHeading3";
   "ATXHeading4"; "ATXHeading5"; "ATXHeading6"].

Definition setextHeadings : list string := ["SetextHeading1"; "SetextHeading2"].

(** The heading [# a], [## a], ... with [n] marks, and its syntax node. *)
Fixpoint hashes (n : nat) : string :=
  match n with
  | O => EmptyString
  | S n => String "#" (hashes n)
  end.

Definition atxSource (n : nat) : string := hashes n +:+ " a".

Definition atxHeading (n : nat) : SyntaxNode :=
  mkNode ("ATXHeading" +:+ String (ascii_of_nat (48 + n)) EmptyString)
    0 (Z.of_nat n + 2) [leaf "HeaderMark" 0 (Z.of_nat n)].

(** The Setext headings [a] underlined with [---] and with [===]. *)
Definition setextDashes : string := "a" +:+ LF +:+ "---".
Definition setextEquals : string := "a" +:+ LF +:+ "===".

Definition setextHeading (level : string) : SyntaxNode :=
  mkNode ("SetextHeading" +:+ level) 0 5 [leaf "HeaderMark" 2 5].

(** A Setext heading node without its [HeaderMark], over the text [ a ]. *)
Definition setextWithoutMark : SyntaxNode := leaf "SetextHeading1" 0 3.

(** A fence with the info string [python], and a math fence. *)
Definition pythonSource : string := "```python" +:+ LF +:+ "x = 1" +:+ LF +:+ "```".

Definition pythonFence : SyntaxNode :=
  mkNode "FencedCode" 0 19
    [leaf "CodeMark" 0 3; leaf "CodeInfo" 3 9; leaf "CodeText" 10 15;
     leaf "CodeMark" 16 19].

Definition mathSource : string := "$$" +:+ LF +:+ "x^2" +:+ LF +:+ "$$".

Definition mathFence : SyntaxNode :=
  mkNode "FencedCode" 0 9
    [leaf "CodeMark" 0 2; leaf "CodeText" 3 6; leaf "CodeMark" 7 9].

(** ** Which nodes the conversion reaches, and where it throws *)

(** The nodes whose sub-nodes [parseNode] hands to [parseChildren] when it
    converts [node]. *)
Definition aggregated (node : SyntaxNode) : list SyntaxNode :=
  match switch (name node) with
  | CaseFootnoteRef =>
      match getChild node "FootnoteRefBody" with
      | Some body => [body]
      | None => []
      end
  | CaseHighlight => [default node (getChild node "HighlightContent")]
  | CaseList => getChildren node "ListItem"
  | CaseTable =>
      flat_map (fun row => getChildren row "TableCell")
        (getChildren node "TableHeader" ++ getChildren node "TableRow")
  | CaseEmphasis | CaseDefault => [node]
  | _ => []
  end.

(** [reaches node d]: converting [node] calls [parseNode] on [d], unless an
    exception stops the conversion before. *)
Inductive reaches : SyntaxNode → SyntaxNode → Prop :=
| reaches_self (node : SyntaxNode) : reaches node node
| reaches_sub (node x c d : SyntaxNode) :
    In x (aggregated node) →
    In c (children x) →
    name c ≠ "PandocAttribute" →
    reaches c d →
    reaches node d.

(** The nodes on which [parseNode] throws by itself: a [ZknLink] without a
    [ZknLinkContent] child, and an [InlineCode] with fewer than two
    [CodeMark] children. *)
Definition throwsAt (node : SyntaxNode) : bool :=
  match switch (name node) with
  | CaseZknLink =>
      match getChild node "ZknLinkContent" with
      | Some _ => false
      | None => true
      end
  | CaseInlineCode =>
      match getChildren node "CodeMark" with
      | _ :: _ :: _ => false
      | _ => true
      end
  | _ => false
  end.

Definition throws {A : Type} (o : Outcome A) : Prop := ∃ e, o = Thrown e.

(** The inline code [`a`] as a node without its two [CodeMark] children. *)
Definition inlineCodeWithoutMarks : SyntaxNode := leaf "InlineCode" 0 3.

(** The link [[foo](bar)] with the link text in a [LinkLabel] child. *)
Definition labelledLink : SyntaxNode :=
  mkNode "Link" 0 10
    [leaf "LinkMark" 0 1; leaf "LinkLabel" 1 4; leaf "LinkMark" 4 5;
     leaf "LinkMark" 5 6; leaf "URL" 6 9; leaf "LinkMark" 9 10].

(** The [TaskMarker] of the [Task] sub-node of a list item, if there is one. *)
Definition taskMarkerOf (item : SyntaxNode) : option SyntaxNode :=
  match getChild item "Task" with
  | Some task => getChild task "TaskMarker"
  | None => None
  end.

(** The list [- [x] done], [- [ ] todo], [- plain]. *)
Definition taskListSource : string :=
  "- [x] done" +:+ LF +:+ "- [ ] todo" +:+ LF +:+ "- plain".

Definition taskList : SyntaxNode :=
  mkNode "BulletList" 0 29
    [mkNode "ListItem" 0 10
       [leaf "ListMark" 0 1; mkNode "Task" 2 10 [leaf "TaskMarker" 2 5]];
     mkNode "ListItem" 11 21
       [leaf "ListMark" 11 12; mkNode "Task" 13 21 [leaf "TaskMarker" 13 16]];
     mkNode "ListItem" 22 29
       [leaf "ListMark" 22 23; leaf "Paragraph" 24 29]].

(** ** Ranges and tilings *)

Definition rangeOf (astNode : ASTNode) : Z * Z :=
  (md_from (base astNode), md_to (base astNode)).

Definition spanOf (node : SyntaxNode) : Z * Z := (from node, to node).

(** [tiles start ranges stop]: the ranges, in this order, cover
    [[start, stop)] with no gap and no overlap. *)
Fixpoint tiles (start : Z) (ranges : list (Z * Z)) (stop : Z) : Prop :=
  match ranges with
  | [] => start = stop
  | (a, b) :: rest => a = start ∧ a ≤ b ∧ tiles b rest stop
  end.

(** [wellNested start siblings stop]: the sibling nodes lie in document
    order inside [[start, stop)] and do not overlap, as in a syntax tree. *)
Fixpoint wellNested (start : Z) (siblings : list SyntaxNode) (stop : Z) : Prop :=
  match siblings with
  | [] => start ≤ stop
  | c :: rest => start ≤ from c ∧ from c ≤ to c ∧ wellNested (to c) rest stop
  end.

(** The paragraph [{.a #one key=1} ... {.b #two key=2}] with its two Pandoc
    attribute blocks. *)
Definition attributedSource : string := "{.a #one key=1} ... {.b #two key=2}".

Definition attributedParagraph : SyntaxNode :=
  mkNode "Paragraph" 0 35 [leaf "PandocAttribute" 0 15; leaf "PandocAttribute" 20 35].

(** ** Text nodes and the source text *)

(** The string of a Text node is the source text of its own range. *)
Definition verbatim (markdown : string) (t : TextNode) : Prop :=
  value t = JS.substring markdown (md_from (text_md t)) (md_to (text_md t)).

(** The string of a Text node is the trimmed source text of its own range. *)
Definition trimmed (markdown : string) (t : TextNode) : Prop :=
  value t = JS.trim (JS.substring markdown (md_from (text_md t)) (md_to (text_md t))).

(** The string of the [value] of a Setext heading is trimmed source text
    that starts where the heading starts, and the [value] ends where the
    heading ends. *)
Definition fromHeadingStart (markdown : string) (n : Heading) : Prop :=
  md_to (text_md (heading_value n)) = md_to (heading_md n)
  ∧ ∃ stop, value (heading_value n)
            = JS.trim (JS.substring markdown (md_from (heading_md n)) stop).

(** Every Text node in the tree that is not the [value] of a heading holds
    the source text of its own range. The [value] of an ATX heading holds
    that text trimmed; the one of a Setext heading holds trimmed text from
    the start of the heading (see [fromHeadingStart]). *)
Fixpoint textsFaithful (markdown : string) (astNode : ASTNode) : Prop :=
  let all :=
    fix all (l : list ASTNode) : Prop :=
      match l with
      | [] => True
      | child :: rest => textsFaithful markdown child ∧ all rest
      end in
  let allCells :=
    fix allCells (l : list TableCell) : Prop :=
      match l with
      | [] => True
      | cell :: rest => all (cell_children cell) ∧ allCells rest
      end in
  match astNode with
  | NText n => verbatim markdown n
  | NLinkOrImage n =>
      verbatim markdown (url n) ∧ verbatim markdown (alt n)
      ∧ match title n with Some t => verbatim markdown t | None => True end
  | NHeading n =>
      match switch (md_name (heading_md n)) with
      | CaseSetextHeading => fromHeadingStart markdown n
      | _ => trimmed markdown (heading_value n)
      end
  | NCitation n => verbatim markdown (citation_value n)
  | NZettelkastenLink n => verbatim markdown (zknlink_value n)
  | NZettelkastenTag n => verbatim markdown (zkntag_value n)
  | NFootnote _ | NFencedCode _ | NInlineCode _ | NYAMLFrontmatter _ => True
  | NFootnoteRef n => all (footnoteref_children n)
  | NHighlight n => all (highlight_children n)
  | NListItem n => all (item_children n)
  | NGeneric n => all (generic_children n)
  | NEmphasis n => all (emphasis_children n)
  | NTableCell n => all (cell_children n)
  | NTableRow n => allCells (cells n)
  | NList n =>
      (fix allItems (l : list ListItem) : Prop :=
         match l with
         | [] => True
         | item :: rest => all (item_children item) ∧ allItems rest
         end) (items n)
  | NTable n =>
      (fix allRows (l : list TableRow) : Prop :=
         match l with
         | [] => True
         | row :: rest => allCells (cells row) ∧ allRows rest
         end) (rows n)
  end.

(** ** Pandoc attributes: entries and their merge *)

(** The three kinds of entries of an attribute block
    [{#identifier .class key=value}]. *)
Inductive AttributeEntry : Type :=
| ClassEntry (class : string)
| IdEntry (id : string)
| KeyValueEntry (key value : string).

(** An entry as it is written in the block. *)
Definition rawAttribute (entry : AttributeEntry) : string :=
  match entry with
  | ClassEntry class => "." +:+ class
  | IdEntry id => "#" +:+ id
  | KeyValueEntry key value => key +:+ "=" +:+ value
  end.

Fixpoint noWhiteSpace (s : string) : bool :=
  match s with
  | EmptyString => true
  | String c r => negb (JS.isWhiteSpace c) && noWhiteSpace r
  end.

(** A word: not empty, and without white space. *)
Definition isWord (w : string) : Prop := w ≠ EmptyString ∧ noWhiteSpace w = true.

(** An entry is well formed when it is one word and, for a key=value
    entry, the [=] between the key and the value is its only one and the
    key starts with neither [.] nor [#]: an entry that starts with one of
    these is a class or an identifier. A class and an identifier may hold
    any code unit but white space, [=] included. *)
Definition wellFormedEntry (entry : AttributeEntry) : Prop :=
  noWhiteSpace (rawAttribute entry) = true
  ∧ match entry with
    | ClassEntry _ | IdEntry _ => True
    | KeyValueEntry key value =>
        JS.includes key "=" = false ∧ JS.includes value "=" = false
        ∧ JS.startsWith key "." = false ∧ JS.startsWith key "#" = false
    end.

(** The merge of one entry, in the words of the specification: a class
    is added to [class] after one space; an identifier sets [id] when there
    is none yet; a key=value entry overrides, whatever its key, [class] and
    [id] included. Two cases that these words leave open are written out:
    an identifier that comes when [id] is set and that reads [key=value] is
    kept as the key=value entry of the key [#key], and the key [__proto__]
    is never kept. *)
Definition mergeEntry (attributes : gmap string string) (entry : AttributeEntry)
  : gmap string string :=
  match entry with
  | ClassEntry class =>
      match attributes !! "class" with
      | Some classes => <["class" := classes +:+ " " +:+ class]> attributes
      | None => <["class" := class]> attributes
      end
  | IdEntry id =>
      match attributes !! "id" with
      | Some _ =>
          match JS.split "=" id with
          | [key; value] => <["#" +:+ key := value]> attributes
          | _ => attributes
          end
      | None => <["id" := id]> attributes
      end
  | KeyValueEntry key value =>
      if String.eqb key "__proto__" then attributes
      else <[key := value]> attributes
  end.

(** The merge of one attribute block onto the attributes so far, as
    [parseChildren] does it for each [PandocAttribute] sub-node. *)
Definition mergeBlock (markdown : string) (attributes : option (gmap string string))
    (block : SyntaxNode) : option (gmap string string) :=
  Some (parseAttributeNode attributes block markdown).

(** The words of a block, separated by single spaces. *)
Fixpoint unwords (words : list string) : string :=
  match words with
  | [] => EmptyString
  | [w] => w
  | w :: rest => w +:+ " " +:+ unwords rest
  end.

(** The classes, the identifiers and the values of a key, in the order of
    their occurrence. *)
Definition classesOf (entries : list AttributeEntry) : list string :=
  flat_map (fun entry => match entry with ClassEntry class => [class] | _ => [] end) entries.

Definition idsOf (entries : list AttributeEntry) : list string :=
  flat_map (fun entry => match entry with IdEntry id => [id] | _ => [] end) entries.

Definition valuesOf (key : string) (entries : list AttributeEntry) : list string :=
  flat_map (fun entry =>
              match entry with
              | KeyValueEntry key' value => if String.eqb key' key then [value] else []
              | _ => []
              end) entries.

(** The classes joined by single spaces; no [class] without a class. *)
Definition joined (classes : list string) : option string :=
  match classes with
  | [] => None
  | class :: rest => Some (fold_left (fun acc c => acc +:+ " " +:+ c) rest class)
  end.

(** A paragraph that is one attribute block, over its whole source text. *)
Definition blockParagraph (source : string) : SyntaxNode :=
  let stop := Z.of_nat (String.length source) in
  mkNode "Paragraph" 0 stop [mkNode "PandocAttribute" 0 stop []].

(** The entries of the two blocks of [attributedParagraph]. *)
Definition attributedBlocks : list (list AttributeEntry) :=
  [[ClassEntry "a"; IdEntry "one"; KeyValueEntry "key" "1"];
   [ClassEntry "b"; IdEntry "two"; KeyValueEntry "key" "2"]].

(** ** The type tags and the kinds with a case of their own *)

(** The [type] property of a node. *)
Definition typeOf (astNode : ASTNode) : string :=
  match astNode with
  | NFootnote _ => "Footnote"
  | NFootnoteRef _ => "FootnoteRef"
  | NLinkOrImage n => match link_type n with Link => "Link" | Image => "Image" end
  | NText _ => "Text"
  | NHeading _ => "Heading"
  | NCitation _ => "Citation"
  | NHighlight _ => "Highlight"
  | NList _ => "List"
  | NListItem _ => "ListItem"
  | NGeneric _ => "Generic"
  | NFencedCode _ => "FencedCode"
  | NInlineCode _ => "InlineCode"
  | NYAMLFrontmatter _ => "YAMLFrontmatter"
  | NEmphasis _ => "Emphasis"
  | NTable _ => "Table"
  | NTableCell _ => "TableCell"
  | NTableRow _ => "TableRow"
  | NZettelkastenLink _ => "ZettelkastenLink"
  | NZettelkastenTag _ => "ZettelkastenTag"
  end.

Definition isText (astNode : ASTNode) : bool :=
  match astNode with
  | NText _ => true
  | _ => false
  end.

(** The node names that have a [case] label in [parseNode]. *)
Definition handledKinds : list string :=
  ["Image"; "Link"; "URL";
   "ATXHeading1"; "ATXHeading2"; "ATXHeading3";
   "ATXHeading4"; "ATXHeading5"; "ATXHeading6";
   "SetextHeading1"; "SetextHeading2";
   "Citation"; "Footnote"; "FootnoteRef"; "Highlight";
   "OrderedList"; "BulletList"; "FencedCode"; "CodeBlock"; "InlineCode";
   "Emphasis"; "StrongEmphasis"; "Table"; "ZknLink"; "ZknTag"].

(** The sub-nodes that [parseChildren] converts: all but the attribute blocks. *)
Definition convertedChildren (node : SyntaxNode) : list SyntaxNode :=
  List.filter (fun c => negb (String.eqb (name c) "PandocAttribute")) (children node).

(** A paragraph of an unknown kind with an emphasis inside: [a *b* c]. *)
Definition emphasisParagraph : SyntaxNode :=
  mkNode "Paragraph" 0 7
    [mkNode "Emphasis" 2 5 [leaf "EmphasisMark" 2 3; leaf "EmphasisMark" 4 5]].

(** ** White space only, and the occurrences of a code unit *)

Fixpoint allWhiteSpace (s : string) : bool :=
  match s with
  | EmptyString => true
  | String c r => JS.isWhiteSpace c && allWhiteSpace r
  end.

Definition occurrences (c : ascii) (s : string) : nat :=
  count_occ ascii_dec (list_ascii_of_string s) c.

(** The paragraph [a {} b] with an empty attribute block. *)
Definition emptyBlockParagraph : SyntaxNode :=
  mkNode "Paragraph" 0 6 [leaf "PandocAttribute" 2 4].

(** ** White space at the ends of a string *)

Definition startsWithWhiteSpace (s : string) : bool :=
  match s with
  | EmptyString => false
  | String c _ => JS.isWhiteSpace c
  end.

Fixpoint endsWithWhiteSpace (s : string) : bool :=
  match s with
  | EmptyString => false
  | String c EmptyString => JS.isWhiteSpace c
  | String _ r => endsWithWhiteSpace r
  end.

(** The footnote [[^1]] in [a[^1] b], and the inline code [`a==b`]. *)
Definition footnoteNode : SyntaxNode := leaf "Footnote" 1 5.

Definition inlineCodeNode : SyntaxNode :=
  mkNode "InlineCode" 0 6 [leaf "CodeMark" 0 1; leaf "CodeMark" 5 6].

(** The highlight [==a==] with its content, and a table with a header row
    and one body row. *)
Definition highlightNode : SyntaxNode :=
  mkNode "Highlight" 0 5 [leaf "HighlightContent" 2 3].

Definition tableSource : string := "|a|" +:+ LF +:+ "|-|" +:+ LF +:+ "|b|".

Definition tableNode : SyntaxNode :=
  mkNode "Table" 0 11
    [mkNode "TableRow" 8 11 [leaf "TableCell" 9 10];
     leaf "TableDelimiter" 4 7;
     mkNode "TableHeader" 0 3 [leaf "TableCell" 1 2]].

(** The strong emphasis [**b**]. *)
Definition strongEmphasis : SyntaxNode :=
  mkNode "StrongEmphasis" 0 5 [leaf "EmphasisMark" 0 2; leaf "EmphasisMark" 3 5].

(** The ordered list [1. a]. *)
Definition orderedList : SyntaxNode :=
  mkNode "OrderedList" 0 4
    [mkNode "ListItem" 0 4 [leaf "ListMark" 0 2; leaf "Paragraph" 3 4]].

(** A paragraph [*a* [[]] `b`] whose link has no [ZknLinkContent] and whose
    inline code has no [CodeMark]: two sub-nodes that cannot be converted. *)
Definition failingParagraph : SyntaxNode :=
  mkNode "Paragraph" 0 12
    [mkNode "Emphasis" 0 3 [leaf "EmphasisMark" 0 1; leaf "EmphasisMark" 2 3];
     leaf "PandocAttribute" 3 3;
     leaf "ZknLink" 4 8;
     leaf "InlineCode" 9 12].

(** ** The text a conversion reads *)

(** The least width of a node of this name for which the offsets that the
    converter adds to its ends stay inside it: [from + 2] and [to - 1] for
    a [Footnote], [from + 2] and [to - 2] for a [FootnoteRefLabel],
    [from + 1] and [to - 1] for a [PandocAttribute]. *)
Definition minWidth (name : string) : Z :=
  if String.eqb name "Footnote" || String.eqb name "FootnoteRefLabel" then 2
  else if String.eqb name "PandocAttribute" then 1
  else 0.

(** [inside lo hi node]: the node and every node below it has its range
    inside [[lo, hi]] and is at least [minWidth] wide. *)
Fixpoint inside (lo hi : Z) (node : SyntaxNode) : bool :=
  match node with
  | mkNode name from to cs =>
      (lo <=? from) && (from + minWidth name <=? to) && (to <=? hi)
      && (fix all (l : list SyntaxNode) : bool :=
            match l with
            | [] => true
            | c :: r => inside lo hi c && all r
            end) cs
  end.

(** Two documents with the same text between the offsets [lo] and [hi]. *)
Definition sameText (lo hi : Z) (markdown1 markdown2 : string) : Prop :=
  ∀ a b, lo ≤ a ≤ hi → lo ≤ b ≤ hi →
         JS.substring markdown1 a b = JS.substring markdown2 a b.

(** A footnote [a[^1]] at the end of two different documents. *)
Definition footnoteParagraph : SyntaxNode :=
  mkNode "Paragraph" 3 8 [leaf "Footnote" 4 8].

(** A paragraph that starts with an empty [PandocAttribute] node. *)
Definition emptyAttributeParagraph : SyntaxNode :=
  mkNode "Paragraph" 3 8 [leaf "PandocAttribute" 3 3].

(** The [id] attribute of a Generic result. *)
Definition idOf (result : Outcome ASTNode) : option string :=
  match result with
  | Returned (NGeneric g) =>
      match md_attributes (generic_md g) with
      | Some attributes => attributes !! "id"
      | None => None
      end
  | _ => None
  end.

(** * Properties *)

(** ** The syntax tree *)

Lemma height_child (node c : SyntaxNode) :
  In c (children node) → (height c < height node)%nat.
Proof.
  destruct node as [n f t cs]; simpl.
  induction cs as [|c' cs IH]; simpl; [tauto|].
  intros [->|Hin]; [lia|]. specialize (IH Hin). lia.
Qed.

Lemma height_pos (node : SyntaxNode) : (0 < height node)%nat.
Proof. destruct node; simpl; lia. Qed.

Lemma getChild_In (node c : SyntaxNode) (type : string) :
  getChild node type = Some c → In c (children node).
Proof. intros Hc. apply find_some in Hc. tauto. Qed.

Lemma getChild_name (node c : SyntaxNode) (type : string) :
  getChild node type = Some c → name c = type.
Proof. intros Hc. apply find_some in Hc. apply String.eqb_eq. tauto. Qed.

Lemma getChildren_In (node c : SyntaxNode) (type : string) :
  In c (getChildren node type) → In c (children node).
Proof. intros Hc. apply filter_In in Hc. tauto. Qed.

Lemma getChildren_name (node c : SyntaxNode) (type : string) :
  In c (getChildren node type) → name c = type.
Proof. intros Hc. apply filter_In in Hc. apply String.eqb_eq. tauto. Qed.

Lemma getChild_height (node c : SyntaxNode) (type : string) :
  getChild node type = Some c → (height c < height node)%nat.
Proof. intros Hc. eapply height_child, getChild_In, Hc. Qed.

Lemma getChildren_height (node c : SyntaxNode) (type : string) :
  In c (getChildren node type) → (height c < height node)%nat.
Proof. intros Hc. eapply height_child, getChildren_In, Hc. Qed.

(** ** Loops *)

Lemma forOf_ext {A B : Type} (f g : A → Outcome B) (l : list A) :
  (∀ x, In x l → f x = g x) → forOf f l = forOf g l.
Proof.
  induction l as [|x l IH]; simpl; intros Hfg; [reflexivity|].
  rewrite (Hfg x) by auto. rewrite IH by auto. reflexivity.
Qed.

Lemma forOf_Returned {A B : Type} (f : A → Outcome B) (l : list A) (ys : list B) :
  forOf f l = Returned ys ↔ Forall2 (fun x y => f x = Returned y) l ys.
Proof.
  revert ys. induction l as [|x l IH]; simpl; intros ys.
  - split.
    + intros [= <-]. constructor.
    + intros Hys. inversion Hys. reflexivity.
  - split.
    + destruct (f x) as [y| |] eqn:Hx; simpl; try discriminate.
      destruct (forOf f l) as [ys'| |] eqn:Hl; simpl; try discriminate.
      intros [= <-]. constructor; [assumption|]. apply IH. reflexivity.
    + intros Hys. inversion Hys as [|x' y l' ys' Hx Hl]; subst.
      rewrite Hx. simpl. apply IH in Hl. rewrite Hl. reflexivity.
Qed.

Lemma Forall2_Forall_out {A B : Type} (R : A → B → Prop) (Q : B → Prop)
    (l : list A) (k : list B) :
  Forall2 R l k → (∀ x y, In x l → R x y → Q y) → Forall Q k.
Proof.
  induction 1 as [|x y l k Hxy Hlk IH]; intros HQ; constructor.
  - apply (HQ x y); [left; reflexivity|exact Hxy].
  - apply IH. intros x' y' Hin. apply HQ. right. exact Hin.
Qed.

Lemma forOf_OutOfFuel {A B : Type} (f : A → Outcome B) (l : list A) :
  forOf f l = OutOfFuel → ∃ x, In x l ∧ f x = OutOfFuel.
Proof.
  induction l as [|x l IH]; simpl; [discriminate|].
  destruct (f x) as [y| |] eqn:Hx; simpl; try discriminate.
  - destruct (forOf f l) as [ys| |]; simpl; try discriminate.
    intros _. destruct IH as [x' [Hin Hx']]; [reflexivity|]. eauto.
  - intros _. eauto.
Qed.

(** ** [parseChildren] only calls the converter on the sub-nodes *)

Lemma parseChildren_loop_ext {T : Type} `{HasChildren T}
    (rec1 rec2 : SyntaxNode → string → Outcome ASTNode)
    (node : SyntaxNode) (markdown : string) (siblings : list SyntaxNode) :
  (∀ c, In c siblings → rec1 c markdown = rec2 c markdown) →
  ∀ (astNode : T) (currentIndex : Z),
    parseChildren_loop rec1 node markdown siblings astNode currentIndex
    = parseChildren_loop rec2 node markdown siblings astNode currentIndex.
Proof.
  induction siblings as [|c siblings IH]; simpl; intros Hrec astNode i; [reflexivity|].
  rewrite (Hrec c) by auto.
  destruct (String.eqb (name c) "PandocAttribute"); simpl.
  - apply IH. auto.
  - destruct (rec2 c markdown); simpl; try reflexivity. apply IH. auto.
Qed.

Lemma parseChildren_ext {T : Type} `{HasChildren T}
    (rec1 rec2 : SyntaxNode → string → Outcome ASTNode)
    (astNode : T) (node : SyntaxNode) (markdown : string) :
  (∀ c, In c (children node) → rec1 c markdown = rec2 c markdown) →
  parseChildren rec1 astNode node markdown = parseChildren rec2 astNode node markdown.
Proof.
  intros Hrec. unfold parseChildren.
  destruct (children node) as [|c cs] eqn:Hcs; [reflexivity|].
  rewrite (parseChildren_loop_ext rec1 rec2); [reflexivity|exact Hrec].
Qed.

(** The body of [parseNode] only calls the converter on nodes strictly
    below the node it converts. *)
Lemma parseNode_body_ext (rec1 rec2 : SyntaxNode → string → Outcome ASTNode)
    (node : SyntaxNode) (markdown : string) :
  (∀ c, (height c < height node)%nat → rec1 c markdown = rec2 c markdown) →
  parseNode_body rec1 node markdown = parseNode_body rec2 node markdown.
Proof.
  intros Hrec.
  assert (Hsub : ∀ x, (height x ≤ height node)%nat →
                 ∀ c, In c (children x) → rec1 c markdown = rec2 c markdown).
  { intros x Hx c Hc. apply Hrec. apply height_child in Hc. lia. }
  unfold parseNode_body. destruct (switch (name node)); try reflexivity.
  - (* FootnoteRef *)
    destruct (getChild node "FootnoteRefBody") as [body|] eqn:Hbody; [|reflexivity].
    f_equal. apply parseChildren_ext. apply Hsub.
    apply getChild_height in Hbody. lia.
  - (* Highlight *)
    f_equal. apply parseChildren_ext. apply Hsub.
    destruct (getChild node "HighlightContent") as [content|] eqn:Hcontent; simpl;
      [apply getChild_height in Hcontent|]; lia.
  - (* OrderedList, BulletList *)
    f_equal. apply forOf_ext. intros item Hitem.
    apply parseChildren_ext. apply Hsub.
    apply getChildren_height in Hitem. lia.
  - (* Emphasis, StrongEmphasis *)
    f_equal. apply parseChildren_ext. apply Hsub. lia.
  - (* Table *)
    f_equal. apply forOf_ext. intros row Hrow.
    f_equal. apply forOf_ext. intros cell Hcell.
    apply parseChildren_ext. apply Hsub.
    apply getChildren_height in Hcell.
    apply in_app_or in Hrow. destruct Hrow as [Hrow|Hrow];
      apply getChildren_height in Hrow; lia.
  - (* default *)
    f_equal. apply parseChildren_ext. apply Hsub. lia.
Qed.

(** ** Fuel: the height of the node is enough, and more changes nothing *)

Lemma parseNode_fuel_enough (fuel : nat) (node : SyntaxNode) (markdown : string) :
  (height node ≤ fuel)%nat →
  parseNode_fuel fuel node markdown = parseNode node markdown.
Proof.
  unfold parseNode. revert node.
  induction fuel as [fuel IH] using lt_wf_ind. intros node Hfuel.
  pose proof (height_pos node) as Hpos.
  destruct fuel as [|fuel]; [lia|].
  destruct (height node) as [|h] eqn:Hh; [lia|]. simpl.
  apply parseNode_body_ext. intros c Hc.
  rewrite (IH fuel) by lia. rewrite (IH h) by lia. reflexivity.
Qed.

(** The equation of [parseNode]: the function of the source. *)
Lemma parseNode_unfold (node : SyntaxNode) (markdown : string) :
  parseNode node markdown = parseNode_body parseNode node markdown.
Proof.
  unfold parseNode at 1.
  pose proof (height_pos node) as Hpos.
  destruct (height node) as [|h] eqn:Hh; [lia|]. simpl.
  apply parseNode_body_ext. intros c Hc.
  apply parseNode_fuel_enough. lia.
Qed.

(** ** Termination: the conversion never runs out of fuel *)

Lemma fmap_OutOfFuel {A B : Type} (f : A → B) (m : Outcome A) :
  f <$> m = OutOfFuel → m = OutOfFuel.
Proof. destruct m; simpl; intros Hm; try discriminate; reflexivity. Qed.

Lemma parseChildren_loop_OutOfFuel {T : Type} `{HasChildren T}
    (rec : SyntaxNode → string → Outcome ASTNode)
    (node : SyntaxNode) (markdown : string) (siblings : list SyntaxNode) :
  ∀ (astNode : T) (currentIndex : Z),
    parseChildren_loop rec node markdown siblings astNode currentIndex = OutOfFuel →
    ∃ c, In c siblings ∧ rec c markdown = OutOfFuel.
Proof.
  induction siblings as [|c siblings IH]; simpl; intros astNode i; [discriminate|].
  destruct (String.eqb (name c) "PandocAttribute"); simpl.
  - intros Hloop. apply IH in Hloop. destruct Hloop as [c' [Hin Hc']]. eauto.
  - destruct (rec c markdown) eqn:Hc; simpl; try discriminate.
    + intros Hloop. apply IH in Hloop. destruct Hloop as [c' [Hin Hc']]. eauto.
    + intros _. eauto.
Qed.

Lemma parseChildren_OutOfFuel {T : Type} `{HasChildren T}
    (rec : SyntaxNode → string → Outcome ASTNode)
    (astNode : T) (node : SyntaxNode) (markdown : string) :
  parseChildren rec astNode node markdown = OutOfFuel →
  ∃ c, In c (children node) ∧ rec c markdown = OutOfFuel.
Proof.
  unfold parseChildren. destruct (children node) as [|c cs] eqn:Hcs.
  - destruct (negb _); discriminate.
  - destruct (parseChildren_loop _ _ _ _ _ _) as [[a i]| |] eqn:Hloop; simpl.
    + destruct (_ && _); discriminate.
    + discriminate.
    + intros _. apply parseChildren_loop_OutOfFuel in Hloop. exact Hloop.
Qed.

Lemma parseNode_body_OutOfFuel (rec : SyntaxNode → string → Outcome ASTNode)
    (node : SyntaxNode) (markdown : string) :
  parseNode_body rec node markdown = OutOfFuel →
  ∃ c, (height c < height node)%nat ∧ rec c markdown = OutOfFuel.
Proof.
  assert (Hsub : ∀ (T : Type) (HT : HasChildren T) (astNode : T) x,
             (height x ≤ height node)%nat →
             parseChildren rec astNode x markdown = OutOfFuel →
             ∃ c, (height c < height node)%nat ∧ rec c markdown = OutOfFuel).
  { intros T HT astNode x Hx Hout. apply parseChildren_OutOfFuel in Hout.
    destruct Hout as [c [Hin Hc]]. exists c. split; [|exact Hc].
    apply height_child in Hin. lia. }
  unfold parseNode_body. destruct (switch (name node)).
  - destruct (getChild node "URL"); [|discriminate].
    destruct (getChild node "LinkLabel"); [discriminate|].
    destruct (getChildren node "LinkMark") as [|? [|? ?]]; discriminate.
  - discriminate.
  - discriminate.
  - discriminate.
  - discriminate.
  - discriminate.
  - destruct (getChild node "FootnoteRefBody") as [body|] eqn:Hbody; [|discriminate].
    intros Hout. apply fmap_OutOfFuel in Hout. apply Hsub in Hout; [exact Hout|].
    apply getChild_height in Hbody. lia.
  - intros Hout. apply fmap_OutOfFuel in Hout. apply Hsub in Hout; [exact Hout|].
    destruct (getChild node "HighlightContent") as [content|] eqn:Hcontent; simpl;
      [apply getChild_height in Hcontent|]; lia.
  - destruct (forOf _ _) as [items| |] eqn:Hitems; simpl; try discriminate.
    intros _. apply forOf_OutOfFuel in Hitems. destruct Hitems as [item [Hin Hout]].
    apply Hsub in Hout; [exact Hout|]. apply getChildren_height in Hin. lia.
  - destruct (getChild node "YAMLFrontmatterStart"); discriminate.
  - destruct (getChildren node "CodeMark") as [|? [|? ?]]; discriminate.
  - intros Hout. apply fmap_OutOfFuel in Hout. apply Hsub in Hout; [exact Hout|]. lia.
  - destruct (forOf _ _) as [rows| |] eqn:Hrows; simpl; try discriminate.
    intros _. apply forOf_OutOfFuel in Hrows. destruct Hrows as [row [Hrow Hout]].
    destruct (forOf _ (getChildren row "TableCell")) as [cells| |] eqn:Hcells;
      simpl in Hout; try discriminate.
    apply forOf_OutOfFuel in Hcells. destruct Hcells as [cell [Hcell Hout']].
    apply Hsub in Hout'; [exact Hout'|].
    apply getChildren_height in Hcell.
    apply in_app_or in Hrow. destruct Hrow as [Hrow|Hrow];
      apply getChildren_height in Hrow; lia.
  - destruct (getChild node "ZknLinkContent"); discriminate.
  - discriminate.
  - intros Hout. apply fmap_OutOfFuel in Hout. apply Hsub in Hout; [exact Hout|]. lia.
Qed.

(** [parseNode] is total: it returns a node or throws. *)
Lemma parseNode_terminates (node : SyntaxNode) (markdown : string) :
  parseNode node markdown ≠ OutOfFuel.
Proof.
  remember (height node) as h eqn:Hh. revert node Hh.
  induction h as [h IH] using lt_wf_ind. intros node -> Hout.
  rewrite parseNode_unfold in Hout.
  apply parseNode_body_OutOfFuel in Hout. destruct Hout as [c [Hlt Hc]].
  exact (IH (height c) Hlt c eq_refl Hc).
Qed.

(** ** Outcomes *)

Lemma fmap_Returned {A B : Type} (f : A → B) (m : Outcome A) (b : B) :
  f <$> m = Returned b → ∃ a, m = Returned a ∧ b = f a.
Proof. destruct m as [a| |]; simpl; intros [= <-]. eauto. Qed.

Lemma bind_Returned {A B : Type} (k : A → Outcome B) (m : Outcome A) (b : B) :
  (m ≫= k) = Returned b → ∃ a, m = Returned a ∧ k a = Returned b.
Proof. destruct m as [a| |]; simpl; intros Hb; try discriminate. eauto. Qed.

(** In [Hr : f <$> m = Returned y], name the value [r] that [m] returns. *)
Tactic Notation "fmap_returned" hyp(Hr) "as" ident(r) :=
  apply fmap_Returned in Hr; destruct Hr as [r [Hr ->]].

(** In [Hr : (x ← m; mret (f x)) = Returned y], name the value of [m]. *)
Tactic Notation "bind_returned" hyp(Hr) "as" ident(x) ident(Hx) :=
  apply bind_Returned in Hr; destruct Hr as [x [Hx [= <-]]].

(** ** The node variants with children *)

#[global] Instance FootnoteRef_laws : HasChildrenLaws FootnoteRef.
Proof. split; reflexivity. Qed.

#[global] Instance Highlight_laws : HasChildrenLaws Highlight.
Proof. split; reflexivity. Qed.

#[global] Instance ListItem_laws : HasChildrenLaws ListItem.
Proof. split; reflexivity. Qed.

#[global] Instance Emphasis_laws : HasChildrenLaws Emphasis.
Proof. split; reflexivity. Qed.

#[global] Instance TableCell_laws : HasChildrenLaws TableCell.
Proof. split; reflexivity. Qed.

#[global] Instance GenericNode_laws : HasChildrenLaws GenericNode.
Proof. split; reflexivity. Qed.

(** ** What [parseChildren] leaves unchanged *)

Section Preserved.

Context {T B : Type} `{HasChildren T} (f : T → B).
Hypothesis f_set_children : ∀ a cs, f (set_children a cs) = f a.
Hypothesis f_set_attributes : ∀ a m, f (set_attributes a m) = f a.

Lemma parseChildren_loop_preserves
    (rec : SyntaxNode → string → Outcome ASTNode)
    (node : SyntaxNode) (markdown : string) (siblings : list SyntaxNode) :
  ∀ (astNode : T) (currentIndex : Z) (r : T) (i : Z),
    parseChildren_loop rec node markdown siblings astNode currentIndex = Returned (r, i) →
    f r = f astNode.
Proof.
  induction siblings as [|c siblings IH]; simpl; intros astNode i r i'.
  - intros [= <- <-]. reflexivity.
  - set (a1 := if _ && _ then _ else astNode).
    assert (Ha1 : f a1 = f astNode).
    { subst a1. destruct (_ && _); [apply f_set_children|reflexivity]. }
    clearbody a1.
    destruct (String.eqb (name c) "PandocAttribute"); simpl.
    + intros Hloop. apply IH in Hloop. rewrite Hloop, f_set_attributes. exact Ha1.
    + destruct (rec c markdown) as [child| |]; simpl; try discriminate.
      intros Hloop. apply IH in Hloop. unfold push_child in Hloop.
      rewrite Hloop, f_set_children. exact Ha1.
Qed.

Lemma parseChildren_preserves
    (rec : SyntaxNode → string → Outcome ASTNode)
    (astNode : T) (node : SyntaxNode) (markdown : string) (r : T) :
  parseChildren rec astNode node markdown = Returned r → f r = f astNode.
Proof.
  unfold parseChildren. destruct (children node) as [|c cs].
  - destruct (negb _); intros [= <-]; [apply f_set_children|reflexivity].
  - intros Hr. apply bind_Returned in Hr. destruct Hr as [[a i] [Hloop Hr]].
    apply parseChildren_loop_preserves in Hloop.
    rewrite f_set_children in Hloop.
    destruct (_ && _); injection Hr as <-; [unfold push_child|];
      rewrite ?f_set_children; exact Hloop.
Qed.

End Preserved.

(** [name], [from] and [to] of the node under construction are kept. *)
Lemma parseChildren_md {T : Type} `{HasChildrenLaws T}
    (rec : SyntaxNode → string → Outcome ASTNode)
    (astNode : T) (node : SyntaxNode) (markdown : string) (r : T) :
  parseChildren rec astNode node markdown = Returned r →
  md_name (md_of r) = md_name (md_of astNode)
  ∧ md_from (md_of r) = md_from (md_of astNode)
  ∧ md_to (md_of r) = md_to (md_of astNode).
Proof.
  intros Hr.
  pose proof (parseChildren_preserves
                (fun a : T => (md_name (md_of a), md_from (md_of a), md_to (md_of a)))) as Hp.
  simpl in Hp. specialize (Hp ltac:(intros; rewrite md_of_set_children; reflexivity)).
  specialize (Hp ltac:(intros; rewrite md_of_set_attributes; reflexivity)).
  specialize (Hp _ _ _ _ _ Hr). injection Hp as -> -> ->. auto.
Qed.

(** ** The range of the root *)

Lemma parseNode_body_range (rec : SyntaxNode → string → Outcome ASTNode)
    (node : SyntaxNode) (markdown : string) (astNode : ASTNode) :
  parseNode_body rec node markdown = Returned astNode →
  md_from (base astNode) = from node ∧ md_to (base astNode) = to node.
Proof.
  unfold parseNode_body. destruct (switch (name node)).
  - destruct (getChild node "URL"); [|intros [= <-]; auto].
    destruct (getChild node "LinkLabel"); [intros [= <-]; auto|].
    destruct (getChildren node "LinkMark") as [|? [|? ?]]; intros [= <-]; auto.
  - intros [= <-]; auto.
  - intros [= <-]; auto.
  - intros [= <-]; auto.
  - intros [= <-]; auto.
  - intros [= <-]; auto.
  - destruct (getChild node "FootnoteRefBody"); [|intros [= <-]; auto].
    intros Hr. fmap_returned Hr as r.
    apply parseChildren_md in Hr. simpl in *. tauto.
  - intros Hr. fmap_returned Hr as r.
    apply parseChildren_md in Hr. simpl in *. tauto.
  - intros Hr. bind_returned Hr as items Hitems. auto.
  - destruct (getChild node "YAMLFrontmatterStart"); intros [= <-]; auto.
  - destruct (getChildren node "CodeMark") as [|? [|? ?]]; try discriminate.
    intros [= <-]; auto.
  - intros Hr. fmap_returned Hr as r.
    apply parseChildren_md in Hr. simpl in *. tauto.
  - intros Hr. bind_returned Hr as rows Hrows. auto.
  - destruct (getChild node "ZknLinkContent"); try discriminate.
    intros [= <-]; auto.
  - intros [= <-]; auto.
  - intros Hr. fmap_returned Hr as r.
    apply parseChildren_md in Hr. simpl in *. tauto.
Qed.

Lemma parseNode_range (node : SyntaxNode) (markdown : string) (astNode : ASTNode) :
  parseNode node markdown = Returned astNode →
  md_from (base astNode) = from node ∧ md_to (base astNode) = to node.
Proof. rewrite parseNode_unfold. apply parseNode_body_range. Qed.

(** C4. For every syntax node, of any kind, and every source string, the
    node that [parseNode] returns has the [from] and the [to] of the input
    node: the root of the result covers exactly the input node's range. *)
Theorem parseNode_root_covers_input_range
    (node : SyntaxNode) (markdown : string) (astNode : ASTNode) :
  parseNode node markdown = Returned astNode →
  md_from (base astNode) = from node ∧ md_to (base astNode) = to node.
Proof. apply parseNode_range. Qed.

(** ** The text between two offsets *)

Lemma length_append (a b : string) :
  String.length (a +:+ b) = (String.length a + String.length b)%nat.
Proof. induction a as [|c a IH]; simpl; [reflexivity|]. rewrite IH. reflexivity. Qed.

Lemma substring_skip (pre s : string) (n : nat) :
  String.substring (String.length pre) n (pre +:+ s) = String.substring 0 n s.
Proof. induction pre as [|c pre IH]; simpl; [reflexivity|exact IH]. Qed.

Lemma substring_take (mid post : string) :
  String.substring 0 (String.length mid) (mid +:+ post) = mid.
Proof.
  induction mid as [|c mid IH]; simpl; [destruct post; reflexivity|].
  rewrite IH. reflexivity.
Qed.

(** [substring] gives back the middle of a concatenation from its offsets. *)
Lemma substring_middle (pre mid post : string) (a b : Z) :
  a = Z.of_nat (String.length pre) →
  b = a + Z.of_nat (String.length mid) →
  JS.substring (pre +:+ mid +:+ post) a b = mid.
Proof.
  intros -> ->. unfold JS.substring, JS.clamp. rewrite !length_append.
  set (p := String.length pre). set (m := String.length mid).
  set (q := String.length post).
  replace (Z.min (Z.max (Z.of_nat p) 0) (Z.of_nat (p + (m + q)))) with (Z.of_nat p) by lia.
  replace (Z.min (Z.max (Z.of_nat p + Z.of_nat m) 0) (Z.of_nat (p + (m + q))))
    with (Z.of_nat p + Z.of_nat m) by lia.
  replace (Z.min (Z.of_nat p) (Z.of_nat p + Z.of_nat m)) with (Z.of_nat p) by lia.
  replace (Z.max (Z.of_nat p) (Z.of_nat p + Z.of_nat m))
    with (Z.of_nat p + Z.of_nat m) by lia.
  replace (Z.to_nat (Z.of_nat p)) with p by lia.
  replace (Z.to_nat (Z.of_nat p + Z.of_nat m - Z.of_nat p)) with m by lia.
  subst p m. rewrite substring_skip. apply substring_take.
Qed.

(** C5. A [Link] or [Image] node without a [URL] child is converted, without
    an exception, to a Generic node with the name and the range of the node
    and without attributes. Its only child is a Text node named [text] over
    the range of the node that holds the source text of that range: when
    the document reads [before ++ text ++ after] with the node over [text],
    that child holds [text]. *)
Theorem parseNode_link_without_url
    (node : SyntaxNode) (markdown : string) :
  name node = "Link" ∨ name node = "Image" →
  getChild node "URL" = None →
  ∃ g t,
    parseNode node markdown = Returned (NGeneric g)
    ∧ typeOf (NGeneric g) = "Generic"
    ∧ md_name (generic_md g) = name node
    ∧ md_from (generic_md g) = from node
    ∧ md_to (generic_md g) = to node
    ∧ md_attributes (generic_md g) = None
    ∧ generic_children g = [NText t]
    ∧ md_name (text_md t) = "text"
    ∧ md_from (text_md t) = from node
    ∧ md_to (text_md t) = to node
    ∧ md_attributes (text_md t) = None
    ∧ value t = JS.substring markdown (from node) (to node)
    ∧ (∀ before text after,
         markdown = before +:+ text +:+ after →
         from node = Z.of_nat (String.length before) →
         to node = from node + Z.of_nat (String.length text) →
         value t = text).
Proof.
  intros Hname Hurl. rewrite parseNode_unfold. unfold parseNode_body.
  replace (switch (name node)) with CaseLinkOrImage
    by (destruct Hname as [-> | ->]; reflexivity).
  rewrite Hurl. eexists _, _. split; [reflexivity|].
  repeat (split; [reflexivity|]).
  intros before text after -> Hfrom Hto. simpl.
  apply substring_middle; assumption.
Qed.

(** ** Strings *)

Lemma prefix_char (c : ascii) (s : string) :
  String.prefix (String c EmptyString) s = true ↔ ∃ r, s = String c r.
Proof.
  destruct s as [|b r]; simpl.
  - split; [discriminate|intros [r [=]]].
  - destruct (ascii_dec c b) as [->|Hcb].
    + split; [intros _; exists r; reflexivity|intros _; destruct r; reflexivity].
    + split; [discriminate|]. intros [r' [= <- _]]. contradiction.
Qed.

(** [s.includes(c)] for a single code unit: the code unit occurs in [s]. *)
Lemma includes_char (c : ascii) (s : string) :
  JS.includes s (String c EmptyString) = true ↔ In c (list_ascii_of_string s).
Proof.
  induction s as [|b r IH].
  - simpl. split; [discriminate|tauto].
  - change (JS.includes (String b r) (String c EmptyString))
      with (String.prefix (String c EmptyString) (String b r)
            || JS.includes r (String c EmptyString)).
    rewrite orb_true_iff, prefix_char, IH. simpl. split.
    + intros [[r' [= <- _]]|Hin]; auto.
    + intros [->|Hin]; [left; eauto|right; exact Hin].
Qed.

(** ** Headings *)

(** C7. The level of an ATX heading is the length of the range of its
    [HeaderMark] child, so [# a] to [###### a] have the levels 1 to 6. The
    level of a Setext heading is 2 exactly when the text of its [HeaderMark]
    contains a dash, and 1 otherwise, so an underline [---] gives 2 and an
    underline [===] gives 1. *)
Theorem heading_level_correct :
  (∀ (node mark : SyntaxNode) (markdown : string),
      In (name node) atxHeadings →
      getChild node "HeaderMark" = Some mark →
      ∃ h, parseNode node markdown = Returned (NHeading h)
           ∧ level h = to mark - from mark)
  ∧ (∀ n : nat, In n [1; 2; 3; 4; 5; 6]%nat →
      ∃ h, parseNode (atxHeading n) (atxSource n) = Returned (NHeading h)
           ∧ level h = Z.of_nat n)
  ∧ (∀ (node : SyntaxNode) (markdown : string),
      In (name node) setextHeadings →
      ∃ h, parseNode node markdown = Returned (NHeading h)
           ∧ (level h = 2 ↔
              ∃ mark, getChild node "HeaderMark" = Some mark
                      ∧ In "-"%char (list_ascii_of_string (textOf markdown mark)))
           ∧ (level h = 2 ∨ level h = 1))
  ∧ (∃ h, parseNode (setextHeading "2") setextDashes = Returned (NHeading h)
          ∧ level h = 2)
  ∧ (∃ h, parseNode (setextHeading "1") setextEquals = Returned (NHeading h)
          ∧ level h = 1).
Proof.
  split; [|split; [|split; [|split]]].
  - intros node mark markdown Hname Hmark.
    rewrite parseNode_unfold. unfold parseNode_body.
    replace (switch (name node)) with CaseATXHeading
      by (simpl in Hname; repeat destruct Hname as [<-|Hname]; tauto).
    rewrite Hmark. eexists. split; reflexivity.
  - intros n Hn. simpl in Hn.
    repeat destruct Hn as [<-|Hn]; try contradiction;
      (eexists; split; [vm_compute; reflexivity|reflexivity]).
  - intros node markdown Hname.
    rewrite parseNode_unfold. unfold parseNode_body.
    replace (switch (name node)) with CaseSetextHeading
      by (simpl in Hname; repeat destruct Hname as [<-|Hname]; tauto).
    eexists. split; [reflexivity|]. simpl.
    destruct (getChild node "HeaderMark") as [mark|].
    + unfold textOf.
      destruct (JS.includes (JS.substring markdown (from mark) (to mark)) "-") eqn:Hdash.
      * apply includes_char in Hdash. split; [|auto].
        split; [eauto|reflexivity].
      * split; [|auto]. split; [discriminate|].
        intros [mark' [[= <-] Hin]]. apply includes_char in Hin. congruence.
    + split; [|auto]. split; [discriminate|]. intros [mark [[=] _]].
  - eexists. split; [vm_compute; reflexivity|reflexivity].
  - eexists. split; [vm_compute; reflexivity|reflexivity].
Qed.

(** ** Code blocks *)

(** C8. When the text of the opening [CodeMark] of a [FencedCode] or
    [CodeBlock] node is [$$], the info string of the result is [$$];
    otherwise it is the text of the [CodeInfo] child ([python] for a
    [```python] fence), and the empty string without such a child. *)
Theorem code_block_info (node : SyntaxNode) (markdown : string) :
  name node = "FencedCode" ∨ name node = "CodeBlock" →
  ∃ c, (parseNode node markdown = Returned (NFencedCode c)
        ∨ parseNode node markdown = Returned (NYAMLFrontmatter c))
       ∧ (∀ mark, getChild node "CodeMark" = Some mark →
            textOf markdown mark = "$$" → info c = "$$")
       ∧ ((∀ mark, getChild node "CodeMark" = Some mark →
             textOf markdown mark ≠ "$$") →
          info c = match getChild node "CodeInfo" with
                   | Some codeInfo => textOf markdown codeInfo
                   | None => ""
                   end).
Proof.
  intros Hname. rewrite parseNode_unfold. unfold parseNode_body.
  replace (switch (name node)) with CaseCode
    by (destruct Hname as [-> | ->]; reflexivity).
  destruct (getChild node "YAMLFrontmatterStart");
    (eexists; split; [first [left; reflexivity|right; reflexivity]|]);
    simpl; unfold textOf;
    (destruct (getChild node "CodeMark") as [mark|];
     [destruct (String.eqb_spec (JS.substring markdown (from mark) (to mark)) "$$")
        as [Hmath|Hmath]|]).
  all: split.
  all: try (intros mark' [= <-] Hmath'; first [exact Hmath|contradiction]).
  all: try (intros _; reflexivity).
  all: try (intros mark' [=]).
  all: intros Hnot; exfalso; exact (Hnot mark eq_refl Hmath).
Qed.

(** ** Exceptions *)

Lemma forOf_throws {A B : Type} (f : A → Outcome B) (l : list A) :
  (∀ x, In x l → f x ≠ OutOfFuel) →
  throws (forOf f l) ↔ ∃ x, In x l ∧ throws (f x).
Proof.
  unfold throws. induction l as [|x l IH]; simpl; intros Hfuel.
  - split; [intros [e [=]]|intros [x [[] _]]].
  - specialize (IH ltac:(auto)).
    destruct (f x) as [y| |] eqn:Hx; simpl.
    + destruct (forOf f l) as [ys| |] eqn:Hl; simpl.
      * split; [intros [e [=]]|].
        intros [x' [[<-|Hin] [e He]]]; [congruence|].
        destruct IH as [_ IH]. destruct IH as [e' [=]]. eauto.
      * split; [|eauto]. intros _.
        destruct IH as [IH _]. destruct IH as [x' [Hin He]]; eauto.
      * apply forOf_OutOfFuel in Hl. destruct Hl as [x' [Hin Hx']].
        exfalso. apply (Hfuel x'); auto.
    + split; [|eauto]. intros _. exists x. eauto.
    + exfalso. apply (Hfuel x); auto.
Qed.

Lemma bind_ret_throws {A B : Type} (f : A → B) (m : Outcome A) :
  throws (m ≫= (fun a => mret (f a))) ↔ throws m.
Proof.
  unfold throws. destruct m; simpl; split; intros [e' [=]]; subst; eauto.
Qed.

Lemma bind_ret_OutOfFuel {A B : Type} (f : A → B) (m : Outcome A) :
  (m ≫= (fun a => mret (f a))) = OutOfFuel → m = OutOfFuel.
Proof. destruct m; simpl; intros Hm; try discriminate; reflexivity. Qed.

Lemma fmap_throws {A B : Type} (f : A → B) (m : Outcome A) :
  throws (f <$> m) ↔ throws m.
Proof.
  unfold throws. destruct m; simpl; split; intros [e' [=]]; subst; eauto.
Qed.

Lemma parseChildren_loop_throws {T : Type} `{HasChildren T}
    (rec : SyntaxNode → string → Outcome ASTNode)
    (node : SyntaxNode) (markdown : string) (siblings : list SyntaxNode) :
  (∀ c, rec c markdown ≠ OutOfFuel) →
  ∀ (astNode : T) (currentIndex : Z),
    throws (parseChildren_loop rec node markdown siblings astNode currentIndex)
    ↔ ∃ c, In c siblings ∧ name c ≠ "PandocAttribute" ∧ throws (rec c markdown).
Proof.
  intros Hfuel. unfold throws.
  induction siblings as [|c siblings IH]; simpl; intros astNode i.
  - split; [intros [e [=]]|intros [c [[] _]]].
  - destruct (String.eqb_spec (name c) "PandocAttribute") as [Hattr|Hattr]; simpl.
    + rewrite IH. split.
      * intros [c' [Hin Hc']]. eauto.
      * intros [c' [[<-|Hin] [Hname Hc']]]; [contradiction|eauto].
    + destruct (rec c markdown) as [child| |] eqn:Hc; simpl.
      * rewrite IH. split.
        -- intros [c' [Hin Hc']]. eauto.
        -- intros [c' [[<-|Hin] [Hname [e Hc']]]]; [congruence|eauto].
      * split; [|eauto]. intros _. exists c. eauto.
      * exfalso. exact (Hfuel c Hc).
Qed.

Lemma parseChildren_throws {T : Type} `{HasChildren T}
    (rec : SyntaxNode → string → Outcome ASTNode)
    (astNode : T) (node : SyntaxNode) (markdown : string) :
  (∀ c, rec c markdown ≠ OutOfFuel) →
  throws (parseChildren rec astNode node markdown)
  ↔ ∃ c, In c (children node) ∧ name c ≠ "PandocAttribute" ∧ throws (rec c markdown).
Proof.
  intros Hfuel. unfold parseChildren.
  destruct (children node) as [|c cs] eqn:Hcs.
  - split; [|intros [c [[] _]]].
    destruct (negb _); intros [e [=]].
  - rewrite <- (parseChildren_loop_throws rec node markdown (c :: cs) Hfuel
                  (set_children astNode []) (from node)).
    unfold throws.
    destruct (parseChildren_loop _ _ _ _ _ _) as [[a i]| |]; simpl.
    + destruct (_ && _); split; intros [e [=]].
    + split; eauto.
    + split; intros [e [=]].
Qed.

Lemma parseChildren_fuel {T : Type} `{HasChildren T}
    (rec : SyntaxNode → string → Outcome ASTNode)
    (astNode : T) (node : SyntaxNode) (markdown : string) :
  (∀ c, rec c markdown ≠ OutOfFuel) →
  parseChildren rec astNode node markdown ≠ OutOfFuel.
Proof.
  intros Hfuel Hout. apply parseChildren_OutOfFuel in Hout.
  destruct Hout as [c [_ Hc]]. exact (Hfuel c Hc).
Qed.

(** Where the body of [parseNode] throws: at the node itself, or in the
    conversion of a sub-node that it hands to [parseChildren]. *)
Lemma parseNode_body_throws (rec : SyntaxNode → string → Outcome ASTNode)
    (node : SyntaxNode) (markdown : string) :
  (∀ c, rec c markdown ≠ OutOfFuel) →
  throws (parseNode_body rec node markdown)
  ↔ throwsAt node = true
    ∨ ∃ x c, In x (aggregated node) ∧ In c (children x)
             ∧ name c ≠ "PandocAttribute" ∧ throws (rec c markdown).
Proof.
  intros Hfuel.
  assert (Hnone : ∀ A (a : A), throws (mret a) ↔
            false = true ∨ ∃ x c : SyntaxNode, In x [] ∧ In c (children x)
              ∧ name c ≠ "PandocAttribute" ∧ throws (rec c markdown)).
  { intros A a. split; [intros [e [=]]|].
    intros [[=]|[x [c [[] _]]]]. }
  assert (Hone : ∀ (T : Type) (HT : HasChildren T) (astNode : T) x,
            throws (parseChildren rec astNode x markdown) ↔
            false = true ∨ ∃ x' c : SyntaxNode, In x' [x] ∧ In c (children x')
              ∧ name c ≠ "PandocAttribute" ∧ throws (rec c markdown)).
  { intros T HT astNode x. rewrite parseChildren_throws by exact Hfuel. split.
    - intros [c Hc]. right. exists x, c. simpl. tauto.
    - intros [[=]|[x' [c [[<-|[]] Hc]]]]. eauto. }
  unfold parseNode_body, throwsAt, aggregated. destruct (switch (name node)).
  - destruct (getChild node "URL"); [|apply Hnone].
    destruct (getChild node "LinkLabel"); [apply Hnone|].
    destruct (getChildren node "LinkMark") as [|? [|? ?]]; apply Hnone.
  - apply Hnone.
  - apply Hnone.
  - apply Hnone.
  - apply Hnone.
  - apply Hnone.
  - destruct (getChild node "FootnoteRefBody") as [body|]; [|apply Hnone].
    rewrite fmap_throws. apply Hone.
  - rewrite fmap_throws. apply Hone.
  - etransitivity; [apply bind_ret_throws|].
    rewrite forOf_throws by (intros; apply parseChildren_fuel; exact Hfuel).
    split.
    + intros [item [Hin Hitem]].
      apply parseChildren_throws in Hitem; [|exact Hfuel].
      destruct Hitem as [c Hc]. right. exists item, c. tauto.
    + intros [[=]|[item [c [Hin Hc]]]]. exists item. split; [exact Hin|].
      apply parseChildren_throws; [exact Hfuel|]. exists c. tauto.
  - destruct (getChild node "YAMLFrontmatterStart"); apply Hnone.
  - destruct (getChildren node "CodeMark") as [|? [|? ?]].
    + split; [auto|]. intros _. eexists. reflexivity.
    + split; [auto|]. intros _. eexists. reflexivity.
    + split; [intros [e [=]]|]. intros [[=]|[x [c [[] _]]]].
  - rewrite fmap_throws. apply Hone.
  - etransitivity; [apply bind_ret_throws|].
    assert (Hcells : ∀ row : SyntaxNode,
              forOf (fun cell => parseChildren rec
                       {| cell_md := mdNode "TableCell" (from cell) (to cell);
                          cell_children := [] |} cell markdown)
                (getChildren row "TableCell") ≠ OutOfFuel).
    { intros row Hout. apply forOf_OutOfFuel in Hout.
      destruct Hout as [cell [_ Hout]]. revert Hout.
      apply parseChildren_fuel. exact Hfuel. }
    rewrite forOf_throws
      by (intros row _ Hout; apply bind_ret_OutOfFuel in Hout; exact (Hcells row Hout)).
    split.
    + intros [row [Hrow Hthrows]]. apply bind_ret_throws in Hthrows.
      apply forOf_throws in Hthrows;
        [|intros; apply parseChildren_fuel; exact Hfuel].
      destruct Hthrows as [cell [Hcell Hthrows]].
      apply parseChildren_throws in Hthrows; [|exact Hfuel].
      destruct Hthrows as [c Hc]. right. exists cell, c.
      split; [|tauto]. apply in_flat_map. eauto.
    + intros [[=]|[cell [c [Hin Hc]]]].
      apply in_flat_map in Hin. destruct Hin as [row [Hrow Hcell]].
      exists row. split; [exact Hrow|]. apply bind_ret_throws.
      apply forOf_throws; [intros; apply parseChildren_fuel; exact Hfuel|].
      exists cell. split; [exact Hcell|].
      apply parseChildren_throws; [exact Hfuel|]. exists c. tauto.
  - destruct (getChild node "ZknLinkContent").
    + split; [intros [e [=]]|]. intros [[=]|[x [c [[] _]]]].
    + split; [auto|]. intros _. eexists. reflexivity.
  - apply Hnone.
  - rewrite fmap_throws. apply Hone.
Qed.

Lemma aggregated_height (node x : SyntaxNode) :
  In x (aggregated node) → (height x ≤ height node)%nat.
Proof.
  unfold aggregated. destruct (switch (name node)); simpl; try tauto.
  - destruct (getChild node "FootnoteRefBody") as [body|] eqn:Hbody; simpl; [|tauto].
    intros [<-|[]]. apply getChild_height in Hbody. lia.
  - destruct (getChild node "HighlightContent") as [content|] eqn:Hcontent; simpl.
    + intros [<-|[]]. apply getChild_height in Hcontent. lia.
    + intros [<-|[]]. lia.
  - intros Hin. apply getChildren_height in Hin. lia.
  - intros [<-|[]]. lia.
  - intros Hin. apply in_flat_map in Hin. destruct Hin as [row [Hrow Hcell]].
    apply getChildren_height in Hcell.
    apply in_app_or in Hrow. destruct Hrow as [Hrow|Hrow];
      apply getChildren_height in Hrow; lia.
  - intros [<-|[]]. lia.
Qed.

(** [parseNode] throws exactly when the conversion reaches a node on which
    it throws by itself. *)
Lemma parseNode_throws_iff (node : SyntaxNode) (markdown : string) :
  throws (parseNode node markdown) ↔ ∃ d, reaches node d ∧ throwsAt d = true.
Proof.
  split.
  - remember (height node) as h eqn:Hh. revert node Hh.
    induction h as [h IH] using lt_wf_ind. intros node -> Hthrows.
    rewrite parseNode_unfold in Hthrows.
    apply parseNode_body_throws in Hthrows; [|intros c; apply parseNode_terminates].
    destruct Hthrows as [Hat|[x [c [Hx [Hc [Hname Hthrows]]]]]].
    + exists node. split; [constructor|exact Hat].
    + apply aggregated_height in Hx as Hhx. apply height_child in Hc as Hhc.
      destruct (IH (height c) ltac:(lia) c eq_refl Hthrows) as [d [Hd Hat]].
      exists d. split; [|exact Hat]. eapply reaches_sub; eassumption.
  - intros [d [Hreach Hat]].
    induction Hreach as [node|node x c d Hx Hc Hname Hreach IH].
    + rewrite parseNode_unfold.
      apply parseNode_body_throws; [intros c; apply parseNode_terminates|].
      left. exact Hat.
    + rewrite parseNode_unfold.
      apply parseNode_body_throws; [intros c'; apply parseNode_terminates|].
      right. exists x, c. auto.
Qed.

(** ** Links and images *)

(** The [alt] text of a link or image with a [URL] child: the span between
    the first two [LinkMark] children when there is no [LinkLabel] child and
    there are two marks, and the text of the [URL] child in every other
    case, also when there is a [LinkLabel] child. *)
Lemma parseNode_link_alt (node url : SyntaxNode) (markdown : string) :
  name node = "Link" ∨ name node = "Image" →
  getChild node "URL" = Some url →
  ∃ l, parseNode node markdown = Returned (NLinkOrImage l)
       ∧ alt l =
         match getChild node "LinkLabel", getChildren node "LinkMark" with
         | None, mark0 :: mark1 :: _ =>
             genericTextNode (to mark0) (from mark1)
               (JS.substring markdown (to mark0) (from mark1))
         | _, _ => genericTextNode (from url) (to url) (textOf markdown url)
         end.
Proof.
  intros Hname Hurl. rewrite parseNode_unfold. unfold parseNode_body.
  replace (switch (name node)) with CaseLinkOrImage
    by (destruct Hname as [-> | ->]; reflexivity).
  rewrite Hurl.
  destruct (getChild node "LinkLabel"); [eexists; split; reflexivity|].
  destruct (getChildren node "LinkMark") as [|? [|? ?]]; eexists; split; reflexivity.
Qed.

(** ** Lists *)

(** C9. For every [ListItem] sub-node of an [OrderedList] or [BulletList]:
    with a [TaskMarker] in its [Task] sub-node, [checked] is true when the
    text of the marker is [[x]] and false otherwise; without one, the item
    has no [checked] field. So [- [x] done], [- [ ] todo], [- plain] give
    true, false and no field. *)
Theorem list_item_checked :
  (∀ (node : SyntaxNode) (markdown : string) (astNode : ASTNode),
      name node = "OrderedList" ∨ name node = "BulletList" →
      parseNode node markdown = Returned astNode →
      ∃ l, astNode = NList l
           ∧ Forall2 (fun item listItem =>
                        match taskMarkerOf item with
                        | Some taskMarker =>
                            (textOf markdown taskMarker = "[x]"
                             → checked listItem = Some true)
                            ∧ (textOf markdown taskMarker ≠ "[x]"
                               → checked listItem = Some false)
                        | None => checked listItem = None
                        end)
               (getChildren node "ListItem") (items l))
  ∧ (∃ l, parseNode taskList taskListSource = Returned (NList l)
          ∧ map checked (items l) = [Some true; Some false; None]).
Proof.
  split.
  - intros node markdown astNode Hname. rewrite parseNode_unfold.
    unfold parseNode_body.
    replace (switch (name node)) with CaseList
      by (destruct Hname as [-> | ->]; reflexivity).
    intros Hr. bind_returned Hr as items Hitems.
    eexists. split; [reflexivity|]. simpl.
    apply forOf_Returned in Hitems.
    eapply Forall2_impl; [exact Hitems|]. clear Hitems.
    intros item listItem Hitem. simpl in Hitem.
    apply (parseChildren_preserves checked) in Hitem; [|reflexivity|reflexivity].
    rewrite Hitem. simpl. unfold taskMarkerOf, textOf.
    destruct (match getChild item "Task" with
              | Some task => getChild task "TaskMarker"
              | None => None
              end) as [taskMarker|]; [|reflexivity].
    destruct (String.eqb_spec (JS.substring markdown (from taskMarker) (to taskMarker))
                "[x]"); split; intros; congruence.
  - eexists. split; [vm_compute; reflexivity|reflexivity].
Qed.

(** ** The children that [parseChildren] builds *)

Lemma tiles_app (start mid stop : Z) (l1 l2 : list (Z * Z)) :
  tiles start l1 mid → tiles mid l2 stop → tiles start (l1 ++ l2) stop.
Proof.
  revert start. induction l1 as [|[a b] l1 IH]; simpl; intros start.
  - intros ->. tauto.
  - intros [-> [Hab H1]] H2. auto.
Qed.

Section ChildrenForall.

Context {T : Type} `{HasChildrenLaws T}.
Variable P : ASTNode → Prop.
Variable rec : SyntaxNode → string → Outcome ASTNode.
Variable markdown : string.
Hypothesis P_text :
  ∀ from to, P (NText (genericTextNode from to (JS.substring markdown from to))).

Lemma parseChildren_loop_Forall (node : SyntaxNode) (siblings : list SyntaxNode) :
  (∀ c child, In c siblings → name c ≠ "PandocAttribute" →
              rec c markdown = Returned child → P child) →
  ∀ (astNode r : T) (currentIndex i : Z),
    Forall P (children_of astNode) →
    parseChildren_loop rec node markdown siblings astNode currentIndex = Returned (r, i) →
    Forall P (children_of r).
Proof.
  induction siblings as [|c siblings IH]; simpl; intros Hrec a r idx i Ha.
  - intros [= <- <-]. exact Ha.
  - set (a1 := if _ && _ then _ else a).
    assert (Ha1 : Forall P (children_of a1)).
    { subst a1. destruct (_ && _); [|exact Ha]. unfold push_child.
      rewrite children_of_set_children. apply Forall_app. split; [exact Ha|].
      constructor; [apply P_text|constructor]. }
    clearbody a1.
    assert (Hrest : ∀ c' child', In c' siblings → name c' ≠ "PandocAttribute" →
                                 rec c' markdown = Returned child' → P child')
      by (intros c' child' Hin; apply Hrec; right; exact Hin).
    destruct (String.eqb_spec (name c) "PandocAttribute") as [Hattr|Hattr]; simpl.
    + intros Hloop. eapply IH; [exact Hrest| |exact Hloop].
      rewrite children_of_set_attributes. exact Ha1.
    + destruct (rec c markdown) as [child| |] eqn:Hc; simpl; try discriminate.
      intros Hloop. eapply IH; [exact Hrest| |exact Hloop].
      unfold push_child. rewrite children_of_set_children.
      apply Forall_app. split; [exact Ha1|].
      constructor; [|constructor].
      apply (Hrec c); [left; reflexivity|exact Hattr|exact Hc].
Qed.

(** Every child of the result is a Text leaf with the source text of its
    range, or the conversion of a sub-node other than a [PandocAttribute]. *)
Lemma parseChildren_Forall (astNode r : T) (node : SyntaxNode) :
  (∀ c child, In c (children node) → name c ≠ "PandocAttribute" →
              rec c markdown = Returned child → P child) →
  (children node = [] → JS.Array_includes EMPTY_NODES (name node) = true →
   Forall P (children_of astNode)) →
  parseChildren rec astNode node markdown = Returned r →
  Forall P (children_of r).
Proof.
  intros Hrec Ha. unfold parseChildren.
  destruct (children node) as [|c cs] eqn:Hcs.
  - destruct (JS.Array_includes EMPTY_NODES (name node)); simpl; intros [= <-];
      [apply Ha; reflexivity|].
    rewrite children_of_set_children. constructor; [apply P_text|constructor].
  - intros Hr. apply bind_Returned in Hr. destruct Hr as [[a i] [Hloop Hr]].
    apply parseChildren_loop_Forall in Hloop;
      [|exact Hrec|rewrite children_of_set_children; constructor].
    destruct (_ && _); injection Hr as <-; [|exact Hloop].
    unfold push_child. rewrite children_of_set_children. apply Forall_app.
    split; [exact Hloop|]. constructor; [apply P_text|constructor].
Qed.

End ChildrenForall.

Section Layout.

Context {T : Type} `{HasChildrenLaws T}.
Variable rec : SyntaxNode → string → Outcome ASTNode.
Variable markdown : string.
Hypothesis rec_range :
  ∀ c child, rec c markdown = Returned child → rangeOf child = spanOf c.

Lemma parseChildren_loop_layout (node : SyntaxNode) (stop : Z)
    (siblings : list SyntaxNode) :
  JS.Array_includes EMPTY_NODES (name node) = false →
  ∀ (astNode r : T) (currentIndex i : Z),
    wellNested currentIndex siblings stop →
    parseChildren_loop rec node markdown siblings astNode currentIndex = Returned (r, i) →
    i ≤ stop
    ∧ ∃ (cs : list ASTNode) (layout : list (bool * (Z * Z))),
        children_of r = children_of astNode ++ cs
        ∧ tiles currentIndex (map snd layout) i
        ∧ map snd (List.filter (fun p => negb (fst p)) layout) = map rangeOf cs
        ∧ map snd (List.filter fst layout)
          = map spanOf (List.filter (fun c => String.eqb (name c) "PandocAttribute") siblings).
Proof.
  intros Hkind. induction siblings as [|c siblings IH]; simpl; intros a r idx i.
  - intros Hle [= <- <-]. split; [exact Hle|].
    exists [], []. rewrite app_nil_r. simpl. auto.
  - intros [Hfrom [Hto Hrest]]. rewrite Hkind. simpl. rewrite andb_true_r.
    set (a1 := if idx <? from c then _ else a).
    assert (Ha1 : ∃ gap lay,
               children_of a1 = children_of a ++ gap
               ∧ tiles idx (map snd lay) (from c)
               ∧ map snd (List.filter (fun p => negb (fst p)) lay) = map rangeOf gap
               ∧ List.filter fst lay = []).
    { subst a1. destruct (Z.ltb_spec idx (from c)) as [Hlt|Hge].
      - eexists [_], [(false, (idx, from c))]. unfold push_child.
        rewrite children_of_set_children. simpl. split; [reflexivity|].
        split; [lia|]. split; reflexivity.
      - exists [], []. rewrite app_nil_r. simpl. split; [reflexivity|].
        split; [lia|]. split; reflexivity. }
    clearbody a1. destruct Ha1 as [gap [lay [Hgap [Htiles [Hlay Hnone]]]]].
    destruct (String.eqb (name c) "PandocAttribute"); simpl.
    + intros Hloop. apply IH in Hloop; [|exact Hrest].
      destruct Hloop as [Hi [cs [layout [Hcs [Htiles' [Hlayout Hattrs]]]]]].
      split; [exact Hi|].
      exists (gap ++ cs), (lay ++ (true, spanOf c) :: layout).
      rewrite Hcs, children_of_set_attributes, Hgap, <- app_assoc.
      split; [reflexivity|]. split.
      { rewrite List.map_app. eapply tiles_app; [exact Htiles|]. simpl. auto. }
      rewrite !List.filter_app, !List.map_app. simpl.
      rewrite Hlay, Hlayout, Hnone, Hattrs. split; reflexivity.
    + destruct (rec c markdown) as [child| |] eqn:Hc; simpl; try discriminate.
      intros Hloop. apply IH in Hloop; [|exact Hrest].
      destruct Hloop as [Hi [cs [layout [Hcs [Htiles' [Hlayout Hattrs]]]]]].
      split; [exact Hi|].
      exists (gap ++ child :: cs), (lay ++ (false, spanOf c) :: layout).
      unfold push_child in Hcs. rewrite children_of_set_children in Hcs.
      rewrite Hcs, Hgap, <- !app_assoc.
      split; [reflexivity|]. split.
      { rewrite List.map_app. eapply tiles_app; [exact Htiles|]. simpl. auto. }
      rewrite !List.filter_app, !List.map_app. simpl.
      rewrite Hlay, Hlayout, Hnone, Hattrs, (rec_range c child Hc).
      split; reflexivity.
Qed.

Lemma parseChildren_layout (astNode r : T) (node : SyntaxNode) :
  JS.Array_includes EMPTY_NODES (name node) = false →
  wellNested (from node) (children node) (to node) →
  parseChildren rec astNode node markdown = Returned r →
  ∃ layout : list (bool * (Z * Z)),
    tiles (from node) (map snd layout) (to node)
    ∧ map snd (List.filter (fun p => negb (fst p)) layout) = map rangeOf (children_of r)
    ∧ map snd (List.filter fst layout) = map spanOf (getChildren node "PandocAttribute").
Proof.
  intros Hkind Hnested. unfold parseChildren, getChildren.
  destruct (children node) as [|c cs] eqn:Hcs.
  - rewrite Hkind. simpl. intros [= <-]. simpl in Hnested.
    exists [(false, (from node, to node))].
    rewrite children_of_set_children. simpl. auto.
  - intros Hr. apply bind_Returned in Hr. destruct Hr as [[a i] [Hloop Hr]].
    apply (parseChildren_loop_layout node (to node)) in Hloop;
      [|exact Hkind|exact Hnested].
    destruct Hloop as [Hi [kids [layout [Hkids [Htiles [Hlayout Hattrs]]]]]].
    rewrite children_of_set_children in Hkids. simpl in Hkids.
    rewrite Hkind in Hr. simpl in Hr. rewrite andb_true_r in Hr.
    destruct (Z.ltb_spec i (to node)) as [Hlt|Hge]; injection Hr as <-.
    + exists (layout ++ [(false, (i, to node))]).
      unfold push_child. rewrite children_of_set_children, Hkids.
      rewrite !List.filter_app, !List.map_app, Hlayout, Hattrs. simpl.
      rewrite app_nil_r. split; [|split; reflexivity].
      eapply tiles_app; [exact Htiles|]. simpl. lia.
    + exists layout. rewrite Hkids, Hlayout, Hattrs.
      split; [|split; reflexivity].
      replace (to node) with i by lia. exact Htiles.
Qed.

End Layout.

Lemma filter_none_all {A : Type} (f : A → bool) (l : list A) :
  List.filter f l = [] → List.filter (fun x => negb (f x)) l = l.
Proof.
  induction l as [|x l IH]; simpl; [reflexivity|].
  destruct (f x); simpl; [discriminate|]. intros Hl. rewrite IH by exact Hl. reflexivity.
Qed.

(** C3, amended. For a node of a kind outside [EMPTY_NODES] that is
    converted by [parseChildren]: without sub-nodes, the result has exactly
    one child, the Text node of the node's range with the source text of
    that range. In every case a child is a Text leaf that holds the source
    text of its range, or the conversion of a sub-node that is no
    [PandocAttribute]. With sub-nodes in document order that do not overlap,
    the Text leaves fill the gaps before the sub-nodes and after the last
    one, so that the ranges of the children together with the spans of the
    [PandocAttribute] sub-nodes, which are not made children, tile
    [[from, to)]; without [PandocAttribute] sub-nodes the ranges of the
    children alone tile it. *)
Theorem parseChildren_tiles_range {T : Type} `{HasChildrenLaws T}
    (astNode r : T) (node : SyntaxNode) (markdown : string) :
  JS.Array_includes EMPTY_NODES (name node) = false →
  parseChildren parseNode astNode node markdown = Returned r →
  (children node = [] →
   children_of r
   = [NText (genericTextNode (from node) (to node)
               (JS.substring markdown (from node) (to node)))])
  ∧ Forall (fun child =>
              (∃ a b, child = NText (genericTextNode a b (JS.substring markdown a b)))
              ∨ (∃ c, In c (children node) ∧ name c ≠ "PandocAttribute"
                      ∧ parseNode c markdown = Returned child))
      (children_of r)
  ∧ (wellNested (from node) (children node) (to node) →
     ∃ layout : list (bool * (Z * Z)),
       tiles (from node) (map snd layout) (to node)
       ∧ map snd (List.filter (fun p => negb (fst p)) layout)
         = map rangeOf (children_of r)
       ∧ map snd (List.filter fst layout)
         = map spanOf (getChildren node "PandocAttribute"))
  ∧ (wellNested (from node) (children node) (to node) →
     getChildren node "PandocAttribute" = [] →
     tiles (from node) (map rangeOf (children_of r)) (to node)).
Proof.
  intros Hkind Hr.
  assert (Hrange : ∀ c child, parseNode c markdown = Returned child →
                              rangeOf child = spanOf c).
  { intros c child Hc. apply parseNode_range in Hc. unfold rangeOf, spanOf.
    destruct Hc as [-> ->]. reflexivity. }
  split; [|split; [|split]].
  - intros Hnone. unfold parseChildren in Hr. rewrite Hnone, Hkind in Hr.
    simpl in Hr. injection Hr as <-. apply children_of_set_children.
  - eapply parseChildren_Forall with (rec := parseNode) (markdown := markdown)
      (node := node) (astNode := astNode);
      [| |intros _ Hempty; congruence|exact Hr].
    + intros a b. left. eauto.
    + intros c child Hc Hname Hchild. right. eauto.
  - intros Hnested. eapply parseChildren_layout; eassumption.
  - intros Hnested Hattrs.
    destruct (parseChildren_layout parseNode markdown Hrange astNode r node
                Hkind Hnested Hr) as [layout [Htiles [Hkids Hskipped]]].
    rewrite Hattrs in Hskipped. simpl in Hskipped.
    apply map_eq_nil in Hskipped. apply filter_none_all in Hskipped.
    rewrite Hskipped in Hkids. rewrite <- Hkids. exact Htiles.
Qed.

(** ** Text nodes hold the source text of their range *)

Lemma textsFaithful_NGeneric (markdown : string) (n : GenericNode) :
  textsFaithful markdown (NGeneric n)
  ↔ Forall (textsFaithful markdown) (generic_children n).
Proof.
  simpl. induction (generic_children n) as [|c l IH];
    [split; auto|rewrite Forall_cons; tauto].
Qed.

Lemma textsFaithful_NFootnoteRef (markdown : string) (n : FootnoteRef) :
  textsFaithful markdown (NFootnoteRef n)
  ↔ Forall (textsFaithful markdown) (footnoteref_children n).
Proof.
  simpl. induction (footnoteref_children n) as [|c l IH];
    [split; auto|rewrite Forall_cons; tauto].
Qed.

Lemma textsFaithful_NHighlight (markdown : string) (n : Highlight) :
  textsFaithful markdown (NHighlight n)
  ↔ Forall (textsFaithful markdown) (highlight_children n).
Proof.
  simpl. induction (highlight_children n) as [|c l IH];
    [split; auto|rewrite Forall_cons; tauto].
Qed.

Lemma textsFaithful_NEmphasis (markdown : string) (n : Emphasis) :
  textsFaithful markdown (NEmphasis n)
  ↔ Forall (textsFaithful markdown) (emphasis_children n).
Proof.
  simpl. induction (emphasis_children n) as [|c l IH];
    [split; auto|rewrite Forall_cons; tauto].
Qed.

Lemma textsFaithful_NTableCell (markdown : string) (n : TableCell) :
  textsFaithful markdown (NTableCell n)
  ↔ Forall (textsFaithful markdown) (cell_children n).
Proof.
  simpl. induction (cell_children n) as [|c l IH];
    [split; auto|rewrite Forall_cons; tauto].
Qed.

Lemma textsFaithful_NListItem (markdown : string) (n : ListItem) :
  textsFaithful markdown (NListItem n)
  ↔ Forall (textsFaithful markdown) (item_children n).
Proof.
  simpl. induction (item_children n) as [|c l IH];
    [split; auto|rewrite Forall_cons; tauto].
Qed.

Lemma textsFaithful_NTableRow (markdown : string) (n : TableRow) :
  textsFaithful markdown (NTableRow n)
  ↔ Forall (fun cell => textsFaithful markdown (NTableCell cell)) (cells n).
Proof.
  simpl. induction (cells n) as [|c l IH];
    [split; auto|rewrite Forall_cons; tauto].
Qed.

Lemma textsFaithful_NList (markdown : string) (n : List) :
  textsFaithful markdown (NList n)
  ↔ Forall (fun item => textsFaithful markdown (NListItem item)) (items n).
Proof.
  simpl. induction (items n) as [|c l IH];
    [split; auto|rewrite Forall_cons; tauto].
Qed.

Lemma textsFaithful_NTable (markdown : string) (n : Table) :
  textsFaithful markdown (NTable n)
  ↔ Forall (fun row => textsFaithful markdown (NTableRow row)) (rows n).
Proof.
  simpl. induction (rows n) as [|c l IH];
    [split; auto|rewrite Forall_cons; tauto].
Qed.

Lemma parseNode_body_textsFaithful
    (rec : SyntaxNode → string → Outcome ASTNode)
    (node : SyntaxNode) (markdown : string) (astNode : ASTNode) :
  (∀ c child, (height c < height node)%nat →
              rec c markdown = Returned child → textsFaithful markdown child) →
  parseNode_body rec node markdown = Returned astNode →
  textsFaithful markdown astNode.
Proof.
  intros Hrec.
  assert (Htext : ∀ from to,
            textsFaithful markdown
              (NText (genericTextNode from to (JS.substring markdown from to))))
    by reflexivity.
  assert (Hsub : ∀ (T : Type) (HT : HasChildren T) (HL : HasChildrenLaws T)
                   (start r : T) x,
             (height x ≤ height node)%nat →
             children_of start = [] →
             parseChildren rec start x markdown = Returned r →
             Forall (textsFaithful markdown) (children_of r)).
  { intros T HT HL start r x Hx Hstart Hr.
    eapply parseChildren_Forall;
      [exact Htext| |intros _ _; rewrite Hstart; constructor|exact Hr].
    intros c child Hc _. apply Hrec. apply height_child in Hc. lia. }
  unfold parseNode_body. destruct (switch (name node)) eqn:Hcase.
  - destruct (getChild node "URL"); [|intros [= <-]; simpl; repeat split].
    destruct (getChild node "LinkLabel"); [intros [= <-]; repeat split|].
    destruct (getChildren node "LinkMark") as [|? [|? ?]];
      intros [= <-]; repeat split.
  - intros [= <-]. repeat split.
  - intros [= <-]. simpl. rewrite Hcase. reflexivity.
  - intros [= <-]. simpl. rewrite Hcase.
    split; [reflexivity|eexists; reflexivity].
  - intros [= <-]. reflexivity.
  - intros [= <-]. exact I.
  - destruct (getChild node "FootnoteRefBody") as [body|] eqn:Hbody;
      [|intros [= <-]; exact I].
    intros Hr. fmap_returned Hr as r.
    eapply Hsub in Hr; [apply textsFaithful_NFootnoteRef; exact Hr|typeclasses eauto| |reflexivity].
    apply getChild_height in Hbody. lia.
  - intros Hr. fmap_returned Hr as r.
    eapply Hsub in Hr; [apply textsFaithful_NHighlight; exact Hr|typeclasses eauto| |reflexivity].
    destruct (getChild node "HighlightContent") as [content|] eqn:Hcontent; simpl;
      [apply getChild_height in Hcontent|]; lia.
  - intros Hr. bind_returned Hr as items Hitems.
    apply textsFaithful_NList. simpl. apply forOf_Returned in Hitems.
    eapply Forall2_Forall_out; [exact Hitems|].
    intros item listItem Hitem Hr. eapply Hsub in Hr; [apply textsFaithful_NListItem; exact Hr|typeclasses eauto| |reflexivity]. apply getChildren_height in Hitem. lia.
  - destruct (getChild node "YAMLFrontmatterStart"); intros [= <-]; exact I.
  - destruct (getChildren node "CodeMark") as [|? [|? ?]]; try discriminate.
    intros [= <-]. exact I.
  - intros Hr. fmap_returned Hr as r.
    eapply Hsub in Hr; [apply textsFaithful_NEmphasis; exact Hr|typeclasses eauto| |reflexivity]. lia.
  - intros Hr. bind_returned Hr as rows Hrows.
    apply textsFaithful_NTable. simpl. apply forOf_Returned in Hrows.
    eapply Forall2_Forall_out; [exact Hrows|].
    intros row tableRow Hrow Hr.
    bind_returned Hr as cells Hcells.
    apply textsFaithful_NTableRow. simpl. apply forOf_Returned in Hcells.
    eapply Forall2_Forall_out; [exact Hcells|].
    intros cell tableCell Hcell Hr. eapply Hsub in Hr; [apply textsFaithful_NTableCell; exact Hr|typeclasses eauto| |reflexivity].
    apply getChildren_height in Hcell.
    apply in_app_or in Hrow. destruct Hrow as [Hrow|Hrow];
      apply getChildren_height in Hrow; lia.
  - destruct (getChild node "ZknLinkContent"); try discriminate.
    intros [= <-]. reflexivity.
  - intros [= <-]. reflexivity.
  - intros Hr. fmap_returned Hr as r.
    eapply Hsub in Hr; [apply textsFaithful_NGeneric; exact Hr|typeclasses eauto| |reflexivity]. lia.
Qed.

Lemma parseNode_textsFaithful (node : SyntaxNode) (markdown : string) (astNode : ASTNode) :
  parseNode node markdown = Returned astNode → textsFaithful markdown astNode.
Proof.
  remember (height node) as h eqn:Hh. revert node astNode Hh.
  induction h as [h IH] using lt_wf_ind. intros node astNode ->.
  rewrite parseNode_unfold. apply parseNode_body_textsFaithful.
  intros c child Hc. exact (IH (height c) Hc c child eq_refl).
Qed.

(** C10, amended. The [value] of a Setext heading with a [HeaderMark] child
    has [from = mark.to] and [to = node.to], and its string is the trimmed
    source text before the mark, so the string is in general not the source
    text of the Text node's own range (for [a] underlined with [---] it is
    not). The [value] of every other heading, an ATX heading or a Setext
    heading without a [HeaderMark] child, holds the trimmed source text of
    its own range, which is not the verbatim one either (for a Setext
    heading without a mark over [ a ] it is [a]). Every Text node of a
    conversion that is not the [value] of a heading holds the source text
    of its own range. *)
Theorem setext_heading_value_range :
  (∀ (node mark : SyntaxNode) (markdown : string),
      In (name node) setextHeadings →
      getChild node "HeaderMark" = Some mark →
      ∃ h, parseNode node markdown = Returned (NHeading h)
           ∧ md_name (text_md (heading_value h)) = "text"
           ∧ md_from (text_md (heading_value h)) = to mark
           ∧ md_to (text_md (heading_value h)) = to node
           ∧ value (heading_value h)
             = JS.trim (JS.substring markdown (from node) (from mark)))
  ∧ (∃ h, parseNode (setextHeading "2") setextDashes = Returned (NHeading h)
          ∧ ¬ verbatim setextDashes (heading_value h))
  ∧ (∀ (node : SyntaxNode) (markdown : string),
      In (name node) atxHeadings
      ∨ (In (name node) setextHeadings ∧ getChild node "HeaderMark" = None) →
      ∃ h, parseNode node markdown = Returned (NHeading h)
           ∧ md_name (text_md (heading_value h)) = "text"
           ∧ md_from (text_md (heading_value h))
             = match getChild node "HeaderMark" with
               | Some mark => to mark
               | None => from node
               end
           ∧ md_to (text_md (heading_value h)) = to node
           ∧ trimmed markdown (heading_value h))
  ∧ (∃ h, parseNode setextWithoutMark " a " = Returned (NHeading h)
          ∧ (md_from (text_md (heading_value h)),
             md_to (text_md (heading_value h))) = (0, 3)
          ∧ value (heading_value h) = "a"
          ∧ ¬ verbatim " a " (heading_value h))
  ∧ (∀ (node : SyntaxNode) (markdown : string) (astNode : ASTNode),
      parseNode node markdown = Returned astNode →
      textsFaithful markdown astNode).
Proof.
  split; [|split; [|split; [|split]]].
  - intros node mark markdown Hname Hmark.
    rewrite parseNode_unfold. unfold parseNode_body.
    replace (switch (name node)) with CaseSetextHeading
      by (simpl in Hname; repeat destruct Hname as [<-|Hname]; tauto).
    rewrite Hmark. eexists. split; [reflexivity|]. repeat split.
  - eexists. split; [vm_compute; reflexivity|].
    unfold verbatim. vm_compute. discriminate.
  - intros node markdown Hname.
    rewrite parseNode_unfold. unfold parseNode_body.
    destruct Hname as [Hname|[Hname Hmark]].
    + replace (switch (name node)) with CaseATXHeading
        by (simpl in Hname; repeat destruct Hname as [<-|Hname]; tauto).
      eexists. split; [reflexivity|]. repeat split.
    + replace (switch (name node)) with CaseSetextHeading
        by (simpl in Hname; repeat destruct Hname as [<-|Hname]; tauto).
      rewrite Hmark. eexists. split; [reflexivity|]. repeat split.
  - eexists. split; [vm_compute; reflexivity|]. split; [reflexivity|].
    split; [vm_compute; reflexivity|].
    unfold verbatim. vm_compute. discriminate.
  - apply parseNode_textsFaithful.
Qed.

(** ** Strings, continued *)

Lemma prefix_empty (s : string) : String.prefix EmptyString s = true.
Proof. destruct s; reflexivity. Qed.

Lemma substring_all (s : string) : String.substring 0 (String.length s) s = s.
Proof. induction s as [|c s IH]; simpl; [reflexivity|]. rewrite IH. reflexivity. Qed.

(** [s.substring(1)] drops the first code unit. *)
Lemma substringFrom_tail (c : ascii) (s : string) :
  JS.substringFrom (String c s) 1 = s.
Proof.
  unfold JS.substringFrom, JS.substring, JS.clamp.
  set (len := Z.of_nat (String.length (String c s))).
  assert (Hlen : len = Z.of_nat (String.length s) + 1)
    by (subst len; simpl String.length; lia).
  replace (Z.min (Z.max 1 0) len) with 1 by lia.
  replace (Z.min (Z.max len 0) len) with len by lia.
  replace (Z.min 1 len) with 1 by lia.
  replace (Z.max 1 len) with len by lia.
  replace (Z.to_nat (len - 1)) with (String.length s) by lia.
  change (Z.to_nat 1) with 1%nat. simpl. apply substring_all.
Qed.

Lemma split_without_separator (sep : ascii) (s : string) :
  ¬ In sep (list_ascii_of_string s) → JS.split sep s = [s].
Proof.
  induction s as [|c s IH]; simpl; intros Hsep; [reflexivity|].
  destruct (Ascii.eqb_spec c sep) as [->|Hc]; [tauto|].
  rewrite IH by tauto. reflexivity.
Qed.

Lemma split_at_separator (sep : ascii) (k v : string) :
  ¬ In sep (list_ascii_of_string k) →
  JS.split sep (k +:+ String sep v) = k :: JS.split sep v.
Proof.
  induction k as [|c k IH]; simpl; intros Hsep.
  - rewrite Ascii.eqb_refl. reflexivity.
  - destruct (Ascii.eqb_spec c sep) as [->|Hc]; [tauto|].
    rewrite IH by tauto. reflexivity.
Qed.

Lemma includes_false (c : ascii) (s : string) :
  JS.includes s (String c EmptyString) = false → ¬ In c (list_ascii_of_string s).
Proof. intros Hs Hin. apply includes_char in Hin. congruence. Qed.

Lemma includes_append_separator (c : ascii) (k v : string) :
  JS.includes (k +:+ String c v) (String c EmptyString) = true.
Proof.
  apply includes_char. induction k as [|b k IH]; simpl; auto.
Qed.

Lemma startsWith_append (c : ascii) (k rest : string) :
  k ≠ EmptyString →
  JS.startsWith (k +:+ rest) (String c EmptyString)
  = JS.startsWith k (String c EmptyString).
Proof.
  unfold JS.startsWith. destruct k as [|b k]; [congruence|]. intros _. simpl.
  destruct (ascii_dec c b); [|reflexivity]. rewrite !prefix_empty. reflexivity.
Qed.

(** ** One raw attribute *)

(** [parseAttribute] merges a well-formed entry as [mergeEntry] says. *)
Lemma parseAttribute_entry (attributes : gmap string string) (entry : AttributeEntry) :
  wellFormedEntry entry →
  parseAttribute attributes (rawAttribute entry) = mergeEntry attributes entry.
Proof.
  intros [_ Hwf]. unfold parseAttribute. destruct entry as [class|id|key value].
  - change (rawAttribute (ClassEntry class)) with (String "." class).
    unfold JS.startsWith. simpl String.prefix. rewrite prefix_empty.
    rewrite substringFrom_tail. reflexivity.
  - change (rawAttribute (IdEntry id)) with (String "#" id).
    unfold JS.startsWith. simpl String.prefix. rewrite prefix_empty.
    rewrite substringFrom_tail. unfold hasProperty. simpl mergeEntry.
    destruct (attributes !! "id"); simpl; [|reflexivity].
    change (JS.includes (String "#" id) "=")
      with (String.prefix "=" (String "#" id) || JS.includes id "=").
    change (JS.split "=" (String "#" id))
      with (match JS.split "=" id with
            | p :: ps => String "#" p :: ps
            | [] => [String "#" EmptyString]
            end).
    destruct (JS.includes id "=") eqn:Hid; simpl.
    + destruct (JS.split "=" id) as [|k [|v [|w parts]]]; reflexivity.
    + rewrite split_without_separator by (apply includes_false; exact Hid).
      reflexivity.
  - destruct Hwf as [Hkey [Hvalue [Hdot Hhash]]].
    change (rawAttribute (KeyValueEntry key value)) with (key +:+ String "=" value).
    assert (Hstart : ∀ c : ascii, c ≠ "="%char →
              JS.startsWith key (String c EmptyString) = false →
              JS.startsWith (key +:+ String "=" value) (String c EmptyString) = false).
    { intros c Hc Hk. destruct key as [|b key].
      - unfold JS.startsWith. simpl. destruct (ascii_dec c "="); [contradiction|reflexivity].
      - rewrite startsWith_append by discriminate. exact Hk. }
    rewrite (Hstart "."%char) by (discriminate || exact Hdot).
    rewrite (Hstart "#"%char) by (discriminate || exact Hhash). simpl.
    rewrite includes_append_separator.
    rewrite split_at_separator by (apply includes_false; exact Hkey).
    rewrite split_without_separator by (apply includes_false; exact Hvalue).
    reflexivity.
Qed.

Lemma parseAttribute_entries (entries : list AttributeEntry) :
  Forall wellFormedEntry entries →
  ∀ attributes,
    fold_left parseAttribute (map rawAttribute entries) attributes
    = fold_left mergeEntry entries attributes.
Proof.
  induction 1 as [|entry entries Hentry _ IH]; intros attributes; simpl; [reflexivity|].
  rewrite parseAttribute_entry by exact Hentry. apply IH.
Qed.

(** ** The words of an attribute block *)

Lemma splitWhiteSpace_word (w : string) :
  noWhiteSpace w = true → JS.splitWhiteSpace_from false w = [w].
Proof.
  induction w as [|c w IH]; simpl; [reflexivity|].
  destruct (JS.isWhiteSpace c); simpl; [discriminate|].
  intros Hw. rewrite IH by exact Hw. reflexivity.
Qed.

Lemma splitWhiteSpace_word_space (w rest : string) :
  noWhiteSpace w = true →
  JS.splitWhiteSpace_from false (w +:+ String " " rest)
  = w :: JS.splitWhiteSpace_from true rest.
Proof.
  induction w as [|c w IH]; simpl; [reflexivity|].
  destruct (JS.isWhiteSpace c); simpl; [discriminate|].
  intros Hw. rewrite IH by exact Hw. reflexivity.
Qed.

Lemma splitWhiteSpace_after_run (c : ascii) (s : string) :
  JS.isWhiteSpace c = false →
  JS.splitWhiteSpace_from true (String c s) = JS.splitWhiteSpace_from false (String c s).
Proof. intros Hc. simpl. rewrite Hc. reflexivity. Qed.

Lemma unwords_first (w : string) (rest : list string) :
  isWord w →
  ∃ c s, unwords (w :: rest) = String c s ∧ JS.isWhiteSpace c = false.
Proof.
  intros [Hne Hw]. destruct w as [|c w]; [congruence|].
  simpl in Hw. apply andb_true_iff in Hw. destruct Hw as [Hc _].
  apply negb_true_iff in Hc.
  destruct rest as [|w' rest]; simpl; eauto.
Qed.

Lemma splitWhiteSpace_from_unwords (words : list string) :
  words ≠ [] → Forall isWord words →
  JS.splitWhiteSpace_from false (unwords words) = words.
Proof.
  induction words as [|w words IH]; [congruence|]. intros _ Hwords.
  inversion Hwords as [|w' words' Hw Hrest]; subst.
  destruct words as [|w2 words].
  - simpl. apply splitWhiteSpace_word, Hw.
  - change (unwords (w :: w2 :: words))
      with (w +:+ String " " (unwords (w2 :: words))).
    rewrite splitWhiteSpace_word_space by apply Hw.
    inversion Hrest as [|w2' words2 Hw2 _]; subst.
    destruct (unwords_first w2 words Hw2) as [c [s [Hcs Hc]]].
    rewrite Hcs, splitWhiteSpace_after_run, <- Hcs by exact Hc.
    rewrite IH; [reflexivity|discriminate|exact Hrest].
Qed.

(** [split(/\s+/)] gives back the words that single spaces separate. *)
Lemma splitWhiteSpace_unwords (words : list string) :
  words ≠ [] → Forall isWord words →
  JS.splitWhiteSpace (unwords words) = words.
Proof.
  intros Hne Hwords. rewrite <- (splitWhiteSpace_from_unwords words Hne Hwords) at 2.
  destruct words as [|w words]; [congruence|].
  inversion Hwords as [|w' words' Hw _]; subst.
  destruct (unwords_first w words Hw) as [c [s [-> Hc]]].
  unfold JS.splitWhiteSpace. rewrite Hc. reflexivity.
Qed.

Lemma rawAttribute_isWord (entry : AttributeEntry) :
  wellFormedEntry entry → isWord (rawAttribute entry).
Proof.
  intros [Hword _]. split; [|exact Hword].
  destruct entry as [class|id|[|c key] value]; discriminate.
Qed.

(** One attribute block merges its entries in their order. *)
Lemma parseAttributeNode_block (oldAttributes : option (gmap string string))
    (node : SyntaxNode) (markdown : string) (entries : list AttributeEntry) :
  name node = "PandocAttribute" →
  entries ≠ [] →
  Forall wellFormedEntry entries →
  JS.substring markdown (from node + 1) (to node - 1)
  = unwords (map rawAttribute entries) →
  parseAttributeNode oldAttributes node markdown
  = fold_left mergeEntry entries (default ∅ oldAttributes).
Proof.
  intros Hname Hne Hwf Hraw. unfold parseAttributeNode.
  rewrite Hname. simpl negb. cbv iota. rewrite Hraw.
  rewrite splitWhiteSpace_unwords.
  - apply parseAttribute_entries. exact Hwf.
  - destruct entries; [congruence|discriminate].
  - apply Forall_map. eapply Forall_impl; [exact Hwf|].
    intros entry. apply rawAttribute_isWord.
Qed.

(** ** The attributes that [parseChildren] collects *)

Lemma parseChildren_loop_attributes {T : Type} `{HasChildrenLaws T}
    (rec : SyntaxNode → string → Outcome ASTNode)
    (node : SyntaxNode) (markdown : string) (siblings : list SyntaxNode) :
  ∀ (astNode r : T) (currentIndex i : Z),
    parseChildren_loop rec node markdown siblings astNode currentIndex = Returned (r, i) →
    md_attributes (md_of r)
    = fold_left (mergeBlock markdown)
        (List.filter (fun c => String.eqb (name c) "PandocAttribute") siblings)
        (md_attributes (md_of astNode)).
Proof.
  induction siblings as [|c siblings IH]; simpl; intros a r idx i.
  - intros [= <- <-]. reflexivity.
  - set (a1 := if _ && _ then _ else a).
    assert (Ha1 : md_of a1 = md_of a).
    { subst a1. destruct (_ && _); [|reflexivity].
      unfold push_child. apply md_of_set_children. }
    clearbody a1. destruct (String.eqb (name c) "PandocAttribute"); simpl.
    + intros Hloop. apply IH in Hloop. rewrite Hloop.
      rewrite md_of_set_attributes, Ha1. reflexivity.
    + destruct (rec c markdown) as [child| |]; simpl; try discriminate.
      intros Hloop. apply IH in Hloop. rewrite Hloop. unfold push_child.
      rewrite md_of_set_children, Ha1. reflexivity.
Qed.

(** The attributes of the result: the [PandocAttribute] sub-nodes merged,
    in document order, onto the attributes of the node under construction. *)
Lemma parseChildren_attributes {T : Type} `{HasChildrenLaws T}
    (rec : SyntaxNode → string → Outcome ASTNode)
    (astNode r : T) (node : SyntaxNode) (markdown : string) :
  parseChildren rec astNode node markdown = Returned r →
  md_attributes (md_of r)
  = fold_left (mergeBlock markdown) (getChildren node "PandocAttribute")
      (md_attributes (md_of astNode)).
Proof.
  unfold parseChildren, getChildren. destruct (children node) as [|c cs].
  - destruct (negb _); intros [= <-]; [|reflexivity].
    rewrite md_of_set_children. reflexivity.
  - intros Hr. apply bind_Returned in Hr. destruct Hr as [[a i] [Hloop Hr]].
    apply parseChildren_loop_attributes in Hloop.
    rewrite md_of_set_children in Hloop.
    destruct (_ && _); injection Hr as <-; [unfold push_child|];
      rewrite ?md_of_set_children; exact Hloop.
Qed.

(** Blocks merged one after the other merge all their entries in order. *)
Lemma mergeBlock_blocks (markdown : string) (nodes : list SyntaxNode)
    (blocks : list (list AttributeEntry)) :
  Forall2 (fun block entries =>
             name block = "PandocAttribute" ∧ entries ≠ []
             ∧ Forall wellFormedEntry entries
             ∧ JS.substring markdown (from block + 1) (to block - 1)
               = unwords (map rawAttribute entries)) nodes blocks →
  nodes ≠ [] →
  ∀ attributes,
    fold_left (mergeBlock markdown) nodes attributes
    = Some (fold_left mergeEntry (concat blocks) (default ∅ attributes)).
Proof.
  induction 1 as [|block entries nodes blocks Hblock Hrest IH]; [congruence|].
  intros _ attributes. destruct Hblock as [Hname [Hne [Hwf Hraw]]].
  simpl. unfold mergeBlock at 2.
  rewrite (parseAttributeNode_block attributes block markdown entries)
    by assumption.
  rewrite fold_left_app. destruct Hrest as [|block' entries' nodes blocks Hb Hr].
  - reflexivity.
  - apply IH. discriminate.
Qed.

(** ** The order policy of the merge *)

Lemma joined_snoc (classes : list string) (class : string) :
  joined (classes ++ [class])
  = Some match joined classes with
         | Some old => old +:+ " " +:+ class
         | None => class
         end.
Proof.
  destruct classes as [|c classes]; simpl; [reflexivity|].
  rewrite fold_left_app. reflexivity.
Qed.

Lemma head_snoc {A : Type} (l : list A) (x : A) :
  head (l ++ [x]) = match head l with Some y => Some y | None => Some x end.
Proof. destruct l; reflexivity. Qed.

(** The lookups that one merged entry leaves as they are. *)
Lemma mergeEntry_other (attributes : gmap string string) (entry : AttributeEntry)
    (key : string) :
  JS.startsWith key "#" = false →
  match entry with
  | ClassEntry _ => key ≠ "class"
  | IdEntry _ => key ≠ "id"
  | KeyValueEntry key' _ => key' ≠ key
  end →
  mergeEntry attributes entry !! key = attributes !! key.
Proof.
  intros Hhash Hkey. destruct entry as [class|id|key' value]; simpl.
  - destruct (attributes !! "class"); apply lookup_insert_ne; congruence.
  - destruct (attributes !! "id"); [|apply lookup_insert_ne; congruence].
    destruct (JS.split "=" id) as [|k [|v [|w parts]]]; try reflexivity.
    apply lookup_insert_ne. intros <-.
    unfold JS.startsWith in Hhash. simpl in Hhash.
    rewrite prefix_empty in Hhash. discriminate.
  - destruct (String.eqb key' "__proto__"); [reflexivity|].
    apply lookup_insert_ne. exact Hkey.
Qed.

(** The classes accumulate onto the [class] there is, as long as no
    key=value entry sets [class]. *)
Lemma mergeEntry_class (attributes : gmap string string)
    (entries : list AttributeEntry) :
  valuesOf "class" entries = [] →
  fold_left mergeEntry entries attributes !! "class"
  = match attributes !! "class" with
    | Some class => joined (class :: classesOf entries)
    | None => joined (classesOf entries)
    end.
Proof.
  induction entries as [|entry entries IH] using rev_ind.
  - intros _. simpl. destruct (attributes !! "class"); reflexivity.
  - unfold classesOf, valuesOf in *. rewrite !flat_map_app. simpl.
    rewrite !app_nil_r. intros Hnone. apply app_eq_nil in Hnone.
    destruct Hnone as [Hnone Hentry]. specialize (IH Hnone).
    rewrite fold_left_app. simpl fold_left.
    set (m := fold_left mergeEntry entries attributes) in *.
    destruct entry as [class|id|key value].
    + simpl flat_map. fold (classesOf entries) in *.
      assert (Hclass : mergeEntry m (ClassEntry class) !! "class"
                       = Some match m !! "class" with
                              | Some old => old +:+ " " +:+ class
                              | None => class
                              end)
        by (simpl; destruct (m !! "class"); apply lookup_insert_eq).
      rewrite Hclass, IH. destruct (attributes !! "class") as [old|].
      * change (Some (fold_left (fun acc c => acc +:+ " " +:+ c)
                        (classesOf entries ++ [class]) old))
          with (joined ((old :: classesOf entries) ++ [class])).
        rewrite joined_snoc. reflexivity.
      * rewrite joined_snoc. reflexivity.
    + simpl flat_map. rewrite app_nil_r.
      rewrite mergeEntry_other; [exact IH|reflexivity|discriminate].
    + simpl flat_map. rewrite app_nil_r.
      rewrite mergeEntry_other; [exact IH|reflexivity|].
      intros ->. discriminate.
Qed.

(** The order of the merge, from no attributes at all. The classes
    accumulate in their order, onto the value of the last [class=value]
    entry when there is one. The [id] is the value of the last [id=value]
    entry when there is one, and the first identifier otherwise. The last
    value of any other key stays. *)
Lemma mergeEntry_order (entries : list AttributeEntry) :
  (valuesOf "class" entries = [] →
   fold_left mergeEntry entries ∅ !! "class" = joined (classesOf entries))
  ∧ (∀ before value after,
       entries = before ++ KeyValueEntry "class" value :: after →
       valuesOf "class" after = [] →
       fold_left mergeEntry entries ∅ !! "class"
       = joined (value :: classesOf after))
  ∧ fold_left mergeEntry entries ∅ !! "id"
    = match last (valuesOf "id" entries) with
      | Some value => Some value
      | None => head (idsOf entries)
      end
  ∧ (∀ key, key ≠ "class" → key ≠ "id" → key ≠ "__proto__" →
       JS.startsWith key "#" = false →
       fold_left mergeEntry entries ∅ !! key = last (valuesOf key entries)).
Proof.
  split; [|split; [|split]].
  - intros Hnone. rewrite mergeEntry_class by exact Hnone.
    rewrite lookup_empty. reflexivity.
  - intros before value after -> Hnone.
    rewrite fold_left_app. simpl fold_left.
    rewrite mergeEntry_class by exact Hnone.
    change (mergeEntry (fold_left mergeEntry before ∅) (KeyValueEntry "class" value))
      with (<["class" := value]> (fold_left mergeEntry before ∅)).
    rewrite lookup_insert_eq. reflexivity.
  - induction entries as [|entry entries IH] using rev_ind; [reflexivity|].
    unfold idsOf, valuesOf in *. rewrite !flat_map_app, fold_left_app.
    simpl fold_left. set (m := fold_left mergeEntry entries ∅) in *.
    destruct entry as [class|id|key value]; simpl flat_map; rewrite ?app_nil_r.
    + rewrite mergeEntry_other; [exact IH|reflexivity|discriminate].
    + rewrite head_snoc.
      assert (Hid : mergeEntry m (IdEntry id) !! "id"
                    = match m !! "id" with Some old => Some old | None => Some id end).
      { simpl. destruct (m !! "id") as [old|] eqn:Hold; [|apply lookup_insert_eq].
        destruct (JS.split "=" id) as [|k [|v [|w parts]]]; try exact Hold.
        rewrite lookup_insert_ne by discriminate. exact Hold. }
      rewrite Hid, IH.
      destruct (last (flat_map _ entries)); [reflexivity|].
      destruct (head (flat_map _ entries)); reflexivity.
    + destruct (String.eqb_spec key "id") as [->|Hkey].
      * rewrite last_snoc. apply lookup_insert_eq.
      * rewrite app_nil_r.
        rewrite mergeEntry_other; [exact IH|reflexivity|exact Hkey].
  - intros key Hclass Hid Hproto Hhash.
    induction entries as [|entry entries IH] using rev_ind; [apply lookup_empty|].
    unfold valuesOf in *. rewrite flat_map_app, fold_left_app.
    simpl fold_left. set (m := fold_left mergeEntry entries ∅) in *.
    destruct entry as [class|id|key' value]; simpl flat_map; rewrite ?app_nil_r.
    + rewrite mergeEntry_other; [exact IH|exact Hhash|exact Hclass].
    + rewrite mergeEntry_other; [exact IH|exact Hhash|exact Hid].
    + destruct (String.eqb_spec key' key) as [->|Hkey].
      * rewrite last_snoc. simpl.
        destruct (String.eqb_spec key "__proto__") as [Heq|_]; [contradiction|].
        apply lookup_insert_eq.
      * rewrite app_nil_r.
        rewrite mergeEntry_other; [exact IH|exact Hhash|exact Hkey].
Qed.

(** C6, amended. The Pandoc attribute blocks of a node are merged onto the
    node in their order: the [.class] entries accumulate in [class],
    separated by single spaces, in the order of their occurrence, onto the
    value of the last [class=value] entry when there is one, and then only
    those after it; [id] is the value of the last [id=value] entry when
    there is one, and otherwise the first [#id] entry, the later ones
    leaving it as it is (one that reads [#key=value] is kept under the key
    [#key]); of the [key=value] entries with the same key, each with one
    [=] and the key [__proto__] apart, the last one stays. The blocks
    [{.a #one key=1}] and [{.b #two key=2}] give the class [a b], the id
    [one] and the key [2]. *)
Theorem attribute_merge_order :
  (∀ (T : Type) (HT : HasChildren T) (HL : HasChildrenLaws T) (astNode r : T)
     (node : SyntaxNode) (markdown : string) (blocks : list (list AttributeEntry)),
      md_attributes (md_of astNode) = None →
      parseChildren parseNode astNode node markdown = Returned r →
      Forall2 (fun block entries =>
                 entries ≠ [] ∧ Forall wellFormedEntry entries
                 ∧ JS.substring markdown (from block + 1) (to block - 1)
                   = unwords (map rawAttribute entries))
        (getChildren node "PandocAttribute") blocks →
      blocks ≠ [] →
      ∃ attributes,
        md_attributes (md_of r) = Some attributes
        ∧ attributes = fold_left mergeEntry (concat blocks) ∅
        ∧ (valuesOf "class" (concat blocks) = [] →
           attributes !! "class" = joined (classesOf (concat blocks)))
        ∧ (∀ before value after,
             concat blocks = before ++ KeyValueEntry "class" value :: after →
             valuesOf "class" after = [] →
             attributes !! "class" = joined (value :: classesOf after))
        ∧ attributes !! "id"
          = match last (valuesOf "id" (concat blocks)) with
            | Some value => Some value
            | None => head (idsOf (concat blocks))
            end
        ∧ (∀ key, key ≠ "class" → key ≠ "id" → key ≠ "__proto__" →
             JS.startsWith key "#" = false →
             attributes !! key = last (valuesOf key (concat blocks))))
  ∧ (∃ g attributes,
       parseNode attributedParagraph attributedSource = Returned (NGeneric g)
       ∧ md_attributes (generic_md g) = Some attributes
       ∧ attributes !! "class" = Some "a b"
       ∧ attributes !! "id" = Some "one"
       ∧ attributes !! "key" = Some "2").
Proof.
  split.
  - intros T HT HL astNode r node markdown blocks Hnone Hr Hblocks Hne.
    apply parseChildren_attributes in Hr. rewrite Hnone in Hr.
    rewrite (mergeBlock_blocks markdown _ blocks) in Hr.
    + eexists. split; [exact Hr|]. split; [reflexivity|].
      apply mergeEntry_order.
    + clear Hr. unfold getChildren in *.
      set (nodes := List.filter _ _) in *.
      assert (Hnames : Forall (fun c => name c = "PandocAttribute") nodes).
      { apply Forall_forall. intros c Hc. apply list_elem_of_In in Hc.
        apply filter_In in Hc. apply String.eqb_eq. tauto. }
      clearbody nodes. induction Hblocks as [|c es nodes blocks Hc Hrest IH];
        constructor.
      * inversion Hnames; subst. tauto.
      * inversion Hnames; subst. destruct Hrest; [constructor|].
        apply IH; [discriminate|assumption].
    + destruct Hblocks; [congruence|discriminate].
  - eexists _, _. split; [vm_compute; reflexivity|].
    split; [reflexivity|]. repeat split; vm_compute; reflexivity.
Qed.

(** * Further properties of the converter *)

(** ** Exceptions and results *)

(** X1. [parseNode] throws exactly when the conversion reaches a [ZknLink]
    node without a [ZknLinkContent] child or an [InlineCode] node with fewer
    than two [CodeMark] children; when it reaches no such node, it returns
    a node. *)
Theorem parseNode_throws_or_returns (node : SyntaxNode) (markdown : string) :
  (throws (parseNode node markdown) ↔ ∃ d, reaches node d ∧ throwsAt d = true)
  ∧ ((∀ d, reaches node d → throwsAt d = false) →
     ∃ astNode, parseNode node markdown = Returned astNode).
Proof.
  split; [apply parseNode_throws_iff|].
  intros Hnone. destruct (parseNode node markdown) as [a|e|] eqn:Hr.
  - eauto.
  - assert (Hthrows : throws (parseNode node markdown))
      by (rewrite Hr; unfold throws; eauto).
    apply parseNode_throws_iff in Hthrows. destruct Hthrows as [d [Hd Hat]].
    rewrite (Hnone d Hd) in Hat. discriminate.
  - exfalso. exact (parseNode_terminates node markdown Hr).
Qed.

(** ** The type of the result *)

Lemma parseNode_body_type (rec : SyntaxNode → string → Outcome ASTNode)
    (node : SyntaxNode) (markdown : string) (astNode : ASTNode) :
  parseNode_body rec node markdown = Returned astNode →
  typeOf astNode =
  match switch (name node) with
  | CaseLinkOrImage =>
      match getChild node "URL" with
      | Some _ => name node
      | None => "Generic"
      end
  | CaseURL => "Link"
  | CaseATXHeading | CaseSetextHeading => "Heading"
  | CaseCitation => "Citation"
  | CaseFootnote => "Footnote"
  | CaseFootnoteRef => "FootnoteRef"
  | CaseHighlight => "Highlight"
  | CaseList => "List"
  | CaseCode =>
      match getChild node "YAMLFrontmatterStart" with
      | Some _ => "YAMLFrontmatter"
      | None => "FencedCode"
      end
  | CaseInlineCode => "InlineCode"
  | CaseEmphasis => "Emphasis"
  | CaseTable => "Table"
  | CaseZknLink => "ZettelkastenLink"
  | CaseZknTag => "ZettelkastenTag"
  | CaseDefault => "Generic"
  end.
Proof.
  unfold parseNode_body. destruct (switch (name node)) eqn:Hcase.
  - assert (Hname : typeOf (NLinkOrImage {|
               link_type := if String.eqb (name node) "Image" then Image else Link;
               link_md := mdNode (name node) (from node) (to node);
               url := genericTextNode 0 0 ""; alt := genericTextNode 0 0 "";
               title := None |}) = name node).
    { simpl. unfold switch in Hcase.
      destruct (String.eqb_spec (name node) "Image") as [->|_]; [reflexivity|].
      destruct (String.eqb_spec (name node) "Link") as [->|_]; [reflexivity|].
      simpl in Hcase.
      repeat match type of Hcase with
             | (if ?b then _ else _) = _ => destruct b; try discriminate
             end. }
    destruct (getChild node "URL"); [|intros [= <-]; reflexivity].
    destruct (getChild node "LinkLabel"); [intros [= <-]; exact Hname|].
    destruct (getChildren node "LinkMark") as [|? [|? ?]];
      intros [= <-]; exact Hname.
  - intros [= <-]. reflexivity.
  - intros [= <-]. reflexivity.
  - intros [= <-]. reflexivity.
  - intros [= <-]. reflexivity.
  - intros [= <-]. reflexivity.
  - destruct (getChild node "FootnoteRefBody"); [|intros [= <-]; reflexivity].
    intros Hr. fmap_returned Hr as r. reflexivity.
  - intros Hr. fmap_returned Hr as r. reflexivity.
  - intros Hr. bind_returned Hr as items Hitems. reflexivity.
  - destruct (getChild node "YAMLFrontmatterStart"); intros [= <-]; reflexivity.
  - destruct (getChildren node "CodeMark") as [|? [|? ?]]; try discriminate.
    intros [= <-]. reflexivity.
  - intros Hr. fmap_returned Hr as r. reflexivity.
  - intros Hr. bind_returned Hr as rows Hrows. reflexivity.
  - destruct (getChild node "ZknLinkContent"); try discriminate.
    intros [= <-]. reflexivity.
  - intros [= <-]. reflexivity.
  - intros Hr. fmap_returned Hr as r. reflexivity.
Qed.

Lemma switch_default (name : string) :
  ¬ In name handledKinds → switch name = CaseDefault.
Proof.
  intros Hname. unfold switch.
  repeat match goal with
         | |- context [String.eqb name ?s] =>
             destruct (String.eqb_spec name s) as [->|_];
             [exfalso; apply Hname; simpl; tauto|]
         end.
  reflexivity.
Qed.

Lemma parseNode_not_text (node : SyntaxNode) (markdown : string) (astNode : ASTNode) :
  parseNode node markdown = Returned astNode → isText astNode = false.
Proof.
  rewrite parseNode_unfold. intros Hr. apply parseNode_body_type in Hr.
  destruct astNode; try reflexivity. simpl in Hr. exfalso.
  destruct (switch (name node)) eqn:Hcase; try discriminate.
  - destruct (getChild node "URL"); [|discriminate].
    rewrite <- Hr in Hcase. discriminate.
  - destruct (getChild node "YAMLFrontmatterStart"); discriminate.
Qed.

(** X2. The [type] of the node that [parseNode] returns follows from the
    kind of the input node: a kind without a case of its own gives
    [Generic], [URL] gives [Link], [Link] and [Image] give their own name
    with a [URL] child and [Generic] without, [CodeBlock] gives what
    [FencedCode] gives, namely [YAMLFrontmatter] with a
    [YAMLFrontmatterStart] child and [FencedCode] without, and
    [StrongEmphasis] gives [Emphasis]. The result is never of the types
    [Text], [ListItem], [TableRow] or [TableCell], which occur inside other
    nodes only. *)
Theorem parseNode_result_type (node : SyntaxNode) (markdown : string)
    (astNode : ASTNode) :
  parseNode node markdown = Returned astNode →
  (¬ In (name node) handledKinds → typeOf astNode = "Generic")
  ∧ (name node = "URL" → typeOf astNode = "Link")
  ∧ (name node = "Link" ∨ name node = "Image" →
     typeOf astNode = match getChild node "URL" with
                      | Some _ => name node
                      | None => "Generic"
                      end)
  ∧ (name node = "FencedCode" ∨ name node = "CodeBlock" →
     typeOf astNode = match getChild node "YAMLFrontmatterStart" with
                      | Some _ => "YAMLFrontmatter"
                      | None => "FencedCode"
                      end)
  ∧ (name node = "Emphasis" ∨ name node = "StrongEmphasis" →
     typeOf astNode = "Emphasis")
  ∧ ¬ In (typeOf astNode) ["Text"; "ListItem"; "TableRow"; "TableCell"].
Proof.
  intros Hr. pose proof Hr as Hr'. rewrite parseNode_unfold in Hr'.
  apply parseNode_body_type in Hr'.
  repeat split.
  - intros Hname. rewrite Hr', (switch_default _ Hname). reflexivity.
  - intros Hname. rewrite Hr', Hname. reflexivity.
  - intros [Hname|Hname]; rewrite Hr', Hname; reflexivity.
  - intros [Hname|Hname]; rewrite Hr', Hname; reflexivity.
  - intros [Hname|Hname]; rewrite Hr', Hname; reflexivity.
  - rewrite Hr'. clear Hr Hr'. simpl.
    destruct (switch (name node)) eqn:Hcase;
      repeat match goal with
             | |- context [match ?x with Some _ => _ | None => _ end] => destruct x
             end;
      try (intros [H|[H|[H|[H|[]]]]]; discriminate).
    all: intros [H|[H|[H|[H|[]]]]]; rewrite <- H in Hcase; discriminate.
Qed.

(** ** Links and images, in full *)

(** X3. A [Link] or [Image] node with a [URL] child never throws. The [url]
    of the result is the text of the first [URL] child with its range; the
    [alt] is the text between the end of the first and the start of the
    second [LinkMark] child when the node has no [LinkLabel] child and at
    least two marks, and a copy of [url] in every other case; there is never
    a [title]. *)
Theorem link_url_and_alt (node urlNode : SyntaxNode) (markdown : string) :
  name node = "Link" ∨ name node = "Image" →
  getChild node "URL" = Some urlNode →
  ∃ l, parseNode node markdown = Returned (NLinkOrImage l)
       ∧ link_type l = (if String.eqb (name node) "Image" then Image else Link)
       ∧ url l = genericTextNode (from urlNode) (to urlNode) (textOf markdown urlNode)
       ∧ alt l =
         match getChild node "LinkLabel", getChildren node "LinkMark" with
         | None, mark0 :: mark1 :: _ =>
             genericTextNode (to mark0) (from mark1)
               (JS.substring markdown (to mark0) (from mark1))
         | _, _ => url l
         end
       ∧ title l = None.
Proof.
  intros Hname Hurl. rewrite parseNode_unfold. unfold parseNode_body.
  replace (switch (name node)) with CaseLinkOrImage
    by (destruct Hname as [-> | ->]; reflexivity).
  rewrite Hurl.
  destruct (getChild node "LinkLabel"); [eexists; repeat split|].
  destruct (getChildren node "LinkMark") as [|? [|? ?]]; eexists; repeat split.
Qed.

(** ** The sub-nodes among the children *)

Section Conversions.

Context {T : Type} `{HasChildrenLaws T}.
Variable rec : SyntaxNode → string → Outcome ASTNode.
Variable markdown : string.
Hypothesis rec_not_text :
  ∀ c child, rec c markdown = Returned child → isText child = false.

Lemma parseChildren_loop_conversions (node : SyntaxNode) (siblings : list SyntaxNode) :
  ∀ (astNode r : T) (currentIndex i : Z),
    parseChildren_loop rec node markdown siblings astNode currentIndex = Returned (r, i) →
    ∃ cs,
      children_of r = children_of astNode ++ cs
      ∧ Forall2 (fun c child => rec c markdown = Returned child)
          (List.filter (fun c => negb (String.eqb (name c) "PandocAttribute")) siblings)
          (List.filter (fun x => negb (isText x)) cs)
      ∧ (JS.Array_includes EMPTY_NODES (name node) = true →
         List.filter (fun x => negb (isText x)) cs = cs).
Proof.
  induction siblings as [|c siblings IH]; simpl; intros a r idx i.
  - intros [= <- <-]. exists []. rewrite app_nil_r. simpl. auto.
  - set (a1 := if _ && _ then _ else a).
    assert (Ha1 : ∃ gap, children_of a1 = children_of a ++ gap
                         ∧ List.filter (fun x => negb (isText x)) gap = []
                         ∧ (JS.Array_includes EMPTY_NODES (name node) = true → gap = [])).
    { subst a1. destruct (JS.Array_includes EMPTY_NODES (name node)); simpl.
      - rewrite andb_false_r. exists []. rewrite app_nil_r. auto.
      - rewrite andb_true_r. destruct (idx <? from c).
        + eexists [_]. unfold push_child. rewrite children_of_set_children.
          split; [reflexivity|]. split; [reflexivity|discriminate].
        + exists []. rewrite app_nil_r. auto. }
    clearbody a1. destruct Ha1 as [gap [Hgap [Htext Hempty]]].
    destruct (String.eqb (name c) "PandocAttribute"); simpl.
    + intros Hloop. apply IH in Hloop. destruct Hloop as [cs [Hcs [Hconv Hkind]]].
      exists (gap ++ cs).
      rewrite Hcs, children_of_set_attributes, Hgap, <- app_assoc.
      split; [reflexivity|]. rewrite List.filter_app, Htext. simpl.
      split; [exact Hconv|]. intros Hk. rewrite (Hempty Hk). simpl. auto.
    + destruct (rec c markdown) as [child| |] eqn:Hc; simpl; try discriminate.
      intros Hloop. apply IH in Hloop. destruct Hloop as [cs [Hcs [Hconv Hkind]]].
      exists (gap ++ child :: cs).
      unfold push_child in Hcs. rewrite children_of_set_children in Hcs.
      rewrite Hcs, Hgap, <- !app_assoc.
      split; [reflexivity|]. rewrite List.filter_app, Htext. simpl.
      rewrite (rec_not_text c child Hc). simpl.
      split; [constructor; assumption|].
      intros Hk. rewrite (Hempty Hk), (Hkind Hk). reflexivity.
Qed.

Lemma parseChildren_conversions (astNode r : T) (node : SyntaxNode) :
  children_of astNode = [] →
  parseChildren rec astNode node markdown = Returned r →
  Forall2 (fun c child => rec c markdown = Returned child)
    (convertedChildren node)
    (List.filter (fun x => negb (isText x)) (children_of r))
  ∧ (JS.Array_includes EMPTY_NODES (name node) = true →
     List.filter (fun x => negb (isText x)) (children_of r) = children_of r).
Proof.
  intros Hstart. unfold parseChildren, convertedChildren.
  destruct (children node) as [|c cs] eqn:Hcs.
  - destruct (JS.Array_includes EMPTY_NODES (name node)); simpl; intros [= <-].
    + rewrite Hstart. simpl. split; [constructor|reflexivity].
    + rewrite children_of_set_children. simpl. split; [constructor|discriminate].
  - intros Hr. apply bind_Returned in Hr. destruct Hr as [[a i] [Hloop Hr]].
    apply parseChildren_loop_conversions in Hloop.
    destruct Hloop as [kids [Hkids [Hconv Hkind]]].
    rewrite children_of_set_children in Hkids. simpl in Hkids.
    destruct (JS.Array_includes EMPTY_NODES (name node)); simpl in Hr.
    + rewrite andb_false_r in Hr. injection Hr as <-. rewrite Hkids. auto.
    + rewrite andb_true_r in Hr. destruct (i <? to node); injection Hr as <-.
      * unfold push_child. rewrite children_of_set_children, Hkids.
        rewrite List.filter_app. simpl. rewrite app_nil_r.
        split; [exact Hconv|discriminate].
      * rewrite Hkids. split; [exact Hconv|discriminate].
Qed.

End Conversions.

(** X4. [parseChildren] converts every sub-node that is no [PandocAttribute]
    and keeps the conversions in document order: they are exactly the
    children of the result that are no Text nodes. For a node of a kind in
    [EMPTY_NODES] the result has no other children: no Text leaf is made for
    the gaps between the sub-nodes, nor for a node without sub-nodes. *)
Theorem parseChildren_converts_in_order {T : Type} `{HasChildrenLaws T}
    (astNode r : T) (node : SyntaxNode) (markdown : string) :
  children_of astNode = [] →
  parseChildren parseNode astNode node markdown = Returned r →
  Forall2 (fun c child => parseNode c markdown = Returned child)
    (convertedChildren node)
    (List.filter (fun x => negb (isText x)) (children_of r))
  ∧ (JS.Array_includes EMPTY_NODES (name node) = true →
     Forall2 (fun c child => parseNode c markdown = Returned child)
       (convertedChildren node) (children_of r)).
Proof.
  intros Hstart Hr.
  destruct (parseChildren_conversions parseNode markdown
              (fun c child => parseNode_not_text c markdown child)
              astNode r node Hstart Hr) as [Hconv Hkind].
  split; [exact Hconv|]. intros Hk. rewrite <- (Hkind Hk). exact Hconv.
Qed.

(** X5. A node of a kind without a case of its own is converted to a
    Generic node with the name and the range of the node, whenever the
    conversion of its sub-nodes returns: unknown kinds never throw by
    themselves. The children that are no Text nodes are the conversions of
    its sub-nodes other than [PandocAttribute], in document order, and a
    node without sub-nodes has the single Text child of its range, or no
    child at all when its kind is in [EMPTY_NODES]. *)
Theorem unknown_kind_is_generic (node : SyntaxNode) (markdown : string) :
  ¬ In (name node) handledKinds →
  (children node = [] →
   parseNode node markdown
   = Returned (NGeneric {|
       generic_md := mdNode (name node) (from node) (to node);
       generic_children :=
         if JS.Array_includes EMPTY_NODES (name node) then []
         else [NText (genericTextNode (from node) (to node)
                        (JS.substring markdown (from node) (to node)))]
     |}))
  ∧ ((∀ c, In c (convertedChildren node) →
           ∃ child, parseNode c markdown = Returned child) →
     ∃ g, parseNode node markdown = Returned (NGeneric g)
          ∧ md_name (generic_md g) = name node
          ∧ md_from (generic_md g) = from node
          ∧ md_to (generic_md g) = to node
          ∧ Forall2 (fun c child => parseNode c markdown = Returned child)
              (convertedChildren node)
              (List.filter (fun x => negb (isText x)) (generic_children g))).
Proof.
  intros Hname. rewrite parseNode_unfold. unfold parseNode_body.
  rewrite (switch_default _ Hname). split.
  - intros Hnone. unfold parseChildren. rewrite Hnone.
    destruct (JS.Array_includes EMPTY_NODES (name node)); reflexivity.
  - intros Hsub.
    destruct (parseChildren parseNode
                {| generic_md := mdNode (name node) (from node) (to node);
                   generic_children := [] |} node markdown) as [g|e|] eqn:Hg.
    + exists g. split; [reflexivity|].
      destruct (parseChildren_md _ _ _ _ _ Hg) as [Hn [Hf Ht]].
      simpl in Hn, Hf, Ht. repeat split; try assumption.
      pose proof (parseChildren_conversions parseNode markdown
                    (fun c child => parseNode_not_text c markdown child)) as Hconv.
      apply Hconv in Hg; [|reflexivity]. apply Hg.
    + exfalso.
      assert (Hthrows : throws (parseChildren parseNode
                {| generic_md := mdNode (name node) (from node) (to node);
                   generic_children := [] |} node markdown))
        by (rewrite Hg; unfold throws; eauto).
      apply parseChildren_throws in Hthrows; [|intros c; apply parseNode_terminates].
      destruct Hthrows as [c [Hc [Hattr [e' He']]]].
      destruct (Hsub c) as [child Hchild]; [|congruence].
      unfold convertedChildren. apply filter_In. split; [exact Hc|].
      apply negb_true_iff, String.eqb_neq. exact Hattr.
    + exfalso. revert Hg. apply parseChildren_fuel.
      intros c. apply parseNode_terminates.
Qed.

(** ** Attributes: presence, growth, and what is ignored *)

(** X6. The attributes of the result of [parseChildren] are the attributes
    of the node under construction with the [PandocAttribute] sub-nodes
    merged onto them in document order. Without such a sub-node they are
    what they were, absent when they were absent; with one they are
    present, even when the blocks hold no entry. *)
Theorem parseChildren_attributes_presence {T : Type} `{HasChildrenLaws T}
    (astNode r : T) (node : SyntaxNode) (markdown : string) :
  parseChildren parseNode astNode node markdown = Returned r →
  md_attributes (md_of r)
  = fold_left (fun attributes block =>
                 Some (parseAttributeNode attributes block markdown))
      (getChildren node "PandocAttribute") (md_attributes (md_of astNode))
  ∧ (getChildren node "PandocAttribute" = [] →
     md_attributes (md_of r) = md_attributes (md_of astNode))
  ∧ (getChildren node "PandocAttribute" ≠ [] →
     is_Some (md_attributes (md_of r))).
Proof.
  intros Hr. apply parseChildren_attributes in Hr. unfold mergeBlock in Hr.
  split; [exact Hr|]. split.
  - intros Hnone. rewrite Hr, Hnone. reflexivity.
  - intros Hsome. rewrite Hr.
    destruct (getChildren node "PandocAttribute") as [|b blocks] using rev_ind;
      [congruence|].
    rewrite fold_left_app. simpl. eauto.
Qed.

Lemma parseAttribute_keeps_keys (attributes : gmap string string) (attribute key : string) :
  is_Some (attributes !! key) → is_Some (parseAttribute attributes attribute !! key).
Proof.
  intros Hkey.
  assert (Hinsert : ∀ k v, is_Some (<[k := v]> attributes !! key)).
  { intros k v. destruct (decide (k = key)) as [->|Hne].
    - rewrite lookup_insert_eq. eauto.
    - rewrite lookup_insert_ne by exact Hne. exact Hkey. }
  unfold parseAttribute.
  destruct (JS.startsWith attribute ".").
  { destruct (attributes !! "class"); apply Hinsert. }
  destruct (JS.startsWith attribute "#" && negb (hasProperty "id" attributes));
    [apply Hinsert|].
  destruct (JS.includes attribute "="); [|exact Hkey].
  destruct (JS.split "=" attribute) as [|k [|v [|? ?]]]; try exact Hkey.
  unfold setProperty. destruct (String.eqb k "__proto__"); [exact Hkey|apply Hinsert].
Qed.

(** X7. [parseAttributeNode] never removes an attribute: every key of the
    old attributes is a key of the result, for every node and every source
    text. *)
Theorem parseAttributeNode_keeps_keys
    (oldAttributes : option (gmap string string)) (node : SyntaxNode)
    (markdown key : string) :
  is_Some (default ∅ oldAttributes !! key) →
  is_Some (parseAttributeNode oldAttributes node markdown !! key).
Proof.
  unfold parseAttributeNode. destruct (negb _); [intros Hkey; exact Hkey|].
  generalize (JS.splitWhiteSpace (JS.substring markdown (from node + 1) (to node - 1))).
  intros words. generalize (default ∅ oldAttributes).
  induction words as [|w words IH]; simpl; intros attributes Hkey; [exact Hkey|].
  apply IH. apply parseAttribute_keeps_keys. exact Hkey.
Qed.

Lemma split_length (sep : ascii) (s : string) :
  length (JS.split sep s) = S (occurrences sep s).
Proof.
  unfold occurrences. induction s as [|c s IH]; simpl; [reflexivity|].
  destruct (Ascii.eqb_spec c sep) as [->|Hc].
  - simpl. rewrite IH. destruct (ascii_dec sep sep); [reflexivity|congruence].
  - destruct (JS.split sep s) as [|p ps] eqn:Hs; [simpl in IH; discriminate|].
    simpl in *. rewrite IH. destruct (ascii_dec c sep); [congruence|reflexivity].
Qed.

(** X8. A raw attribute that is neither a class nor an identifier that
    counts, and that does not hold exactly one [=], is ignored: a bare word
    such as [foo], and a malformed [a=b=c], leave the attributes as they
    are. *)
Theorem parseAttribute_ignores_malformed
    (attributes : gmap string string) (attribute : string) :
  JS.startsWith attribute "." = false →
  JS.startsWith attribute "#" = false ∨ is_Some (attributes !! "id") →
  occurrences "=" attribute ≠ 1%nat →
  parseAttribute attributes attribute = attributes.
Proof.
  intros Hdot Hhash Hcount. unfold parseAttribute. rewrite Hdot.
  assert (Hid : JS.startsWith attribute "#" && negb (hasProperty "id" attributes) = false).
  { destruct Hhash as [->|[id Hid]]; [reflexivity|].
    unfold hasProperty. rewrite Hid. apply andb_false_r. }
  rewrite Hid. destruct (JS.includes attribute "="); [|reflexivity].
  pose proof (split_length "=" attribute) as Hlen.
  destruct (JS.split "=" attribute) as [|k [|v [|? ?]]]; try reflexivity.
  simpl in Hlen. congruence.
Qed.

Lemma splitWhiteSpace_run (s : string) :
  allWhiteSpace s = true → JS.splitWhiteSpace_from true s = [EmptyString].
Proof.
  induction s as [|c s IH]; simpl; [reflexivity|].
  destruct (JS.isWhiteSpace c); simpl; [exact IH|discriminate].
Qed.

(** X9. An attribute block that holds nothing, or white space only, adds no
    attribute: [parseAttributeNode] returns the old attributes, the empty
    object when there were none. *)
Theorem parseAttributeNode_empty_block
    (oldAttributes : option (gmap string string)) (node : SyntaxNode)
    (markdown : string) :
  allWhiteSpace (JS.substring markdown (from node + 1) (to node - 1)) = true →
  parseAttributeNode oldAttributes node markdown = default ∅ oldAttributes.
Proof.
  intros Hws. unfold parseAttributeNode. destruct (negb _); [reflexivity|].
  destruct (JS.substring markdown (from node + 1) (to node - 1)) as [|c s];
    [reflexivity|].
  simpl in Hws. apply andb_true_iff in Hws. destruct Hws as [Hc Hs].
  unfold JS.splitWhiteSpace. rewrite Hc, (splitWhiteSpace_run s Hs). reflexivity.
Qed.

(** ** Substrings of a concatenation *)

Lemma append_assoc (a b c : string) : (a +:+ b) +:+ c = a +:+ b +:+ c.
Proof.
  induction a as [|x a IH]; [reflexivity|].
  change (String x ((a +:+ b) +:+ c) = String x (a +:+ b +:+ c)).
  rewrite IH. reflexivity.
Qed.

Lemma append_empty_r (s : string) : s +:+ EmptyString = s.
Proof.
  induction s as [|c s IH]; [reflexivity|].
  change (String c (s +:+ EmptyString) = String c s). rewrite IH. reflexivity.
Qed.

Lemma endsWith_char (c : ascii) (s : string) :
  JS.endsWith s (String c EmptyString) = true
  ↔ ∃ r, s = r +:+ String c EmptyString.
Proof.
  split.
  - induction s as [|a s IH]; [discriminate|]. intros Hs.
    change (String.eqb (String a s) (String c EmptyString)
            || JS.endsWith s (String c EmptyString) = true) in Hs.
    apply orb_true_iff in Hs. destruct Hs as [Hs|Hs].
    + apply String.eqb_eq in Hs. exists EmptyString. exact Hs.
    + destruct (IH Hs) as [r ->]. exists (String a r). reflexivity.
  - intros [r ->]. induction r as [|a r IH].
    + change (String.eqb (String c EmptyString) (String c EmptyString)
              || JS.endsWith EmptyString (String c EmptyString) = true).
      rewrite String.eqb_refl. reflexivity.
    + change (String.eqb (String a (r +:+ String c EmptyString)) (String c EmptyString)
              || JS.endsWith (r +:+ String c EmptyString) (String c EmptyString) = true).
      rewrite IH. apply orb_true_r.
Qed.

(** ** Footnotes and inline code *)

(** X10. The [label] and the [inline] flag of a footnote give back its
    source text: for a [Footnote] node over the text [[^body]] the body is
    the label, followed by a caret exactly when the footnote is inline, and
    the footnote is inline exactly when the body ends with a caret. *)
Theorem footnote_label_round_trip (node : SyntaxNode)
    (markdown pre body post : string) :
  name node = "Footnote" →
  markdown = pre +:+ "[^" +:+ body +:+ "]" +:+ post →
  from node = Z.of_nat (String.length pre) →
  to node = from node + Z.of_nat (String.length body) + 3 →
  ∃ f, parseNode node markdown = Returned (NFootnote f)
       ∧ body = footnote_label f +:+ (if inline f then "^" else "")
       ∧ (inline f = true ↔ ∃ r, body = r +:+ "^").
Proof.
  intros Hname Hsource Hfrom Hto. rewrite parseNode_unfold. unfold parseNode_body.
  rewrite Hname. simpl switch. cbv iota.
  assert (Hbody : JS.substring markdown (from node + 2) (to node - 1) = body).
  { rewrite Hsource, <- (append_assoc pre "[^").
    apply substring_middle; rewrite ?length_append; simpl String.length; lia. }
  rewrite Hbody. eexists. split; [reflexivity|]. simpl.
  destruct (JS.endsWith body "^") eqn:Hcaret.
  - apply endsWith_char in Hcaret. destruct Hcaret as [r Hr].
    split; [|split; eauto].
    rewrite Hr at 2.
    rewrite (substring_middle EmptyString r "^");
      [exact Hr|reflexivity|rewrite Hr, length_append; simpl; lia].
  - split.
    + symmetry. apply append_empty_r.
    + split; [discriminate|]. intros Hr. apply endsWith_char in Hr. congruence.
Qed.

(** X11. The [source] of an inline code node is the text between its first
    two [CodeMark] children: when the source text is [pre ++ code ++ post]
    with the first mark ending where [code] starts and the second one
    starting where [code] ends, the source is [code], whatever it holds. *)
Theorem inline_code_source (node start end_ : SyntaxNode) (rest : list SyntaxNode)
    (markdown pre code post : string) :
  name node = "InlineCode" →
  getChildren node "CodeMark" = start :: end_ :: rest →
  markdown = pre +:+ code +:+ post →
  to start = Z.of_nat (String.length pre) →
  from end_ = to start + Z.of_nat (String.length code) →
  parseNode node markdown
  = Returned (NInlineCode {|
      inline_md := mdNode "InlineCode" (from node) (to node);
      inline_source := code |}).
Proof.
  intros Hname Hmarks Hsource Hstart Hend.
  rewrite parseNode_unfold. unfold parseNode_body.
  rewrite Hname. simpl switch. cbv iota. rewrite Hmarks.
  rewrite Hsource, (substring_middle pre code post _ _ Hstart Hend). reflexivity.
Qed.

(** ** Headings without a mark, and the white space of a heading *)

Lemma trimStart_clean (s : string) : startsWithWhiteSpace (JS.trimStart s) = false.
Proof.
  induction s as [|c s IH]; simpl; [reflexivity|].
  destruct (JS.isWhiteSpace c) eqn:Hc; [exact IH|simpl; exact Hc].
Qed.

Lemma trimEnd_clean (s : string) : endsWithWhiteSpace (JS.trimEnd s) = false.
Proof.
  induction s as [|c s IH]; simpl; [reflexivity|].
  destruct (JS.trimEnd s) as [|d r] eqn:Hs.
  - destruct (JS.isWhiteSpace c) eqn:Hc; simpl; [reflexivity|exact Hc].
  - exact IH.
Qed.

Lemma trimEnd_start (s : string) :
  startsWithWhiteSpace s = false → startsWithWhiteSpace (JS.trimEnd s) = false.
Proof.
  destruct s as [|c s]; simpl; [reflexivity|]. intros Hc.
  destruct (JS.trimEnd s); [rewrite Hc|]; simpl; exact Hc.
Qed.

Lemma trim_clean (s : string) :
  startsWithWhiteSpace (JS.trim s) = false ∧ endsWithWhiteSpace (JS.trim s) = false.
Proof.
  unfold JS.trim. split; [apply trimEnd_start, trimStart_clean|apply trimEnd_clean].
Qed.

(** X12. The [value] of a heading, ATX or Setext, with a [HeaderMark] or
    without, never starts and never ends with white space. *)
Theorem heading_value_is_trimmed (node : SyntaxNode) (markdown : string)
    (astNode : ASTNode) :
  In (name node) (atxHeadings ++ setextHeadings) →
  parseNode node markdown = Returned astNode →
  ∃ h, astNode = NHeading h
       ∧ startsWithWhiteSpace (value (heading_value h)) = false
       ∧ endsWithWhiteSpace (value (heading_value h)) = false.
Proof.
  intros Hname. rewrite parseNode_unfold. unfold parseNode_body.
  simpl in Hname.
  repeat destruct Hname as [<-|Hname]; try contradiction; simpl switch; cbv iota;
    intros [= <-]; eexists; (split; [reflexivity|]); apply trim_clean.
Qed.

(** X13. A heading node without a [HeaderMark] child is still converted:
    an ATX heading gets the level 0 and a Setext heading the level 1, and
    the [value] is the trimmed text of the whole node, with the range of
    the node. *)
Theorem heading_without_mark (node : SyntaxNode) (markdown : string) :
  In (name node) (atxHeadings ++ setextHeadings) →
  getChild node "HeaderMark" = None →
  parseNode node markdown
  = Returned (NHeading {|
      heading_md := mdNode (name node) (from node) (to node);
      heading_value :=
        genericTextNode (from node) (to node)
          (JS.trim (JS.substring markdown (from node) (to node)));
      level := if JS.startsWith (name node) "ATX" then 0 else 1 |}).
Proof.
  intros Hname Hmark. rewrite parseNode_unfold. unfold parseNode_body.
  rewrite Hmark. simpl in Hname.
  repeat destruct Hname as [<-|Hname]; try contradiction; reflexivity.
Qed.

(** ** Highlight and emphasis *)

Lemma parseChildren_children_tile {T : Type} `{HasChildrenLaws T}
    (astNode r : T) (node : SyntaxNode) (markdown : string) :
  JS.Array_includes EMPTY_NODES (name node) = false →
  wellNested (from node) (children node) (to node) →
  getChildren node "PandocAttribute" = [] →
  parseChildren parseNode astNode node markdown = Returned r →
  tiles (from node) (map rangeOf (children_of r)) (to node).
Proof.
  intros Hkind Hnested Hattrs Hr.
  assert (Hrange : ∀ c child, parseNode c markdown = Returned child →
                              rangeOf child = spanOf c).
  { intros c child Hc. apply parseNode_range in Hc. unfold rangeOf, spanOf.
    destruct Hc as [-> ->]. reflexivity. }
  destruct (parseChildren_layout parseNode markdown Hrange astNode r node
              Hkind Hnested Hr) as [layout [Htiles [Hkids Hskipped]]].
  rewrite Hattrs in Hskipped. simpl in Hskipped.
  apply map_eq_nil in Hskipped. apply filter_none_all in Hskipped.
  rewrite Hskipped in Hkids. rewrite <- Hkids. exact Htiles.
Qed.

Lemma parseChildren_sub_nodes {T : Type} `{HasChildrenLaws T}
    (astNode r : T) (node : SyntaxNode) (markdown : string) :
  children_of astNode = [] →
  parseChildren parseNode astNode node markdown = Returned r →
  Forall2 (fun c child => parseNode c markdown = Returned child)
    (convertedChildren node)
    (List.filter (fun x => negb (isText x)) (children_of r)).
Proof.
  intros Hstart Hr.
  apply (parseChildren_conversions parseNode markdown
           (fun c child => parseNode_not_text c markdown child)
           astNode r node Hstart Hr).
Qed.

(** X14. A [Highlight] node is converted from its [HighlightContent] child
    when it has one, and from the node itself otherwise: the result has the
    range of the node, while its children are the conversions of the
    sub-nodes of the content, with Text leaves in between, and tile the
    range of the content, which leaves the marks out. *)
Theorem highlight_children_cover_content (node content : SyntaxNode)
    (markdown : string) (astNode : ASTNode) :
  name node = "Highlight" →
  content = default node (getChild node "HighlightContent") →
  parseNode node markdown = Returned astNode →
  ∃ h,
    astNode = NHighlight h
    ∧ md_name (highlight_md h) = "Highlight"
    ∧ md_from (highlight_md h) = from node
    ∧ md_to (highlight_md h) = to node
    ∧ Forall2 (fun c child => parseNode c markdown = Returned child)
        (convertedChildren content)
        (List.filter (fun x => negb (isText x)) (highlight_children h))
    ∧ (wellNested (from content) (children content) (to content) →
       getChildren content "PandocAttribute" = [] →
       tiles (from content) (map rangeOf (highlight_children h)) (to content)).
Proof.
  intros Hname Hcontent. rewrite parseNode_unfold. unfold parseNode_body.
  rewrite Hname. simpl switch. cbv iota. rewrite <- Hcontent.
  intros Hr. fmap_returned Hr as h. exists h. split; [reflexivity|].
  assert (Hkind : JS.Array_includes EMPTY_NODES (name content) = false).
  { rewrite Hcontent.
    destruct (getChild node "HighlightContent") as [c|] eqn:Hc; simpl.
    - apply getChild_name in Hc. rewrite Hc. reflexivity.
    - rewrite Hname. reflexivity. }
  pose proof (parseChildren_md _ _ _ _ _ Hr) as [Hn [Hf Ht]].
  simpl in Hn, Hf, Ht.
  pose proof Hr as Hkids.
  apply parseChildren_sub_nodes in Hkids; [|reflexivity].
  repeat split; try assumption.
  intros Hnested Hattrs.
  exact (parseChildren_children_tile _ h content markdown Hkind Hnested Hattrs Hr).
Qed.

(** X15. An [Emphasis] or [StrongEmphasis] node gives an Emphasis node with
    the name [Emphasis] and the range of the node, italic for [Emphasis] and
    bold for [StrongEmphasis]. Its children are made from the sub-nodes of
    the node itself, the marks included, and tile the range of the node. *)
Theorem emphasis_conversion (node : SyntaxNode) (markdown : string)
    (astNode : ASTNode) :
  name node = "Emphasis" ∨ name node = "StrongEmphasis" →
  parseNode node markdown = Returned astNode →
  ∃ e,
    astNode = NEmphasis e
    ∧ md_name (emphasis_md e) = "Emphasis"
    ∧ md_from (emphasis_md e) = from node
    ∧ md_to (emphasis_md e) = to node
    ∧ (which e = italic ↔ name node = "Emphasis")
    ∧ (which e = bold ↔ name node = "StrongEmphasis")
    ∧ Forall2 (fun c child => parseNode c markdown = Returned child)
        (convertedChildren node)
        (List.filter (fun x => negb (isText x)) (emphasis_children e))
    ∧ (wellNested (from node) (children node) (to node) →
       getChildren node "PandocAttribute" = [] →
       tiles (from node) (map rangeOf (emphasis_children e)) (to node)).
Proof.
  intros Hname. rewrite parseNode_unfold. unfold parseNode_body.
  replace (switch (name node)) with CaseEmphasis
    by (destruct Hname as [-> | ->]; reflexivity).
  intros Hr. fmap_returned Hr as e. exists e. split; [reflexivity|].
  assert (Hkind : JS.Array_includes EMPTY_NODES (name node) = false)
    by (destruct Hname as [-> | ->]; reflexivity).
  pose proof (parseChildren_md _ _ _ _ _ Hr) as [Hn [Hf Ht]].
  simpl in Hn, Hf, Ht.
  pose proof Hr as Hwhich.
  apply (parseChildren_preserves which) in Hwhich; [|reflexivity..].
  simpl in Hwhich.
  pose proof Hr as Hkids.
  apply parseChildren_sub_nodes in Hkids; [|reflexivity].
  split; [exact Hn|]. split; [exact Hf|]. split; [exact Ht|].
  split; [|split; [|split; [exact Hkids|]]].
  - rewrite Hwhich. destruct Hname as [-> | ->]; simpl; split; congruence.
  - rewrite Hwhich. destruct Hname as [-> | ->]; simpl; split; congruence.
  - intros Hnested Hattrs.
    exact (parseChildren_children_tile _ e node markdown Hkind Hnested Hattrs Hr).
Qed.

(** ** Footnote references *)

(** X16. A [FootnoteRef] node gives a FootnoteRef node with the range of
    the node. Its label is empty without a [FootnoteRefLabel] child, and for
    a label child over the text [[^label]:] it is that label. Without a
    [FootnoteRefBody] child there are no children and nothing is thrown;
    with one, the children that are no Text nodes are the conversions of
    the sub-nodes of the body. *)
Theorem footnote_ref_conversion (node : SyntaxNode) (markdown : string) :
  name node = "FootnoteRef" →
  (getChild node "FootnoteRefBody" = None →
   ∃ f, parseNode node markdown = Returned (NFootnoteRef f)
        ∧ footnoteref_children f = [])
  ∧ (∀ astNode, parseNode node markdown = Returned astNode →
     ∃ f,
       astNode = NFootnoteRef f
       ∧ md_name (footnoteref_md f) = "FootnoteRef"
       ∧ md_from (footnoteref_md f) = from node
       ∧ md_to (footnoteref_md f) = to node
       ∧ (getChild node "FootnoteRefLabel" = None → footnoteref_label f = "")
       ∧ (∀ label pre text post,
            getChild node "FootnoteRefLabel" = Some label →
            markdown = pre +:+ "[^" +:+ text +:+ "]:" +:+ post →
            from label = Z.of_nat (String.length pre) →
            to label = from label + Z.of_nat (String.length text) + 4 →
            footnoteref_label f = text)
       ∧ (∀ body, getChild node "FootnoteRefBody" = Some body →
            Forall2 (fun c child => parseNode c markdown = Returned child)
              (convertedChildren body)
              (List.filter (fun x => negb (isText x)) (footnoteref_children f)))).
Proof.
  intros Hname. rewrite parseNode_unfold. unfold parseNode_body.
  rewrite Hname. simpl switch. cbv iota. split.
  - intros ->. eexists. split; reflexivity.
  - intros astNode Hr.
    set (start := {| footnoteref_md := mdNode "FootnoteRef" (from node) (to node);
                     footnoteref_label := _; footnoteref_children := [] |}) in Hr.
    assert (Hf : ∃ f, astNode = NFootnoteRef f
                      ∧ md_name (footnoteref_md f) = "FootnoteRef"
                      ∧ md_from (footnoteref_md f) = from node
                      ∧ md_to (footnoteref_md f) = to node
                      ∧ footnoteref_label f = footnoteref_label start
                      ∧ ∀ body, getChild node "FootnoteRefBody" = Some body →
                          Forall2 (fun c child => parseNode c markdown = Returned child)
                            (convertedChildren body)
                            (List.filter (fun x => negb (isText x))
                               (footnoteref_children f))).
    { destruct (getChild node "FootnoteRefBody") as [body|].
      - fmap_returned Hr as f. exists f.
        pose proof (parseChildren_md _ _ _ _ _ Hr) as [Hn [Hfrom Hto]].
        pose proof Hr as Hlabel.
        apply (parseChildren_preserves footnoteref_label) in Hlabel;
          [|reflexivity..].
        apply parseChildren_sub_nodes in Hr; [|reflexivity].
        repeat split; try assumption. intros body' [= <-]. exact Hr.
      - injection Hr as <-. exists start. repeat split. intros body [=]. }
    destruct Hf as [f [-> [Hn [Hfrom [Hto [Hlabel Hbody]]]]]].
    exists f. repeat split; try assumption.
    + intros Hnone. rewrite Hlabel. subst start. simpl. rewrite Hnone. reflexivity.
    + intros label pre text post Hl Hsource Hlfrom Hlto.
      rewrite Hlabel. subst start. simpl. rewrite Hl, Hsource.
      rewrite <- (append_assoc pre "[^").
      apply substring_middle; rewrite ?length_append; simpl String.length; lia.
Qed.

(** ** Tables and lists *)

Lemma Forall2_map_eq {A B C : Type} (f : B → C) (g : A → C) (l : list A) (k : list B) :
  Forall2 (fun x y => f y = g x) l k → map f k = map g l.
Proof. induction 1 as [|x y l k Hxy _ IH]; simpl; [reflexivity|]. rewrite Hxy, IH. reflexivity. Qed.

Lemma map_constant {A B : Type} (g : A → B) (b : B) (l : list A) :
  (∀ x, In x l → g x = b) → map g l = repeat b (length l).
Proof.
  induction l as [|x l IH]; simpl; intros Hg; [reflexivity|].
  rewrite (Hg x) by auto. rewrite IH by auto. reflexivity.
Qed.

Lemma parseChildren_converts_empty_kind {T : Type} `{HasChildrenLaws T}
    (astNode r : T) (node : SyntaxNode) (markdown : string) :
  children_of astNode = [] →
  JS.Array_includes EMPTY_NODES (name node) = true →
  parseChildren parseNode astNode node markdown = Returned r →
  Forall2 (fun c child => parseNode c markdown = Returned child)
    (convertedChildren node) (children_of r).
Proof.
  intros Hstart Hkind Hr.
  destruct (parseChildren_conversions parseNode markdown
              (fun c child => parseNode_not_text c markdown child)
              astNode r node Hstart Hr) as [Hconv Hall].
  rewrite <- (Hall Hkind). exact Hconv.
Qed.

(** X17. A [Table] node gives a Table node whose rows are the [TableHeader]
    sub-nodes followed by the [TableRow] sub-nodes, each group in document
    order, wherever they stand in the node, and no other sub-node gives a
    row. Each row has the name and the range of its sub-node, is marked as
    header exactly when it comes from a [TableHeader], and has one cell for
    each of its [TableCell] sub-nodes, with the range of that sub-node. *)
Theorem table_rows_header_first (node : SyntaxNode) (markdown : string)
    (astNode : ASTNode) :
  name node = "Table" →
  parseNode node markdown = Returned astNode →
  ∃ t,
    astNode = NTable t
    ∧ table_md t = mdNode "Table" (from node) (to node)
    ∧ Forall2 (fun row tableRow =>
                 row_md tableRow = mdNode (name row) (from row) (to row)
                 ∧ Forall2 (fun cell tableCell =>
                              md_name (cell_md tableCell) = "TableCell"
                              ∧ md_from (cell_md tableCell) = from cell
                              ∧ md_to (cell_md tableCell) = to cell)
                     (getChildren row "TableCell") (cells tableRow))
        (getChildren node "TableHeader" ++ getChildren node "TableRow") (rows t)
    ∧ map isHeaderOrFooter (rows t)
      = repeat true (length (getChildren node "TableHeader"))
        ++ repeat false (length (getChildren node "TableRow")).
Proof.
  intros Hname. rewrite parseNode_unfold. unfold parseNode_body.
  rewrite Hname. simpl switch. cbv iota.
  intros Hr. bind_returned Hr as rows Hrows.
  eexists. split; [reflexivity|]. split; [reflexivity|]. simpl.
  apply forOf_Returned in Hrows.
  assert (Hall : Forall2 (fun row tableRow =>
                   (row_md tableRow = mdNode (name row) (from row) (to row)
                    ∧ Forall2 (fun cell tableCell =>
                                 md_name (cell_md tableCell) = "TableCell"
                                 ∧ md_from (cell_md tableCell) = from cell
                                 ∧ md_to (cell_md tableCell) = to cell)
                        (getChildren row "TableCell") (cells tableRow))
                   ∧ isHeaderOrFooter tableRow = String.eqb (name row) "TableHeader")
            (getChildren node "TableHeader" ++ getChildren node "TableRow") rows).
  { eapply Forall2_impl; [exact Hrows|]. clear Hrows.
    intros row tableRow Hrow. simpl in Hrow.
    bind_returned Hrow as cells Hcells. simpl.
    split; [|reflexivity]. split; [reflexivity|].
    apply forOf_Returned in Hcells.
    eapply Forall2_impl; [exact Hcells|]. clear Hcells.
    intros cell tableCell Hcell. simpl in Hcell.
    apply parseChildren_md in Hcell. exact Hcell. }
  split.
  - eapply Forall2_impl; [exact Hall|]. intros row tableRow [Hrow _]. exact Hrow.
  - rewrite (Forall2_map_eq isHeaderOrFooter
               (fun row => String.eqb (name row) "TableHeader")
               (getChildren node "TableHeader" ++ getChildren node "TableRow") rows).
    + rewrite List.map_app. f_equal; apply map_constant; intros row Hrow;
        apply getChildren_name in Hrow; rewrite Hrow; reflexivity.
    + eapply Forall2_impl; [exact Hall|]. intros row tableRow [_ Hhead]. exact Hhead.
Qed.

(** X18. An [OrderedList] or [BulletList] node gives a List node with one
    item for each [ListItem] sub-node, in document order, with the range of
    that sub-node; the list is ordered exactly for [OrderedList]. The marker
    of an item has the range of the first [ListMark] of the item, and the
    empty range at the start of the item without one; it has a symbol, the
    text of the mark, exactly when the list is not ordered and the mark is
    one code unit wide, so the items of an ordered list never have one. The
    children of an item are the conversions of its sub-nodes other than
    [PandocAttribute], with no Text leaf between them. *)
Theorem list_items_and_markers (node : SyntaxNode) (markdown : string)
    (astNode : ASTNode) :
  name node = "OrderedList" ∨ name node = "BulletList" →
  parseNode node markdown = Returned astNode →
  ∃ l,
    astNode = NList l
    ∧ list_md l = mdNode (name node) (from node) (to node)
    ∧ (ordered l = true ↔ name node = "OrderedList")
    ∧ Forall2 (fun item listItem =>
                 md_from (item_md listItem) = from item
                 ∧ md_to (item_md listItem) = to item
                 ∧ marker listItem =
                   match getChild item "ListMark" with
                   | Some listMark => {|
                       symbol :=
                         if negb (ordered l) && (to listMark - from listMark =? 1)
                         then Some (textOf markdown listMark)
                         else None;
                       marker_from := from listMark;
                       marker_to := to listMark |}
                   | None => {| symbol := None; marker_from := from item;
                                marker_to := from item |}
                   end
                 ∧ Forall2 (fun c child => parseNode c markdown = Returned child)
                     (convertedChildren item) (item_children listItem))
        (getChildren node "ListItem") (items l)
    ∧ (ordered l = true →
       Forall (fun listItem => symbol (marker listItem) = None) (items l)).
Proof.
  intros Hname. rewrite parseNode_unfold. unfold parseNode_body.
  replace (switch (name node)) with CaseList
    by (destruct Hname as [-> | ->]; reflexivity).
  intros Hr. bind_returned Hr as items Hitems.
  eexists. split; [reflexivity|]. split; [reflexivity|]. simpl.
  split; [destruct Hname as [-> | ->]; simpl; split; congruence|].
  apply forOf_Returned in Hitems.
  assert (Hall : Forall2 (fun item listItem =>
                   md_from (item_md listItem) = from item
                   ∧ md_to (item_md listItem) = to item
                   ∧ marker listItem =
                     match getChild item "ListMark" with
                     | Some listMark => {|
                         symbol :=
                           if negb (String.eqb (name node) "OrderedList")
                              && (to listMark - from listMark =? 1)
                           then Some (textOf markdown listMark)
                           else None;
                         marker_from := from listMark;
                         marker_to := to listMark |}
                     | None => {| symbol := None; marker_from := from item;
                                  marker_to := from item |}
                     end
                   ∧ Forall2 (fun c child => parseNode c markdown = Returned child)
                       (convertedChildren item) (item_children listItem))
            (getChildren node "ListItem") items).
  { apply Forall2_same_length_lookup_2; [eapply Forall2_length, Hitems|].
    intros i item listItem Hi Hli.
    pose proof (Forall2_lookup_lr _ _ _ _ _ _ Hitems Hi Hli) as Hitem.
    simpl in Hitem.
    apply list_elem_of_lookup_2, list_elem_of_In, getChildren_name in Hi.
    pose proof (parseChildren_md _ _ _ _ _ Hitem) as [_ [Hf Ht]].
    pose proof Hitem as Hmarker.
    apply (parseChildren_preserves marker) in Hmarker; [|reflexivity..].
    pose proof Hitem as Hkids.
    apply parseChildren_converts_empty_kind in Hkids;
      [|reflexivity|rewrite Hi; reflexivity].
    repeat split; assumption. }
  split; [exact Hall|].
  intros Hordered. eapply Forall2_Forall_out; [exact Hall|].
  intros item listItem _ [_ [_ [Hmarker _]]]. rewrite Hmarker, Hordered.
  destruct (getChild item "ListMark"); reflexivity.
Qed.

(** ** The exception of [parseChildren] *)

Section FirstException.

Context {T : Type} `{HasChildren T}.
Variable rec : SyntaxNode → string → Outcome ASTNode.
Variable markdown : string.

Lemma parseChildren_loop_first_exception (node : SyntaxNode) (e : Exception)
    (siblings : list SyntaxNode) :
  ∀ (astNode : T) (currentIndex : Z),
    parseChildren_loop rec node markdown siblings astNode currentIndex = Thrown e
    ↔ ∃ before c after,
        List.filter (fun c => negb (String.eqb (name c) "PandocAttribute")) siblings
        = before ++ c :: after
        ∧ Forall (fun b => ∃ child, rec b markdown = Returned child) before
        ∧ rec c markdown = Thrown e.
Proof.
  induction siblings as [|c siblings IH]; simpl; intros astNode i.
  - split; [discriminate|]. intros [before [c [after [Hnil _]]]].
    destruct before; discriminate.
  - destruct (String.eqb_spec (name c) "PandocAttribute") as [Hattr|Hattr]; simpl.
    + apply IH.
    + destruct (rec c markdown) as [child|e'|] eqn:Hc; simpl.
      * rewrite IH. split.
        -- intros [before [c' [after [Hsplit [Hbefore Hc']]]]].
           exists (c :: before), c', after. rewrite Hsplit.
           split; [reflexivity|]. split; [|exact Hc'].
           constructor; [eauto|exact Hbefore].
        -- intros [before [c' [after [Hsplit [Hbefore Hc']]]]].
           destruct before as [|b before]; simpl in Hsplit;
             injection Hsplit as <- Hsplit; [congruence|].
           inversion Hbefore; subst. eauto 6.
      * split.
        -- intros [= <-]. exists [], c. eexists. split; [reflexivity|].
           split; [constructor|exact Hc].
        -- intros [before [c' [after [Hsplit [Hbefore Hc']]]]].
           destruct before as [|b before]; simpl in Hsplit;
             injection Hsplit as <- Hsplit; [congruence|].
           inversion Hbefore as [|? ? [child Hchild] ?]; subst. congruence.
      * split; [discriminate|].
        intros [before [c' [after [Hsplit [Hbefore Hc']]]]].
        destruct before as [|b before]; simpl in Hsplit;
          injection Hsplit as <- Hsplit; [congruence|].
        inversion Hbefore as [|? ? [child Hchild] ?]; subst. congruence.
Qed.

End FirstException.

(** X19. [parseChildren] throws exactly when the conversion of one of the
    sub-nodes other than [PandocAttribute] throws, and its exception is then
    the one of the first such sub-node in document order: every sub-node
    before it has been converted, the sub-nodes after it are not looked at,
    and a [PandocAttribute] block never makes it throw. *)
Theorem parseChildren_first_exception_wins {T : Type} `{HasChildren T}
    (astNode : T) (node : SyntaxNode) (markdown : string) (e : Exception) :
  parseChildren parseNode astNode node markdown = Thrown e
  ↔ ∃ before c after,
      convertedChildren node = before ++ c :: after
      ∧ Forall (fun b => ∃ child, parseNode b markdown = Returned child) before
      ∧ parseNode c markdown = Thrown e.
Proof.
  unfold parseChildren, convertedChildren.
  destruct (children node) as [|c cs] eqn:Hcs.
  - split.
    + destruct (negb _); discriminate.
    + intros [before [c [after [Hnil _]]]]. destruct before; discriminate.
  - rewrite <- (parseChildren_loop_first_exception parseNode markdown node e
                  (c :: cs) (set_children astNode []) (from node)).
    destruct (parseChildren_loop _ _ _ _ _ _) as [[a i]| |]; simpl.
    + destruct (_ && _); split; discriminate.
    + split; intros [= <-]; reflexivity.
    + split; discriminate.
Qed.

(** ** The text a conversion reads *)

Lemma inside_range (lo hi : Z) (node : SyntaxNode) :
  inside lo hi node = true →
  lo ≤ from node ∧ from node + minWidth (name node) ≤ to node ∧ to node ≤ hi
  ∧ 0 ≤ minWidth (name node).
Proof.
  destruct node as [n f t cs]; simpl. intros Hin.
  apply andb_prop in Hin. destruct Hin as [Hin _].
  apply andb_prop in Hin. destruct Hin as [Hin Ht].
  apply andb_prop in Hin. destruct Hin as [Hf Hw].
  assert (0 ≤ minWidth n)
    by (unfold minWidth; destruct (_ || _); [lia|destruct (String.eqb _ _); lia]).
  lia.
Qed.

Lemma inside_child (lo hi : Z) (node c : SyntaxNode) :
  inside lo hi node = true → In c (children node) → inside lo hi c = true.
Proof.
  destruct node as [n f t cs]; simpl. intros Hin.
  apply andb_prop in Hin. destruct Hin as [_ Hall]. revert Hall.
  induction cs as [|c' cs IH]; simpl; [tauto|].
  intros Hall. apply andb_prop in Hall. destruct Hall as [Hc' Hall].
  intros [<-|Hc]; [exact Hc'|exact (IH Hall Hc)].
Qed.

Lemma getChild_inside (lo hi : Z) (node c : SyntaxNode) (type : string) :
  inside lo hi node = true → getChild node type = Some c →
  inside lo hi c = true ∧ lo ≤ from c ∧ from c ≤ to c ∧ to c ≤ hi.
Proof.
  intros Hin Hc. apply getChild_In in Hc.
  pose proof (inside_child lo hi node c Hin Hc) as Hinc.
  split; [exact Hinc|]. apply inside_range in Hinc. lia.
Qed.

Lemma getChildren_inside (lo hi : Z) (node c : SyntaxNode) (type : string) :
  inside lo hi node = true → In c (getChildren node type) →
  inside lo hi c = true ∧ lo ≤ from c ∧ from c ≤ to c ∧ to c ≤ hi.
Proof.
  intros Hin Hc. apply getChildren_In in Hc.
  pose proof (inside_child lo hi node c Hin Hc) as Hinc.
  split; [exact Hinc|]. apply inside_range in Hinc. lia.
Qed.

Lemma switch_Footnote (name : string) :
  switch name = CaseFootnote → name = "Footnote".
Proof.
  destruct (String.eqb_spec name "Footnote") as [Heq|Hne]; [intros _; exact Heq|].
  unfold switch.
  repeat match goal with
         | |- context [String.eqb name ?s] =>
             destruct (String.eqb_spec name s) as [->|_]; simpl; try discriminate
         end.
  congruence.
Qed.

Section Local.

Variables (lo hi : Z) (markdown1 markdown2 : string).
Hypothesis Hsame : sameText lo hi markdown1 markdown2.

Lemma parseAttributeNode_local (oldAttributes : option (gmap string string))
    (node : SyntaxNode) :
  inside lo hi node = true →
  parseAttributeNode oldAttributes node markdown1
  = parseAttributeNode oldAttributes node markdown2.
Proof.
  intros Hin. unfold parseAttributeNode.
  destruct (String.eqb_spec (name node) "PandocAttribute") as [Hname|Hname];
    simpl; [|reflexivity].
  apply inside_range in Hin. rewrite Hname in Hin.
  change (minWidth "PandocAttribute") with 1 in Hin.
  rewrite Hsame by lia. reflexivity.
Qed.

Lemma parseChildren_loop_local {T : Type} `{HasChildren T}
    (rec : SyntaxNode → string → Outcome ASTNode)
    (node : SyntaxNode) (siblings : list SyntaxNode) :
  (∀ c, In c siblings → inside lo hi c = true) →
  (∀ c, In c siblings → rec c markdown1 = rec c markdown2) →
  ∀ (astNode : T) (currentIndex : Z),
    lo ≤ currentIndex ≤ hi →
    parseChildren_loop rec node markdown1 siblings astNode currentIndex
    = parseChildren_loop rec node markdown2 siblings astNode currentIndex.
Proof.
  induction siblings as [|c siblings IH]; simpl; intros Hin Hrec astNode i Hi;
    [reflexivity|].
  pose proof (inside_range lo hi c (Hin c (or_introl eq_refl))) as Hc.
  rewrite Hsame by lia.
  rewrite (parseAttributeNode_local _ c (Hin c (or_introl eq_refl))).
  rewrite (Hrec c (or_introl eq_refl)).
  destruct (String.eqb (name c) "PandocAttribute"); simpl.
  - apply IH; [auto|auto|lia].
  - destruct (rec c markdown2); simpl; [|reflexivity..].
    apply IH; [auto|auto|lia].
Qed.

Lemma parseChildren_loop_index {T : Type} `{HasChildren T}
    (rec : SyntaxNode → string → Outcome ASTNode)
    (node : SyntaxNode) (markdown : string) (siblings : list SyntaxNode) :
  (∀ c, In c siblings → inside lo hi c = true) →
  ∀ (astNode r : T) (currentIndex i : Z),
    lo ≤ currentIndex ≤ hi →
    parseChildren_loop rec node markdown siblings astNode currentIndex = Returned (r, i) →
    lo ≤ i ≤ hi.
Proof.
  induction siblings as [|c siblings IH]; simpl; intros Hin astNode r idx i Hidx.
  - intros [= _ <-]. exact Hidx.
  - pose proof (inside_range lo hi c (Hin c (or_introl eq_refl))) as Hc.
    intros Hloop. apply bind_Returned in Hloop. destruct Hloop as [a [_ Hloop]].
    apply IH in Hloop; [exact Hloop|auto|lia].
Qed.

Lemma parseChildren_local {T : Type} `{HasChildren T}
    (rec : SyntaxNode → string → Outcome ASTNode)
    (astNode : T) (node : SyntaxNode) :
  inside lo hi node = true →
  (∀ c, In c (children node) → rec c markdown1 = rec c markdown2) →
  parseChildren rec astNode node markdown1 = parseChildren rec astNode node markdown2.
Proof.
  intros Hin Hrec. unfold parseChildren.
  pose proof (inside_range lo hi node Hin) as Hnode.
  destruct (children node) as [|c cs] eqn:Hcs.
  - rewrite Hsame by lia. reflexivity.
  - assert (Hall : ∀ c', In c' (c :: cs) → inside lo hi c' = true).
    { intros c' Hc'. apply (inside_child lo hi node); [exact Hin|].
      rewrite Hcs. exact Hc'. }
    rewrite (parseChildren_loop_local rec node (c :: cs)); [|exact Hall|exact Hrec|lia].
    destruct (parseChildren_loop _ _ _ _ _ _) as [[a i]| |] eqn:Hloop;
      simpl; [|reflexivity..].
    apply parseChildren_loop_index in Hloop; [|exact Hall|lia].
    rewrite Hsame by lia. reflexivity.
Qed.

Lemma parseNode_body_local (rec : SyntaxNode → string → Outcome ASTNode)
    (node : SyntaxNode) :
  inside lo hi node = true →
  (∀ c, (height c < height node)%nat → inside lo hi c = true →
        rec c markdown1 = rec c markdown2) →
  parseNode_body rec node markdown1 = parseNode_body rec node markdown2.
Proof.
  intros Hin Hrec.
  pose proof (inside_range lo hi node Hin) as Hnode.
  assert (Hsub : ∀ (T : Type) (HT : HasChildren T) (start : T) x,
             (height x ≤ height node)%nat → inside lo hi x = true →
             parseChildren rec start x markdown1 = parseChildren rec start x markdown2).
  { intros T HT start x Hx Hinx. apply parseChildren_local; [exact Hinx|].
    intros c Hc. apply Hrec; [apply height_child in Hc; lia|].
    exact (inside_child lo hi x c Hinx Hc). }
  unfold parseNode_body. destruct (switch (name node)) eqn:Hcase.
  - destruct (getChild node "URL") as [url|] eqn:Hurl;
      [|rewrite Hsame by lia; reflexivity].
    apply (getChild_inside lo hi) in Hurl; [|exact Hin].
    rewrite !Hsame by lia.
    destruct (getChild node "LinkLabel"); [reflexivity|].
    destruct (getChildren node "LinkMark") as [|mark0 [|mark1 marks]] eqn:Hmarks;
      [reflexivity..|].
    assert (H0 : In mark0 (getChildren node "LinkMark")) by (rewrite Hmarks; simpl; auto).
    assert (H1 : In mark1 (getChildren node "LinkMark")) by (rewrite Hmarks; simpl; auto).
    apply (getChildren_inside lo hi) in H0; [|exact Hin].
    apply (getChildren_inside lo hi) in H1; [|exact Hin].
    rewrite Hsame by lia. reflexivity.
  - rewrite !Hsame by lia. reflexivity.
  - destruct (getChild node "HeaderMark") as [mark|] eqn:Hmark.
    + apply (getChild_inside lo hi) in Hmark; [|exact Hin].
      rewrite Hsame by lia. reflexivity.
    + rewrite Hsame by lia. reflexivity.
  - destruct (getChild node "HeaderMark") as [mark|] eqn:Hmark.
    + apply (getChild_inside lo hi) in Hmark; [|exact Hin].
      rewrite !Hsame by lia. reflexivity.
    + rewrite Hsame by lia. reflexivity.
  - rewrite !Hsame by lia. reflexivity.
  - apply switch_Footnote in Hcase. rewrite Hcase in Hnode.
    change (minWidth "Footnote") with 2 in Hnode.
    rewrite !Hsame by lia. reflexivity.
  - assert (Hlabel :
      match getChild node "FootnoteRefLabel" with
      | Some label => JS.substring markdown1 (from label + 2) (to label - 2)
      | None => ""
      end
      = match getChild node "FootnoteRefLabel" with
        | Some label => JS.substring markdown2 (from label + 2) (to label - 2)
        | None => ""
        end).
    { destruct (getChild node "FootnoteRefLabel") as [label|] eqn:Hlabel;
        [|reflexivity].
      pose proof (getChild_name _ _ _ Hlabel) as Hname.
      apply getChild_In in Hlabel. apply (inside_child lo hi node) in Hlabel; [|exact Hin].
      apply inside_range in Hlabel. rewrite Hname in Hlabel.
      change (minWidth "FootnoteRefLabel") with 2 in Hlabel.
      rewrite Hsame by lia. reflexivity. }
    rewrite Hlabel.
    destruct (getChild node "FootnoteRefBody") as [body|] eqn:Hbody; [|reflexivity].
    rewrite (Hsub _ _ _ body); [reflexivity|apply getChild_height in Hbody; lia|].
    apply (getChild_inside lo hi) in Hbody; [tauto|exact Hin].
  - rewrite (Hsub _ _ _ (default node (getChild node "HighlightContent")));
      [reflexivity| |].
    + destruct (getChild node "HighlightContent") as [content|] eqn:Hcontent; simpl;
        [apply getChild_height in Hcontent|]; lia.
    + destruct (getChild node "HighlightContent") as [content|] eqn:Hcontent; simpl;
        [|exact Hin].
      apply (getChild_inside lo hi) in Hcontent; [tauto|exact Hin].
  - f_equal. apply forOf_ext. intros item Hitem.
    pose proof (getChildren_height _ _ _ Hitem) as Hheight.
    apply (getChildren_inside lo hi) in Hitem; [|exact Hin].
    destruct Hitem as [Hitem _].
    rewrite (Hsub _ _ _ item); [|lia|exact Hitem].
    assert (Hmark :
      match getChild item "ListMark" with
      | Some listMark =>
          JS.substring markdown1 (from listMark) (to listMark)
          = JS.substring markdown2 (from listMark) (to listMark)
      | None => True
      end).
    { destruct (getChild item "ListMark") as [listMark|] eqn:Hmark; [|exact I].
      apply (getChild_inside lo hi) in Hmark; [|exact Hitem].
      rewrite Hsame by lia. reflexivity. }
    assert (Htask :
      match match getChild item "Task" with
            | Some task => getChild task "TaskMarker"
            | None => None
            end with
      | Some taskMarker =>
          JS.substring markdown1 (from taskMarker) (to taskMarker)
          = JS.substring markdown2 (from taskMarker) (to taskMarker)
      | None => True
      end).
    { destruct (getChild item "Task") as [task|] eqn:Htask; [|exact I].
      destruct (getChild task "TaskMarker") as [taskMarker|] eqn:Hmarker; [|exact I].
      apply (getChild_inside lo hi) in Htask; [|exact Hitem].
      apply (getChild_inside lo hi) in Hmarker; [|tauto].
      rewrite Hsame by lia. reflexivity. }
    destruct (getChild item "ListMark") as [listMark|];
      [rewrite Hmark|];
      (destruct (match getChild item "Task" with
                 | Some task => getChild task "TaskMarker"
                 | None => None
                 end) as [taskMarker|]; [rewrite Htask|]); reflexivity.
  - assert (Htext : ∀ which,
      match getChild node which with
      | Some c => JS.substring markdown1 (from c) (to c)
                  = JS.substring markdown2 (from c) (to c)
      | None => True
      end).
    { intros which. destruct (getChild node which) as [c|] eqn:Hc; [|exact I].
      apply (getChild_inside lo hi) in Hc; [|exact Hin].
      rewrite Hsame by lia. reflexivity. }
    pose proof (Htext "CodeMark") as Hmark.
    pose proof (Htext "CodeInfo") as Hinfo.
    pose proof (Htext "CodeText") as Hsource.
    destruct (getChild node "CodeMark") as [mark|];
      destruct (getChild node "CodeInfo") as [info|];
      destruct (getChild node "CodeText") as [source|];
      rewrite ?Hmark; try destruct (String.eqb _ "$$"); cbv iota;
      rewrite ?Hmark, ?Hinfo, ?Hsource; reflexivity.
  - destruct (getChildren node "CodeMark") as [|start [|end_ marks]] eqn:Hmarks;
      [reflexivity..|].
    assert (H0 : In start (getChildren node "CodeMark")) by (rewrite Hmarks; simpl; auto).
    assert (H1 : In end_ (getChildren node "CodeMark")) by (rewrite Hmarks; simpl; auto).
    apply (getChildren_inside lo hi) in H0; [|exact Hin].
    apply (getChildren_inside lo hi) in H1; [|exact Hin].
    rewrite Hsame by lia. reflexivity.
  - rewrite (Hsub _ _ _ node); [reflexivity|lia|exact Hin].
  - f_equal. apply forOf_ext. intros row Hrow.
    assert (Hrow' : (height row < height node)%nat ∧ inside lo hi row = true).
    { apply in_app_or in Hrow. destruct Hrow as [Hrow|Hrow];
        (split; [exact (getChildren_height _ _ _ Hrow)|]);
        apply (getChildren_inside lo hi) in Hrow; tauto. }
    destruct Hrow' as [Hheight Hinrow].
    f_equal. apply forOf_ext. intros cell Hcell.
    pose proof (getChildren_height _ _ _ Hcell) as Hcellheight.
    apply (getChildren_inside lo hi) in Hcell; [|exact Hinrow].
    apply Hsub; [lia|tauto].
  - destruct (getChild node "ZknLinkContent") as [content|] eqn:Hcontent;
      [|reflexivity].
    apply (getChild_inside lo hi) in Hcontent; [|exact Hin].
    rewrite Hsame by lia. reflexivity.
  - rewrite Hsame by lia. reflexivity.
  - rewrite (Hsub _ _ _ node); [reflexivity|lia|exact Hin].
Qed.

Lemma parseNode_local (node : SyntaxNode) :
  inside lo hi node = true →
  parseNode node markdown1 = parseNode node markdown2.
Proof.
  remember (height node) as h eqn:Hh. revert node Hh.
  induction h as [h IH] using lt_wf_ind. intros node -> Hin.
  rewrite !parseNode_unfold. apply parseNode_body_local; [exact Hin|].
  intros c Hc Hinc. exact (IH (height c) Hc c eq_refl Hinc).
Qed.

End Local.

Lemma substring_skip_more (pre s : string) (k n : nat) :
  String.substring (String.length pre + k) n (pre +:+ s) = String.substring k n s.
Proof. induction pre as [|c pre IH]; simpl; [reflexivity|exact IH]. Qed.

Lemma substring_within (mid post : string) :
  ∀ k n : nat, (k + n ≤ String.length mid)%nat →
    String.substring k n (mid +:+ post) = String.substring k n mid.
Proof.
  induction mid as [|c mid IH]; simpl; intros k n Hkn.
  - assert (k = 0%nat) as -> by lia. assert (n = 0%nat) as -> by lia.
    destruct post; reflexivity.
  - destruct k as [|k].
    + destruct n as [|n]; [reflexivity|]. rewrite IH by lia. reflexivity.
    + apply IH. lia.
Qed.

(** [substring] between two offsets inside the middle of a concatenation
    only depends on the middle. *)
Lemma substring_inside (pre mid post : string) (a b : Z) :
  Z.of_nat (String.length pre) ≤ a ≤ Z.of_nat (String.length pre + String.length mid) →
  Z.of_nat (String.length pre) ≤ b ≤ Z.of_nat (String.length pre + String.length mid) →
  JS.substring (pre +:+ mid +:+ post) a b
  = String.substring (Z.to_nat (Z.min a b) - String.length pre)
      (Z.to_nat (Z.max a b - Z.min a b)) mid.
Proof.
  intros Ha Hb. unfold JS.substring, JS.clamp. rewrite !length_append.
  set (p := String.length pre) in *. set (m := String.length mid) in *.
  set (q := String.length post).
  replace (Z.min (Z.max a 0) (Z.of_nat (p + (m + q)))) with a by lia.
  replace (Z.min (Z.max b 0) (Z.of_nat (p + (m + q)))) with b by lia.
  replace (Z.to_nat (Z.min a b)) with (p + (Z.to_nat (Z.min a b) - p))%nat at 1 by lia.
  subst p. rewrite substring_skip_more. apply substring_within. lia.
Qed.

Lemma sameText_middle (before1 before2 text after1 after2 : string) (lo hi : Z) :
  Z.of_nat (String.length before1) = lo →
  String.length before2 = String.length before1 →
  Z.of_nat (String.length text) = hi - lo →
  sameText lo hi (before1 +:+ text +:+ after1) (before2 +:+ text +:+ after2).
Proof.
  intros Hlo Hlen Hhi a b Ha Hb.
  rewrite !substring_inside by lia. rewrite Hlen. reflexivity.
Qed.

(** X20. The conversion of a node reads no text outside the range of the
    node: two documents that hold the same text in that range, after a
    prefix of the same length, give the same result, whatever comes before
    and after. This holds when every node below lies in the range, a
    [Footnote] and a [FootnoteRefLabel] are two code units wide or more and
    a [PandocAttribute] one or more, so that the offsets that the converter
    adds to their ends stay inside them. It fails without: an empty
    [PandocAttribute] at the start of a paragraph takes the code unit before
    the paragraph for its text. *)
Theorem parseNode_reads_own_range :
  (∀ (node : SyntaxNode) (before1 before2 text after1 after2 : string),
      Z.of_nat (String.length before1) = from node →
      String.length before2 = String.length before1 →
      Z.of_nat (String.length text) = to node - from node →
      inside (from node) (to node) node = true →
      parseNode node (before1 +:+ text +:+ after1)
      = parseNode node (before2 +:+ text +:+ after2))
  ∧ idOf (parseNode emptyAttributeParagraph ("ab#" +:+ "i xyz" +:+ "")) = Some "i"
  ∧ idOf (parseNode emptyAttributeParagraph ("ab." +:+ "i xyz" +:+ "")) = None.
Proof.
  split; [|split; vm_compute; reflexivity].
  intros node before1 before2 text after1 after2 Hfrom Hlen Hto Hin.
  apply (parseNode_local (from node) (to node)); [|exact Hin].
  apply sameText_middle; assumption.
Qed.

End Converter.

(** * Instances on concrete documents *)

Lemma parseNode_root_covers_input_range_witness :
  md_from (base (NHeading {|
     heading_md := mdNode "ATXHeading1" 0 3;
     heading_value := genericTextNode 1 3 "a";
     level := 1 |} : @ASTNode unit)) = 0
  ∧ md_to (base (NHeading {|
     heading_md := mdNode "ATXHeading1" 0 3;
     heading_value := genericTextNode 1 3 "a";
     level := 1 |} : @ASTNode unit)) = 3.
Proof.
  apply (parseNode_root_covers_input_range noCitations heading1 "# a").
  vm_compute. reflexivity.
Defined.

Lemma parseNode_link_without_url_witness :
  ∃ (g : GenericNodeOf (@ASTNode unit)) (t : TextNode),
    parseNode noCitations linkInText "see [a] here" = Returned (NGeneric g)
    ∧ generic_children g = [NText t]
    ∧ (md_from (text_md t), md_to (text_md t)) = (4, 7)
    ∧ value t = "[a]".
Proof.
  destruct (parseNode_link_without_url noCitations linkInText "see [a] here"
              (or_introl eq_refl) eq_refl)
    as [g [t [Hr [_ [_ [_ [_ [_ [Hchildren [_ [Hfrom [Hto [_ [_ Htext]]]]]]]]]]]]]].
  exists g, t. split; [exact Hr|]. split; [exact Hchildren|].
  split; [rewrite Hfrom, Hto; reflexivity|].
  apply (Htext "see " "[a]" " here"); reflexivity.
Defined.

Lemma heading_level_correct_witness :
  ∃ h : Heading,
    parseNode noCitations heading1 "# a" = Returned (NHeading h)
    ∧ level h = 1 - 0.
Proof.
  apply (proj1 (heading_level_correct noCitations) heading1 (leaf "HeaderMark" 0 1) "# a").
  - simpl. tauto.
  - reflexivity.
Defined.

Lemma code_block_info_witness :
  ∃ c : CodeBlock,
    (parseNode noCitations pythonFence pythonSource = Returned (NFencedCode c)
     ∨ parseNode noCitations pythonFence pythonSource = Returned (NYAMLFrontmatter c))
    ∧ info c = "python".
Proof.
  destruct (code_block_info noCitations pythonFence pythonSource) as [c [Hc [_ Hinfo]]].
  - left. reflexivity.
  - exists c. split; [exact Hc|]. apply Hinfo.
    intros mark [= <-]. vm_compute. discriminate.
Defined.

(** C1. The conversion of the inline code node without [CodeMark] children
    throws a [TypeError], although it reaches no [ZknLink] node at all. *)
Theorem inline_code_without_marks_throws :
  parseNode noCitations inlineCodeWithoutMarks "`a`"
  = Thrown (TypeError "Cannot read properties of undefined (reading 'to')")
  ∧ ∀ d, reaches inlineCodeWithoutMarks d → name d ≠ "ZknLink".
Proof.
  split; [reflexivity|].
  intros d Hreach. inversion Hreach as [|node x c d' Hx]; subst.
  - discriminate.
  - destruct Hx.
Qed.

(** C2. The link [[foo](bar)] has a [LinkLabel] child with the text [foo],
    and the [alt] of its conversion is the text [bar] of the [URL] child. *)
Theorem labelled_link_alt_is_url :
  getChild labelledLink "LinkLabel" = Some (leaf "LinkLabel" 1 4)
  ∧ textOf "[foo](bar)" (leaf "LinkLabel" 1 4) = "foo"
  ∧ parseNode noCitations labelledLink "[foo](bar)"
    = Returned (NLinkOrImage {|
        link_type := Link;
        link_md := mdNode "Link" 0 10;
        url := genericTextNode 6 9 "bar";
        alt := genericTextNode 6 9 "bar";
        title := None
      |}).
Proof.
  split; [reflexivity|]. split; [reflexivity|].
  rewrite parseNode_unfold. vm_compute. reflexivity.
Qed.

Lemma list_item_checked_witness :
  ∃ l : ListOf (@ASTNode unit),
    NList {|
      list_md := mdNode "BulletList" 0 7;
      ordered := false;
      items := [{|
        item_md := mdNode "ListItem" 0 7;
        checked := None;
        marker := {| symbol := Some "-"; marker_from := 0; marker_to := 1 |};
        item_children := [NGeneric {|
          generic_md := mdNode "ListMark" 0 1; generic_children := [] |}]
      |}]
    |} = NList l
    ∧ Forall2 (fun item listItem =>
                 match taskMarkerOf item with
                 | Some taskMarker =>
                     (textOf "- plain" taskMarker = "[x]"
                      → checked listItem = Some true)
                     ∧ (textOf "- plain" taskMarker ≠ "[x]"
                        → checked listItem = Some false)
                 | None => checked listItem = None
                 end)
        (getChildren
           (mkNode "BulletList" 0 7 [mkNode "ListItem" 0 7 [leaf "ListMark" 0 1]])
           "ListItem")
        (items l).
Proof.
  apply (proj1 (list_item_checked noCitations)
           (mkNode "BulletList" 0 7 [mkNode "ListItem" 0 7 [leaf "ListMark" 0 1]])
           "- plain").
  - right. reflexivity.
  - vm_compute. reflexivity.
Defined.

(** C3, as stated, fails on a paragraph with [PandocAttribute] sub-nodes:
    its only child is the Text leaf of [[15, 20)], which does not tile
    [[0, 35)]. *)
Lemma attribute_blocks_leave_gaps :
  JS.Array_includes EMPTY_NODES (name attributedParagraph) = false
  ∧ wellNested (from attributedParagraph) (children attributedParagraph)
      (to attributedParagraph)
  ∧ ∃ g : GenericNodeOf (@ASTNode unit),
      parseNode noCitations attributedParagraph attributedSource = Returned (NGeneric g)
      ∧ map rangeOf (generic_children g) = [(15, 20)]
      ∧ ¬ tiles (from attributedParagraph) (map rangeOf (generic_children g))
            (to attributedParagraph).
Proof.
  split; [reflexivity|]. split; [simpl; lia|].
  eexists. split; [vm_compute; reflexivity|]. split; [reflexivity|].
  simpl. intros [Hfrom _]. discriminate.
Qed.

(** The paragraph [a *b* c] with its emphasis sub-node. *)
Lemma parseChildren_tiles_range_witness :
  tiles 0 [(0, 2); (2, 5); (5, 7)] 7.
Proof.
  pose (node := mkNode "Paragraph" 0 7
                  [mkNode "Emphasis" 2 5
                     [leaf "EmphasisMark" 2 3; leaf "EmphasisMark" 4 5]]).
  pose (astNode := {| generic_md := mdNode "Paragraph" 0 7;
                      generic_children := @nil (@ASTNode unit) |}).
  destruct (parseChildren (parseNode noCitations) astNode node "a *b* c")
    as [r| |] eqn:Hr; [|vm_compute in Hr; discriminate..].
  pose proof (parseChildren_tiles_range noCitations astNode r node "a *b* c"
                eq_refl Hr) as [_ [_ [_ Htiles]]].
  specialize (Htiles ltac:(simpl; lia) eq_refl).
  vm_compute in Hr. injection Hr as <-. exact Htiles.
Defined.

(** C10, as stated, fails on the ATX heading [# a]: the [value] of the
    heading has the range [[1, 3)] and the string [a], and the source text
    of that range is [ a]. *)
Lemma atx_heading_value_is_trimmed :
  ∃ h : Heading,
    parseNode noCitations heading1 "# a" = Returned (NHeading h)
    ∧ (md_from (text_md (heading_value h)), md_to (text_md (heading_value h)))
      = (1, 3)
    ∧ value (heading_value h) = "a"
    ∧ JS.substring "# a" 1 3 = " a"
    ∧ ¬ verbatim "# a" (heading_value h).
Proof.
  eexists. split; [vm_compute; reflexivity|]. split; [reflexivity|].
  split; [reflexivity|]. split; [reflexivity|].
  unfold verbatim. vm_compute. discriminate.
Qed.

Lemma setext_heading_value_range_witness :
  ∃ h : Heading,
    parseNode noCitations (setextHeading "2") setextDashes = Returned (NHeading h)
    ∧ (md_from (text_md (heading_value h)), md_to (text_md (heading_value h)))
      = (5, 5)
    ∧ value (heading_value h) = "a".
Proof.
  destruct (proj1 (setext_heading_value_range noCitations)
              (setextHeading "2") (leaf "HeaderMark" 2 5) setextDashes)
    as [h [Hr [_ [Hfrom [Hto Hvalue]]]]].
  - simpl. tauto.
  - reflexivity.
  - exists h. split; [exact Hr|]. split; [rewrite Hfrom, Hto; reflexivity|].
    rewrite Hvalue. vm_compute. reflexivity.
Defined.

Lemma attribute_merge_order_witness :
  ∃ attributes : gmap string string,
    attributes = fold_left mergeEntry (concat attributedBlocks) ∅
    ∧ attributes !! "class" = Some "a b"
    ∧ attributes !! "id" = Some "one"
    ∧ attributes !! "key" = Some "2".
Proof.
  pose (astNode := {| generic_md := mdNode "Paragraph" 0 35;
                      generic_children := @nil (@ASTNode unit) |}).
  destruct (parseChildren (parseNode noCitations) astNode attributedParagraph
              attributedSource) as [r| |] eqn:Hr;
    [|vm_compute in Hr; discriminate..].
  destruct (proj1 (attribute_merge_order noCitations)
              (GenericNodeOf (@ASTNode unit)) GenericNode_children GenericNode_laws
              astNode r
              attributedParagraph attributedSource attributedBlocks eq_refl Hr)
    as [attributes [_ [Hmerge [Hclass [_ [Hid Hkey]]]]]].
  - repeat constructor; try discriminate; reflexivity.
  - discriminate.
  - exists attributes. split; [exact Hmerge|].
    rewrite (Hclass eq_refl), Hid, (Hkey "key") by (discriminate || reflexivity).
    repeat split.
Defined.

(** C6, as stated, fails on blocks with a key=value entry of the key
    [class] or [id]. In [{.a class=x .b}] the classes are [a] and [b] and
    the class attribute is [x b]; in [{id=x #one}] the first identifier is
    [one] and the id is [x]. A later identifier is not always ignored
    either: [{#one #two=x}] keeps [x] under the key [#two]. And the key
    [__proto__] is not kept at all: [{__proto__=x}] gives attributes
    without a key. *)
Lemma key_entries_set_class_and_id :
  (∃ (g : GenericNodeOf (@ASTNode unit)) attributes,
     parseNode noCitations (blockParagraph "{.a class=x .b}") "{.a class=x .b}"
     = Returned (NGeneric g)
     ∧ md_attributes (generic_md g) = Some attributes
     ∧ attributes !! "class" = Some "x b"
     ∧ joined (classesOf [ClassEntry "a"; KeyValueEntry "class" "x"; ClassEntry "b"])
       = Some "a b")
  ∧ (∃ (g : GenericNodeOf (@ASTNode unit)) attributes,
       parseNode noCitations (blockParagraph "{id=x #one}") "{id=x #one}"
       = Returned (NGeneric g)
       ∧ md_attributes (generic_md g) = Some attributes
       ∧ attributes !! "id" = Some "x"
       ∧ head (idsOf [KeyValueEntry "id" "x"; IdEntry "one"]) = Some "one")
  ∧ (∃ (g : GenericNodeOf (@ASTNode unit)) attributes,
       parseNode noCitations (blockParagraph "{#one #two=x}") "{#one #two=x}"
       = Returned (NGeneric g)
       ∧ md_attributes (generic_md g) = Some attributes
       ∧ attributes !! "id" = Some "one"
       ∧ attributes !! "#two" = Some "x")
  ∧ (∃ (g : GenericNodeOf (@ASTNode unit)),
       parseNode noCitations (blockParagraph "{__proto__=x}") "{__proto__=x}"
       = Returned (NGeneric g)
       ∧ md_attributes (generic_md g) = Some ∅
       ∧ last (valuesOf "__proto__" [KeyValueEntry "__proto__" "x"]) = Some "x").
Proof.
  split; [|split; [|split]];
    try (eexists _, _; split; [vm_compute; reflexivity|];
         split; [reflexivity|]; split; vm_compute; reflexivity).
  eexists. split; [vm_compute; reflexivity|]. split; reflexivity.
Qed.

Lemma parseNode_throws_or_returns_witness :
  ∃ astNode : @ASTNode unit, parseNode noCitations heading1 "# a" = Returned astNode.
Proof.
  apply (proj2 (parseNode_throws_or_returns noCitations heading1 "# a")).
  intros d Hreach. inversion Hreach as [|node x c d' Hx]; subst.
  - reflexivity.
  - destruct Hx.
Defined.

Lemma parseNode_result_type_witness :
  typeOf (NGeneric {| generic_md := mdNode "Link" 0 3;
                      generic_children := [NText (genericTextNode 0 3 "[a]")] |}
          : @ASTNode unit) = "Generic".
Proof.
  destruct (parseNode_result_type noCitations linkWithoutUrl "[a]"
              (NGeneric {| generic_md := mdNode "Link" 0 3;
                           generic_children := [NText (genericTextNode 0 3 "[a]")] |})
              eq_refl) as [_ [_ [Hlink _]]].
  exact (Hlink (or_introl eq_refl)).
Defined.

Lemma link_url_and_alt_witness :
  ∃ l : LinkOrImage,
    parseNode noCitations labelledLink "[foo](bar)" = Returned (NLinkOrImage l)
    ∧ link_type l = Link
    ∧ url l = genericTextNode 6 9 "bar"
    ∧ alt l = url l
    ∧ title l = None.
Proof.
  apply (link_url_and_alt noCitations labelledLink (leaf "URL" 6 9) "[foo](bar)").
  - left. reflexivity.
  - reflexivity.
Defined.

Lemma parseChildren_converts_in_order_witness :
  Forall2 (fun c child => parseNode noCitations c "a *b* c" = Returned child)
    (convertedChildren emphasisParagraph)
    [NEmphasis {| emphasis_md := mdNode "Emphasis" 2 5; which := italic;
                  emphasis_children :=
                    [NGeneric {| generic_md := mdNode "EmphasisMark" 2 3;
                                 generic_children := [] |};
                     NText (genericTextNode 3 4 "b");
                     NGeneric {| generic_md := mdNode "EmphasisMark" 4 5;
                                 generic_children := [] |}] |}].
Proof.
  pose (astNode := {| generic_md := mdNode "Paragraph" 0 7;
                      generic_children := @nil (@ASTNode unit) |}).
  destruct (parseChildren (parseNode noCitations) astNode emphasisParagraph "a *b* c")
    as [r| |] eqn:Hr; [|vm_compute in Hr; discriminate..].
  pose proof (parseChildren_converts_in_order noCitations astNode r
                emphasisParagraph "a *b* c" eq_refl Hr) as [Hconv _].
  vm_compute in Hr. injection Hr as <-. exact Hconv.
Defined.

Lemma unknown_kind_is_generic_witness :
  parseNode noCitations (leaf "HorizontalRule" 0 3) "---"
  = Returned (NGeneric {|
      generic_md := mdNode "HorizontalRule" 0 3;
      generic_children := [NText (genericTextNode 0 3 "---")] |}).
Proof.
  apply (proj1 (unknown_kind_is_generic noCitations (leaf "HorizontalRule" 0 3) "---"
                  ltac:(simpl; intuition discriminate))).
  reflexivity.
Defined.

Lemma parseChildren_attributes_presence_witness :
  is_Some (md_attributes (generic_md
    ({| generic_md := with_attributes (mdNode "Paragraph" 0 6) ∅;
        generic_children := [NText (genericTextNode 0 2 "a ");
                             NText (genericTextNode 4 6 " b")] |}
     : GenericNodeOf (@ASTNode unit)))).
Proof.
  pose (astNode := {| generic_md := mdNode "Paragraph" 0 6;
                      generic_children := @nil (@ASTNode unit) |}).
  destruct (parseChildren (parseNode noCitations) astNode emptyBlockParagraph "a {} b")
    as [r| |] eqn:Hr; [|vm_compute in Hr; discriminate..].
  pose proof (parseChildren_attributes_presence noCitations astNode r
                emptyBlockParagraph "a {} b" Hr) as [_ [_ Hsome]].
  specialize (Hsome ltac:(discriminate)).
  vm_compute in Hr. injection Hr as <-. exact Hsome.
Defined.

Lemma parseAttributeNode_keeps_keys_witness :
  is_Some (parseAttributeNode (Some {["id" := "one"]}) (leaf "PandocAttribute" 0 12)
             "{.b key=two}" !! "id").
Proof.
  apply (parseAttributeNode_keeps_keys (Some {["id" := "one"]})
           (leaf "PandocAttribute" 0 12) "{.b key=two}" "id").
  vm_compute. eauto.
Defined.

Lemma parseAttribute_ignores_malformed_witness :
  parseAttribute (∅ : gmap string string) "a=b=c" = ∅.
Proof.
  apply (parseAttribute_ignores_malformed ∅ "a=b=c").
  - reflexivity.
  - left. reflexivity.
  - vm_compute. discriminate.
Defined.

Lemma parseAttributeNode_empty_block_witness :
  parseAttributeNode None (leaf "PandocAttribute" 2 4) "a {} b" = ∅.
Proof.
  apply (parseAttributeNode_empty_block None (leaf "PandocAttribute" 2 4) "a {} b").
  reflexivity.
Defined.

Lemma footnote_label_round_trip_witness :
  ∃ f : Footnote,
    parseNode noCitations footnoteNode "a[^1] b" = Returned (NFootnote f)
    ∧ "1" = footnote_label f +:+ (if inline f then "^" else "")
    ∧ (inline f = true ↔ ∃ r, "1" = r +:+ "^").
Proof.
  apply (footnote_label_round_trip noCitations footnoteNode "a[^1] b" "a" "1" " b");
    reflexivity.
Defined.

Lemma inline_code_source_witness :
  parseNode noCitations inlineCodeNode "`a==b`"
  = Returned (NInlineCode {| inline_md := mdNode "InlineCode" 0 6;
                             inline_source := "a==b" |}).
Proof.
  apply (inline_code_source noCitations inlineCodeNode (leaf "CodeMark" 0 1)
           (leaf "CodeMark" 5 6) [] "`a==b`" "`" "a==b" "`"); reflexivity.
Defined.

Lemma heading_value_is_trimmed_witness :
  ∃ h : Heading,
    (NHeading {| heading_md := mdNode "ATXHeading1" 0 3;
                 heading_value := genericTextNode 1 3 "a";
                 level := 1 |} : @ASTNode unit) = NHeading h
    ∧ startsWithWhiteSpace (value (heading_value h)) = false
    ∧ endsWithWhiteSpace (value (heading_value h)) = false.
Proof.
  apply (heading_value_is_trimmed noCitations heading1 "# a").
  - simpl. tauto.
  - vm_compute. reflexivity.
Defined.

Lemma heading_without_mark_witness :
  parseNode noCitations (leaf "ATXHeading2" 0 3) " a "
  = Returned (NHeading {| heading_md := mdNode "ATXHeading2" 0 3;
                          heading_value := genericTextNode 0 3 "a";
                          level := 0 |}).
Proof.
  apply (heading_without_mark noCitations (leaf "ATXHeading2" 0 3) " a ").
  - simpl. tauto.
  - reflexivity.
Defined.

Lemma highlight_children_cover_content_witness :
  ∃ h : HighlightOf (@ASTNode unit),
    (NHighlight {| highlight_md := mdNode "Highlight" 0 5;
                   highlight_children := [NText (genericTextNode 2 3 "a")] |}
     : @ASTNode unit) = NHighlight h
    ∧ md_name (highlight_md h) = "Highlight"
    ∧ md_from (highlight_md h) = 0
    ∧ md_to (highlight_md h) = 5
    ∧ Forall2 (fun c child => parseNode noCitations c "==a==" = Returned child)
        (convertedChildren (leaf "HighlightContent" 2 3))
        (List.filter (fun x => negb (isText x)) (highlight_children h))
    ∧ (wellNested 2 [] 3 →
       getChildren (leaf "HighlightContent" 2 3) "PandocAttribute" = [] →
       tiles 2 (map rangeOf (highlight_children h)) 3).
Proof.
  apply (highlight_children_cover_content noCitations highlightNode
           (leaf "HighlightContent" 2 3) "==a==").
  - reflexivity.
  - reflexivity.
  - vm_compute. reflexivity.
Defined.

Lemma emphasis_conversion_witness :
  ∃ e : EmphasisOf (@ASTNode unit),
    parseNode noCitations strongEmphasis "**b**" = Returned (NEmphasis e)
    ∧ which e = bold.
Proof.
  destruct (parseNode noCitations strongEmphasis "**b**")
    as [a| |] eqn:Hr; [|vm_compute in Hr; discriminate..].
  destruct (emphasis_conversion noCitations strongEmphasis "**b**" a
              (or_intror eq_refl) Hr)
    as [e [-> [_ [_ [_ [_ [Hbold _]]]]]]].
  exists e. split; [reflexivity|]. apply Hbold. reflexivity.
Defined.

Lemma footnote_ref_conversion_witness :
  ∃ f : FootnoteRefOf (@ASTNode unit),
    parseNode noCitations (mkNode "FootnoteRef" 0 7 [leaf "FootnoteRefLabel" 0 5])
      "[^1]: a" = Returned (NFootnoteRef f)
    ∧ footnoteref_children f = [].
Proof.
  apply (proj1 (footnote_ref_conversion noCitations
                  (mkNode "FootnoteRef" 0 7 [leaf "FootnoteRefLabel" 0 5])
                  "[^1]: a" eq_refl)).
  reflexivity.
Defined.


Lemma table_rows_header_first_witness :
  ∃ t : TableOf (@ASTNode unit),
    parseNode noCitations tableNode tableSource = Returned (NTable t)
    ∧ map isHeaderOrFooter (rows t) = [true; false].
Proof.
  destruct (parseNode noCitations tableNode tableSource)
    as [a| |] eqn:Hr; [|vm_compute in Hr; discriminate..].
  destruct (table_rows_header_first noCitations tableNode tableSource a
              eq_refl Hr)
    as [t [-> [_ [_ Hheader]]]].
  exists t. split; [reflexivity|]. exact Hheader.
Defined.

Lemma list_items_and_markers_witness :
  ∃ l : ListOf (@ASTNode unit),
    parseNode noCitations orderedList "1. a" = Returned (NList l)
    ∧ Forall (fun listItem => symbol (marker listItem) = None) (items l).
Proof.
  destruct (parseNode noCitations orderedList "1. a")
    as [a| |] eqn:Hr; [|vm_compute in Hr; discriminate..].
  destruct (list_items_and_markers noCitations orderedList "1. a" a
              (or_introl eq_refl) Hr)
    as [l [-> [_ [Hordered [_ Hsymbols]]]]].
  exists l. split; [reflexivity|]. apply Hsymbols, Hordered. reflexivity.
Defined.


Lemma parseChildren_first_exception_wins_witness :
  parseChildren (parseNode noCitations)
    {| generic_md := mdNode "Paragraph" 0 12;
       generic_children := @nil (@ASTNode unit) |}
    failingParagraph "*a* [[]] `b`"
  = Thrown (Error "Could not parse node ZknLink: No ZknLinkContent node found within children!").
Proof.
  apply (proj2 (parseChildren_first_exception_wins noCitations _
                  failingParagraph "*a* [[]] `b`" _)).
  exists [mkNode "Emphasis" 0 3 [leaf "EmphasisMark" 0 1; leaf "EmphasisMark" 2 3]],
    (leaf "ZknLink" 4 8), [leaf "InlineCode" 9 12].
  split; [reflexivity|]. split; [|reflexivity].
  constructor; [|constructor]. eexists. vm_compute. reflexivity.
Defined.


Lemma parseNode_reads_own_range_witness :
  parseNode noCitations footnoteParagraph ("ab " +:+ "a[^1]" +:+ "")
  = parseNode noCitations footnoteParagraph ("xyz" +:+ "a[^1]" +:+ " more").
Proof.
  apply (proj1 (parseNode_reads_own_range noCitations) footnoteParagraph);
    reflexivity.
Defined.
